(** * Jobly: the partial-update compiler, the filter query compilers,
      the resource access layer and the list-endpoint query checks.

    The development follows the layout of the repository:
    - [Js]       the JavaScript values the code computes with;
    - [Sql]      helpers/sql.js ([sqlForPartialUpdate]);
    - [Pg]       the relational store behind [db.query];
    - [Company]  models/company.js;
    - [Job]      models/job.js;
    - [Routes]   routes/companies.js and routes/jobs.js (the GET / handlers). *)

From Stdlib Require Import String Ascii List ZArith Lia Bool.
From Stdlib Require Import DecimalString DecimalNat DecimalZ.
From Stdlib Require Import Sorting.Sorted Permutation.
Import ListNotations.

Open Scope list_scope.
Open Scope string_scope.

(** ** JavaScript values *)

Module Js.

(** Numbers.  A number is written as the language prints it: by the shortest
    decimal that reads back as the same number.  [Int z] is a whole number;
    [Frac s m e] is [m / 10 ^ e], negated when [s] holds, for a number that
    is not whole ([m] is then no multiple of 10); the two infinities and NaN
    complete them.  Negative zero prints, tests and compares as zero and is
    [Int 0]. *)
Inductive Num : Type :=
| Int (z : Z)
| Frac (negative : bool) (m e : positive)
| Infinity (negative : bool)
| NaN.

Inductive Value : Type :=
| Undefined
| Null
| Bool (b : bool)
| Number (n : Num)
| Str (s : string).

(** An object literal or parsed JSON body: its own enumerable properties in
    iteration order.  [Object.keys] and [Object.values] walk them in this
    order. *)
Definition Obj : Type := list (string * Value).

Definition keys (o : Obj) : list string := map fst o.
Definition values (o : Obj) : list Value := map snd o.

(** [if (v)], [v ? a : b], [v || w]. *)
Definition truthy (v : Value) : bool :=
  match v with
  | Undefined => false
  | Null => false
  | Bool b => b
  | Number (Int z) => negb (z =? 0)%Z
  | Number NaN => false
  | Number _ => true
  | Str s => negb (s =? EmptyString)
  end.

(** [v != null] (loose): false for null and undefined only. *)
Definition not_nullish (v : Value) : bool :=
  match v with
  | Undefined | Null => false
  | _ => true
  end.

(** A default parameter [p = null]: the default replaces [undefined] only. *)
Definition default_null (v : Value) : Value :=
  match v with
  | Undefined => Null
  | _ => v
  end.

Definition decimal (z : Z) : string := NilZero.string_of_int (Z.to_int z).
Definition decimal_nat (n : nat) : string := NilZero.string_of_uint (Nat.to_uint n).

(** *** Number to string *)

Fixpoint zeros (n : nat) : string :=
  match n with
  | O => EmptyString
  | S n' => String "0" (zeros n')
  end.

(** The digits of a whole number without the zeros that end it. *)
Fixpoint strip_zeros (s : string) : string :=
  match s with
  | EmptyString => EmptyString
  | String c s' =>
      match strip_zeros s' with
      | EmptyString => if (c =? "0")%char then EmptyString else String c EmptyString
      | t => String c t
      end
  end.

(** Exponent form: the first digit, the others after a point, [e], the sign
    and the exponent [n - 1]. *)
Definition exponential (ds : string) (n : Z) : string :=
  match ds with
  | EmptyString => EmptyString
  | String d rest =>
      String d (match rest with
                | EmptyString => EmptyString
                | _ => "." ++ rest
                end)
      ++ "e" ++ (if (n - 1 <? 0)%Z then "-" else "+") ++ decimal (Z.abs (n - 1))
  end.

(** Number::toString for the digits [ds] of a positive number whose decimal
    point stands after the first [n] of them: zeros are added on either
    side when [n] lies between -5 and 21, and the exponent form is used
    otherwise. *)
Definition print_digits (ds : string) (n : Z) : string :=
  let k := Z.of_nat (String.length ds) in
  if (k <=? n)%Z && (n <=? 21)%Z then ds ++ zeros (Z.to_nat (n - k))
  else if (0 <? n)%Z && (n <=? 21)%Z then
    substring 0 (Z.to_nat n) ds ++ "." ++ substring (Z.to_nat n) (Z.to_nat (k - n)) ds
  else if (-6 <? n)%Z && (n <=? 0)%Z then "0." ++ zeros (Z.to_nat (- n)) ++ ds
  else exponential ds n.

Definition minus_sign (negative : bool) : string :=
  if negative then "-" else EmptyString.

Definition print_number (n : Num) : string :=
  match n with
  | Int z =>
      if (Z.abs z <? 10 ^ 21)%Z then decimal z
      else
        minus_sign (z <? 0)%Z
        ++ exponential (strip_zeros (decimal (Z.abs z)))
                       (Z.of_nat (String.length (decimal (Z.abs z))))
  | Frac s m e =>
      minus_sign s
      ++ print_digits (decimal (Z.pos m))
                      (Z.of_nat (String.length (decimal (Z.pos m))) - Z.pos e)
  | Infinity s => minus_sign s ++ "Infinity"
  | NaN => "NaN"
  end.

(** ToString, as a template literal applies it. *)
Definition ToString (v : Value) : string :=
  match v with
  | Undefined => "undefined"
  | Null => "null"
  | Bool true => "true"
  | Bool false => "false"
  | Number n => print_number n
  | Str s => s
  end.

(** *** String to number *)

(** White space and line terminators, among the code units below 256: tab,
    line feed, vertical tab, form feed, carriage return, space and the
    no-break space. *)
Definition white (c : ascii) : bool :=
  let n := nat_of_ascii c in
  (n =? 9)%nat || (n =? 10)%nat || (n =? 11)%nat || (n =? 12)%nat
  || (n =? 13)%nat || (n =? 32)%nat || (n =? 160)%nat.

Fixpoint trimStart (s : string) : string :=
  match s with
  | String c s' => if white c then trimStart s' else s
  | EmptyString => EmptyString
  end.

Fixpoint trimEnd (s : string) : string :=
  match s with
  | EmptyString => EmptyString
  | String c s' =>
      match trimEnd s' with
      | EmptyString => if white c then EmptyString else String c EmptyString
      | t => String c t
      end
  end.

Definition trim (s : string) : string := trimEnd (trimStart s).

(** The value of a digit or letter as a digit of some base. *)
Definition digit_value (c : ascii) : option Z :=
  let n := Z.of_nat (nat_of_ascii c) in
  if (48 <=? n)%Z && (n <=? 57)%Z then Some (n - 48)%Z
  else if (97 <=? n)%Z && (n <=? 122)%Z then Some (n - 87)%Z
  else if (65 <=? n)%Z && (n <=? 90)%Z then Some (n - 55)%Z
  else None.

(** The longest run of digits of [base] at the head of [s], and the rest. *)
Fixpoint read_run (base : Z) (s : string) : list Z * string :=
  match s with
  | EmptyString => ([], EmptyString)
  | String c s' =>
      match digit_value c with
      | Some d =>
          if (d <? base)%Z then
            let (ds, rest) := read_run base s' in (d :: ds, rest)
          else ([], s)
      | None => ([], s)
      end
  end.

Definition value_of (base : Z) (ds : list Z) : Z :=
  fold_left (fun a d => (base * a + d)%Z) ds 0%Z.

(** What a string says as a number (StringNumericLiteral): nothing numeric,
    an infinity, or the exact value [m * 10 ^ x]. *)
Inductive Literal : Type :=
| NotNumeric
| Infinite (negative : bool)
| Exact (m x : Z).

(** ExponentPart, or nothing: [e] or [E], an optional sign, digits. *)
Definition exponent_part (s : string) : option Z :=
  match s with
  | EmptyString => Some 0%Z
  | String c r =>
      if (c =? "e")%char || (c =? "E")%char then
        let (negative, r') :=
          match r with
          | String "+" t => (false, t)
          | String "-" t => (true, t)
          | _ => (false, r)
          end in
        match read_run 10 r' with
        | (d :: ds, EmptyString) =>
            Some (if negative then - value_of 10 (d :: ds) else value_of 10 (d :: ds))%Z
        | _ => None
        end
      else None
  end.

(** StrUnsignedDecimalLiteral other than Infinity: digits with an optional
    point and fraction, or a point and digits, then an optional exponent. *)
Definition unsigned_decimal (s : string) : option (Z * Z) :=
  let (ip, r1) := read_run 10 s in
  let (fp, r2) :=
    match r1 with
    | String "." r => read_run 10 r
    | _ => ([], r1)
    end in
  match (ip ++ fp)%list with
  | [] => None
  | ds =>
      match exponent_part r2 with
      | Some x => Some (value_of 10 ds, (x - Z.of_nat (length fp))%Z)
      | None => None
      end
  end.

Definition str_decimal (s : string) : Literal :=
  let (negative, u) :=
    match s with
    | String "+" r => (false, r)
    | String "-" r => (true, r)
    | _ => (false, s)
    end in
  if u =? "Infinity" then Infinite negative
  else
    match unsigned_decimal u with
    | Some (m, x) => Exact (if negative then - m else m)%Z x
    | None => NotNumeric
    end.

(** NonDecimalIntegerLiteral: [0x], [0o] or [0b] and digits of that base. *)
Definition non_decimal (s : string) : option Z :=
  match s with
  | String "0" (String p r) =>
      let base :=
        if (p =? "x")%char || (p =? "X")%char then Some 16%Z
        else if (p =? "o")%char || (p =? "O")%char then Some 8%Z
        else if (p =? "b")%char || (p =? "B")%char then Some 2%Z
        else None in
      match base with
      | Some b =>
          match read_run b r with
          | (d :: ds, EmptyString) => Some (value_of b (d :: ds))
          | _ => None
          end
      | None => None
      end
  | _ => None
  end.

(** White space around the literal is dropped; nothing but white space is
    zero. *)
Definition literal (s : string) : Literal :=
  match trim s with
  | EmptyString => Exact 0 0
  | t =>
      match non_decimal t with
      | Some z => Exact z 0
      | None => str_decimal t
      end
  end.

(** [m / 10 ^ e] in the form above, with the zeros that end [m] dropped. *)
Fixpoint shrink (e : nat) (m : Z) : Num :=
  match e with
  | O => Int m
  | S e' =>
      if (m mod 10 =? 0)%Z then shrink e' (m / 10)%Z
      else Frac (m <? 0)%Z (Z.to_pos (Z.abs m)) (Pos.of_succ_nat e')
  end.

(** The number that is exactly [m * 10 ^ x]. *)
Definition exact (m x : Z) : Num :=
  if (m =? 0)%Z then Int 0
  else if (0 <=? x)%Z then Int (m * 10 ^ x)
  else shrink (Z.to_nat (- x)) m.

(** The runtime rounds the value of a literal to the nearest number it can
    hold.  The rounding is a parameter of the development: a decimal of up
    to 15 digits, well inside the range of the numbers, is held as it is,
    and no rounding gives NaN. *)
Class Runtime : Type := {
  nearest : Z -> Z -> Num;
  nearest_short :
    forall m x : Z,
      (Z.abs m < 10 ^ 15)%Z -> (-300 <= x <= 290)%Z -> nearest m x = exact m x;
  nearest_number : forall m x : Z, nearest m x <> NaN
}.

Section Conversions.
Context {R : Runtime}.

(** StringToNumber of the language definition, as unary [+], [isNaN] and
    [<] use it. *)
Definition StringToNumber (s : string) : Num :=
  match literal s with
  | NotNumeric => NaN
  | Infinite negative => Infinity negative
  | Exact m x => nearest m x
  end.

Definition ToNumber (v : Value) : Num :=
  match v with
  | Undefined => NaN
  | Null => Int 0
  | Bool true => Int 1
  | Bool false => Int 0
  | Number n => n
  | Str s => StringToNumber s
  end.

(** Unary plus. *)
Definition plus (v : Value) : Value := Number (ToNumber v).

(** The global [isNaN]. *)
Definition isNaN (v : Value) : bool :=
  match ToNumber v with
  | NaN => true
  | _ => false
  end.

(** A finite number as a fraction [p / 10 ^ i]. *)
Definition finite (n : Num) : option (Z * Z) :=
  match n with
  | Int z => Some (z, 0%Z)
  | Frac s m e => Some (if s then Z.neg m else Z.pos m, Z.pos e)
  | _ => None
  end.

Definition num_lt (a b : Num) : bool :=
  match a, b with
  | NaN, _ | _, NaN => false
  | Infinity s, Infinity t => s && negb t
  | Infinity s, _ => s
  | _, Infinity t => negb t
  | _, _ =>
      match finite a, finite b with
      | Some (p, i), Some (q, j) => (p * 10 ^ j <? q * 10 ^ i)%Z
      | _, _ => false
      end
  end.

(** [a < b]: two strings compare by code units, anything else as numbers;
    a comparison with NaN is false. *)
Definition lt (a b : Value) : bool :=
  match a, b with
  | Str s, Str t => String.ltb s t
  | _, _ => num_lt (ToNumber a) (ToNumber b)
  end.

End Conversions.

(** The double quote character, and a string in double quotes. *)
Definition dquote : string := String (ascii_of_nat 34) EmptyString.
Definition quoted (s : string) : string := dquote ++ s ++ dquote.

(** [array.map((x, idx) => f x idx)]. *)
Fixpoint mapi_from {A B : Type} (f : A -> nat -> B) (idx : nat) (l : list A) : list B :=
  match l with
  | [] => []
  | x :: l' => f x idx :: mapi_from f (S idx) l'
  end.

Definition mapi {A B : Type} (f : A -> nat -> B) (l : list A) : list B :=
  mapi_from f 0 l.

(** [delete o.k] on a copy of [o] ([{ ...o }] copies the own properties in
    order). *)
Definition delete (o : Obj) (k : string) : Obj :=
  filter (fun p => negb (fst p =? k)) o.

(** The own property [k] of a record of strings, if any. *)
Fixpoint get (o : list (string * string)) (k : string) : option string :=
  match o with
  | [] => None
  | (k', v) :: o' => if k' =? k then Some v else get o' k
  end.

(** The text of a built-in function, as a template literal gives it. *)
Definition native (name : string) : string :=
  "function " ++ name ++ "() { [native code] }".

(** What every plain object inherits from [Object.prototype], each with the
    text of its value: the functions, and [__proto__], which is the
    prototype itself.  All these values are truthy. *)
Definition inherited (k : string) : option string :=
  if k =? "constructor" then Some (native "Object")
  else if k =? "__proto__" then Some "[object Object]"
  else if existsb (String.eqb k)
            ["hasOwnProperty"; "isPrototypeOf"; "propertyIsEnumerable";
             "toLocaleString"; "toString"; "valueOf";
             "__defineGetter__"; "__defineSetter__";
             "__lookupGetter__"; "__lookupSetter__"]
  then Some (native k)
  else None.

End Js.

(** ** Errors and results *)

(** The error classes of expressError.js that the code throws, and the error
    of a failed statement, which [db.query] throws. *)
Inductive Error : Type :=
| BadRequestError (message : string)
| NotFoundError (message : string)
| DatabaseError (message : string).

Inductive Result (A : Type) : Type :=
| Ok (a : A)
| Throw (e : Error).

Arguments Ok {A} a.
Arguments Throw {A} e.

(** ** helpers/sql.js *)

Module Sql.

Record PartialUpdate : Type := {
  setCols : string;
  values : list Js.Value
}.

(** [jsToSql[colName] || colName], as the template literal of the fragment
    prints it.  [jsToSql] is an object literal: the lookup finds its own
    property, a string, which counts when it is not empty; failing that it
    finds what the object inherits under that name, if anything; and the
    field name stands in when the lookup gives nothing. *)
Definition column (jsToSql : list (string * string)) (colName : string) : string :=
  match Js.get jsToSql colName with
  | Some c => if Js.truthy (Js.Str c) then c else colName
  | None =>
      match Js.inherited colName with
      | Some text => text
      | None => colName
      end
  end.

(** One element of [cols]: the column in double quotes, [=$], the index plus one. *)
Definition fragment (col : string) (idx : nat) : string :=
  Js.quoted col ++ "=$" ++ Js.decimal_nat (idx + 1).

Definition cols (dataToUpdate : Js.Obj) (jsToSql : list (string * string)) : list string :=
  Js.mapi (fun colName idx => fragment (column jsToSql colName) idx) (Js.keys dataToUpdate).

Definition sqlForPartialUpdate (dataToUpdate : Js.Obj) (jsToSql : list (string * string))
  : Result PartialUpdate :=
  let keys := Js.keys dataToUpdate in
  if (length keys =? 0)%nat then Throw (BadRequestError "No data")
  else
    Ok {| setCols := String.concat ", " (cols dataToUpdate jsToSql);
          values := Js.values dataToUpdate |}.

End Sql.

(** ** The relational store behind [db.query]

    The store is the external collaborator of the access layer.  It is
    modelled for the statements the access layer issues: each statement is a
    fixed template of the source with the fragments the code interpolates
    ([whereClause], [setCols], the id placeholder) and its parameter list, and
    the store reads the fragments back from their text. *)

Module Pg.

(** An exact decimal: [unscaled / 10 ^ scale]. *)
Record Numeric : Type := { unscaled : Z; scale : nat }.

Inductive ColType : Type := TInt | TText | TNumeric.

Inductive SqlValue : Type :=
| SNull
| SInt (z : Z)
| SText (s : string)
| SNumeric (d : Numeric).

(** Modelled from the spec: the two tables of the schema (the schema file is
    not among the sources), with the columns the statements of the access
    layer name.  [num_employees], [logo_url], [salary] and [equity] are
    nullable; [handle] and [id] are the keys. *)
Record CompanyRow : Type := {
  handle : string;
  name : string;
  description : string;
  num_employees : option Z;
  logo_url : option string
}.

Record JobRow : Type := {
  id : Z;
  title : string;
  salary : option Z;
  equity : option Numeric;
  company_handle : string
}.

Record Db : Type := {
  companies : list CompanyRow;
  jobs : list JobRow
}.

(** What the store leaves open: the pattern operator ILIKE (value, then
    pattern); the collation that compares and orders text, which ranks any
    two texts and does so transitively; and the numbers it reads from text
    beyond the plain forms below, which differ between its versions
    (integers such as [0x1F] and [1_000], decimals with an exponent). *)
Class Engine : Type := {
  ilike : string -> string -> bool;
  collate_leb : string -> string -> bool;
  collate_total : forall a b, collate_leb a b = true \/ collate_leb b a = true;
  collate_trans :
    forall a b c, collate_leb a b = true -> collate_leb b c = true -> collate_leb a c = true;
  integer_beyond : string -> option Z;
  numeric_beyond : string -> option Numeric
}.

(** *** Reading the interpolated fragments *)

Definition is_space (c : ascii) : bool :=
  (c =? " ")%char || (c =? "010")%char || (c =? "009")%char || (c =? "013")%char.

Definition is_dquote (c : ascii) : bool := (c =? ascii_of_nat 34)%char.

Fixpoint skip_spaces (s : string) : string :=
  match s with
  | String c s' => if is_space c then skip_spaces s' else s
  | EmptyString => EmptyString
  end.

(** The blank-separated words of a fragment. *)
Fixpoint tokens (s : string) : list string :=
  match s with
  | EmptyString => []
  | String c s' =>
      if is_space c then tokens s'
      else
        match s' with
        | EmptyString => [String c EmptyString]
        | String c' _ =>
            if is_space c' then String c EmptyString :: tokens s'
            else
              match tokens s' with
              | t :: ts => String c t :: ts
              | [] => [String c EmptyString]
              end
        end
  end.

Definition digit (c : ascii) : option (Decimal.uint -> Decimal.uint) :=
  match c with
  | "0"%char => Some Decimal.D0
  | "1"%char => Some Decimal.D1
  | "2"%char => Some Decimal.D2
  | "3"%char => Some Decimal.D3
  | "4"%char => Some Decimal.D4
  | "5"%char => Some Decimal.D5
  | "6"%char => Some Decimal.D6
  | "7"%char => Some Decimal.D7
  | "8"%char => Some Decimal.D8
  | "9"%char => Some Decimal.D9
  | _ => None
  end.

(** The longest run of digits at the head of [s], and what follows it. *)
Fixpoint read_digits (s : string) : Decimal.uint * string :=
  match s with
  | EmptyString => (Decimal.Nil, EmptyString)
  | String c s' =>
      match digit c with
      | Some d => let (u, rest) := read_digits s' in (d u, rest)
      | None => (Decimal.Nil, s)
      end
  end.

(** A positional parameter [$n] at the head of [s]. *)
Definition read_placeholder (s : string) : option (nat * string) :=
  match s with
  | String "$"%char s' =>
      match read_digits s' with
      | (Decimal.Nil, _) => None
      | (u, rest) => Some (Nat.of_uint u, rest)
      end
  | _ => None
  end.

Definition parse_placeholder (s : string) : option nat :=
  match read_placeholder s with
  | Some (n, EmptyString) => Some n
  | _ => None
  end.

(** A delimited identifier, read from just after its opening quote: it runs
    to the next quote, a doubled quote standing for one quote character. *)
Fixpoint read_ident (s : string) : option (string * string) :=
  match s with
  | EmptyString => None
  | String c s' =>
      if is_dquote c then
        match s' with
        | String c' s'' =>
            if is_dquote c' then
              option_map (fun p => (String c (fst p), snd p)) (read_ident s'')
            else Some (EmptyString, s')
        | EmptyString => Some (EmptyString, EmptyString)
        end
      else option_map (fun p => (String c (fst p), snd p)) (read_ident s')
  end.

(** One assignment of a SET list: a delimited identifier, [=], a placeholder. *)
Definition read_assignment (s : string) : option ((string * nat) * string) :=
  match skip_spaces s with
  | String c s1 =>
      if is_dquote c then
        match read_ident s1 with
        | Some (col, s2) =>
            match skip_spaces s2 with
            | String "="%char s3 =>
                match read_placeholder (skip_spaces s3) with
                | Some (n, s4) => Some ((col, n), skip_spaces s4)
                | None => None
                end
            | _ => None
            end
        | None => None
        end
      else None
  | EmptyString => None
  end.

(** The SET list: assignments separated by commas. *)
Fixpoint read_assignments (fuel : nat) (s : string) : option (list (string * nat)) :=
  match fuel with
  | O => None
  | S fuel' =>
      match read_assignment s with
      | Some (a, EmptyString) => Some [a]
      | Some (a, String ","%char rest) =>
          option_map (cons a) (read_assignments fuel' rest)
      | _ => None
      end
  end.

Definition parse_set_list (setCols : string) : option (list (string * nat)) :=
  read_assignments (String.length setCols) setCols.

(** Conditions of a WHERE clause: [column operator operand]. *)
Inductive Op : Type := OpILike | OpGe | OpLe | OpGt.

Inductive Operand : Type :=
| Param (n : nat)
| Lit (z : Z).

Record Cond : Type := { ccol : string; cop : Op; crhs : Operand }.

Definition parse_op (t : string) : option Op :=
  if t =? "ILIKE" then Some OpILike
  else if t =? ">=" then Some OpGe
  else if t =? "<=" then Some OpLe
  else if t =? ">" then Some OpGt
  else None.

Definition parse_operand (t : string) : option Operand :=
  match parse_placeholder t with
  | Some n => Some (Param n)
  | None => option_map (fun d => Lit (Z.of_int d)) (NilZero.int_of_string t)
  end.

Definition parse_cond (c o r : string) : option Cond :=
  match parse_op o, parse_operand r with
  | Some op, Some rhs => Some {| ccol := c; cop := op; crhs := rhs |}
  | _, _ => None
  end.

(** Conditions joined by AND. *)
Fixpoint parse_conds (ts : list string) : option (list Cond) :=
  match ts with
  | c :: o :: r :: more =>
      match parse_cond c o r with
      | Some cd =>
          match more with
          | [] => Some [cd]
          | kw :: more' =>
              if kw =? "AND" then option_map (cons cd) (parse_conds more') else None
          end
      | None => None
      end
  | _ => None
  end.

(** The fragment between FROM and ORDER BY: nothing, or WHERE and its
    conditions. *)
Definition parse_where (whereClause : string) : option (list Cond) :=
  match tokens whereClause with
  | [] => Some []
  | kw :: ts => if kw =? "WHERE" then parse_conds ts else None
  end.


(** *** Parameters and columns *)

(** White space, as the input functions of the store skip it: space, tab,
    line feed, vertical tab, form feed, carriage return. *)
Definition is_blank (c : ascii) : bool :=
  let n := nat_of_ascii c in
  (n =? 32)%nat || (n =? 9)%nat || (n =? 10)%nat || (n =? 11)%nat
  || (n =? 12)%nat || (n =? 13)%nat.

Fixpoint skip_blanks (s : string) : string :=
  match s with
  | String c s' => if is_blank c then skip_blanks s' else s
  | EmptyString => EmptyString
  end.

Fixpoint all_blank (s : string) : bool :=
  match s with
  | String c s' => is_blank c && all_blank s'
  | EmptyString => true
  end.

(** A sign at the head of [s], if any, and what follows it. *)
Definition read_sign (s : string) : bool * string :=
  match s with
  | String "-" r => (true, r)
  | String "+" r => (false, r)
  | _ => (false, s)
  end.

Definition signed (negative : bool) (z : Z) : Z := if negative then (- z)%Z else z.

(** The plain form of an integer: digits with an optional sign, white space
    allowed on either side. *)
Definition plain_integer (s : string) : option Z :=
  let (negative, r) := read_sign (skip_blanks s) in
  match read_digits r with
  | (Decimal.Nil, _) => None
  | (u, rest) => if all_blank rest then Some (signed negative (Z.of_uint u)) else None
  end.

(** The plain form of a decimal: digits with an optional sign and an
    optional point among them, white space allowed on either side, within
    the number of digits a decimal holds on either side of the point. *)
Definition plain_numeric (s : string) : option Numeric :=
  let (negative, r) := read_sign (skip_blanks s) in
  let (ip, r1) := read_digits r in
  let (fp, r2) :=
    match r1 with
    | String "." t => read_digits t
    | _ => (Decimal.Nil, r1)
    end in
  match Decimal.app ip fp with
  | Decimal.Nil => None
  | ds =>
      if all_blank r2
         && (Z.of_nat (Decimal.nb_digits ip) <=? 131072)%Z
         && (Z.of_nat (Decimal.nb_digits fp) <=? 16383)%Z
      then Some {| unscaled := signed negative (Z.of_uint ds);
                   scale := Decimal.nb_digits fp |}
      else None
  end.

(** The integers of the columns: 32 bits, signed. *)
Definition in_int4 (z : Z) : bool := (-2147483648 <=? z)%Z && (z <=? 2147483647)%Z.

Definition invalid_input (ty v : string) : Error :=
  DatabaseError ("invalid input syntax for type " ++ ty ++ ": " ++ Js.quoted v).

Definition out_of_range (ty v : string) : Error :=
  DatabaseError ("value " ++ Js.quoted v ++ " is out of range for type " ++ ty).

Section Input.
Context {E : Engine}.

(** The input function of the integer type. *)
Definition integer_in (s : string) : Result SqlValue :=
  match match plain_integer s with
        | Some z => Some z
        | None => integer_beyond s
        end with
  | Some z => if in_int4 z then Ok (SInt z) else Throw (out_of_range "integer" s)
  | None => Throw (invalid_input "integer" s)
  end.

(** The input function of the decimal type. *)
Definition numeric_in (s : string) : Result SqlValue :=
  match match plain_numeric s with
        | Some d => Some d
        | None => numeric_beyond s
        end with
  | Some d => Ok (SNumeric d)
  | None => Throw (invalid_input "numeric" s)
  end.

(** The value a parameter has once the driver has sent it and the store has
    read it in the type of the column it meets.  The driver sends null and
    undefined as NULL and anything else as its text, a number as the
    language prints it; the store reads the text with the input function of
    the type. *)
Definition param_in (ty : ColType) (v : Js.Value) : Result SqlValue :=
  match v with
  | Js.Undefined | Js.Null => Ok SNull
  | _ =>
      match ty with
      | TText => Ok (SText (Js.ToString v))
      | TInt => integer_in (Js.ToString v)
      | TNumeric => numeric_in (Js.ToString v)
      end
  end.

End Input.

(** A table, as the store sees it: each column name with its type and the
    way to read it off a row. *)
Definition Table (Row : Type) : Type := string -> option (ColType * (Row -> SqlValue)).

Definition nullable {A : Type} (f : A -> SqlValue) (o : option A) : SqlValue :=
  match o with
  | Some a => f a
  | None => SNull
  end.

Definition companies_table : Table CompanyRow :=
  fun col =>
    if col =? "handle" then Some (TText, fun r => SText (handle r))
    else if col =? "name" then Some (TText, fun r => SText (name r))
    else if col =? "description" then Some (TText, fun r => SText (description r))
    else if col =? "num_employees" then Some (TInt, fun r => nullable SInt (num_employees r))
    else if col =? "logo_url" then Some (TText, fun r => nullable SText (logo_url r))
    else None.

Definition jobs_table : Table JobRow :=
  fun col =>
    if col =? "id" then Some (TInt, fun r => SInt (id r))
    else if col =? "title" then Some (TText, fun r => SText (title r))
    else if col =? "salary" then Some (TInt, fun r => nullable SInt (salary r))
    else if col =? "equity" then Some (TNumeric, fun r => nullable SNumeric (equity r))
    else if col =? "company_handle" then Some (TText, fun r => SText (company_handle r))
    else None.

(** *** Evaluating conditions *)

Definition numeric_compare (a b : Numeric) : comparison :=
  (unscaled a * 10 ^ Z.of_nat (scale b) ?= unscaled b * 10 ^ Z.of_nat (scale a))%Z.

Definition holds (op : Op) (c : comparison) : bool :=
  match op, c with
  | OpGe, Eq | OpGe, Gt => true
  | OpLe, Eq | OpLe, Lt => true
  | OpGt, Gt => true
  | _, _ => false
  end.

Section Evaluation.
Context {E : Engine}.

Definition text_compare (a b : string) : comparison :=
  if collate_leb a b then (if collate_leb b a then Eq else Lt) else Gt.

(** A comparison with NULL is unknown: the row is not selected. *)
Definition sql_test (op : Op) (a b : SqlValue) : bool :=
  match op, a, b with
  | OpILike, SText s, SText p => ilike s p
  | OpILike, _, _ => false
  | _, SInt x, SInt y => holds op (x ?= y)%Z
  | _, SNumeric x, SNumeric y => holds op (numeric_compare x y)
  | _, SText x, SText y => holds op (text_compare x y)
  | _, _, _ => false
  end.

Definition operand_value (ty : ColType) (args : list Js.Value) (o : Operand)
  : Result SqlValue :=
  match o with
  | Param n =>
      match n with
      | O => Throw (DatabaseError "there is no parameter $0")
      | S i =>
          match nth_error args i with
          | Some v => param_in ty v
          | None => Throw (DatabaseError "there is no such parameter")
          end
      end
  | Lit z =>
      match ty with
      | TInt => Ok (SInt z)
      | TNumeric => Ok (SNumeric {| unscaled := z; scale := 0 |})
      | TText => Throw (DatabaseError "operator does not exist: text and integer")
      end
  end.

(** A condition with its column resolved and its operand bound: a test on
    rows.  The operand is read when the statement is bound, whatever the
    rows are. *)
Definition bind_cond {Row : Type} (tbl : Table Row) (args : list Js.Value) (c : Cond)
  : Result (Row -> bool) :=
  match tbl (ccol c) with
  | None => Throw (DatabaseError ("column " ++ ccol c ++ " does not exist"))
  | Some (ty, read) =>
      match cop c, ty with
      | OpILike, TInt | OpILike, TNumeric =>
          Throw (DatabaseError "operator does not exist: ILIKE on a number")
      | _, _ =>
          match operand_value ty args (crhs c) with
          | Ok v => Ok (fun r => sql_test (cop c) (read r) v)
          | Throw e => Throw e
          end
      end
  end.

Fixpoint bind_conds {Row : Type} (tbl : Table Row) (args : list Js.Value) (cs : list Cond)
  : Result (Row -> bool) :=
  match cs with
  | [] => Ok (fun _ => true)
  | c :: cs' =>
      match bind_cond tbl args c, bind_conds tbl args cs' with
      | Ok p, Ok q => Ok (fun r => p r && q r)
      | Throw e, _ => Throw e
      | _, Throw e => Throw e
      end
  end.

End Evaluation.

Definition cond_params (c : Cond) : list nat :=
  match crhs c with
  | Param n => [n]
  | Lit _ => []
  end.

(** The parameters a statement uses are exactly [$1] to [$n] for the [n]
    values sent with it. *)
Definition placeholders_ok (used : list nat) (nargs : nat) : bool :=
  forallb (fun n => (1 <=? n)%nat && (n <=? nargs)%nat) used
  && forallb (fun n => existsb (Nat.eqb n) used) (seq 1 nargs).

Definition parameter_mismatch : Error :=
  DatabaseError "the parameters sent do not match the parameters of the statement".

Definition syntax_error : Error := DatabaseError "syntax error".

(** ORDER BY: a stable insertion sort. *)
Fixpoint insert {A : Type} (leb : A -> A -> bool) (x : A) (l : list A) : list A :=
  match l with
  | [] => [x]
  | y :: l' => if leb x y then x :: l else y :: insert leb x l'
  end.

Definition order_by {A : Type} (leb : A -> A -> bool) (l : list A) : list A :=
  fold_right (insert leb) [] l.

Section Statements.
Context {E : Engine}.

(** SELECT ... FROM table [whereClause] *)
Definition select_where {Row : Type} (tbl : Table Row) (rows : list Row)
    (whereClause : string) (args : list Js.Value) : Result (list Row) :=
  match parse_where whereClause with
  | None => Throw syntax_error
  | Some conds =>
      if placeholders_ok (flat_map cond_params conds) (length args) then
        match bind_conds tbl args conds with
        | Ok p => Ok (filter p rows)
        | Throw e => Throw e
        end
      else Throw parameter_mismatch
  end.

(** SELECT ... FROM table WHERE column = $1 *)
Definition select_eq {Row : Type} (tbl : Table Row) (rows : list Row)
    (col : string) (args : list Js.Value) : Result (list Row) :=
  match tbl col, args with
  | Some (ty, read), [v] =>
      match param_in ty v with
      | Ok key =>
          Ok (filter (fun r =>
                        match read r, key with
                        | SInt x, SInt y => (x =? y)%Z
                        | SText x, SText y => (x =? y)
                        | _, _ => false
                        end) rows)
      | Throw e => Throw e
      end
  | Some _, _ => Throw parameter_mismatch
  | None, _ => Throw (DatabaseError ("column " ++ col ++ " does not exist"))
  end.

End Statements.

(** *** UPDATE jobs *)

Definition in_unit_range (d : Numeric) : bool :=
  match numeric_compare d {| unscaled := 0; scale := 0 |},
        numeric_compare d {| unscaled := 1; scale := 0 |} with
  | Lt, _ => false
  | _, Gt => false
  | _, _ => true
  end.

Definition not_null_violation (col : string) : Error :=
  DatabaseError ("null value in column " ++ col ++ " violates not-null constraint").

Definition wrong_type (col : string) : Error :=
  DatabaseError ("column " ++ col ++ " is of another type").

(** Modelled from the spec: the jobs table of the schema (the schema file is
    not among the sources).  title and company_handle are not nullable,
    salary and equity are, equity lies between 0 and 1, company_handle
    references a company, id is the key. *)
Definition assign (d : Db) (col : string) (v : SqlValue) (r : JobRow) : Result JobRow :=
  if col =? "id" then
    match v with
    | SInt z => Ok {| id := z; title := title r; salary := salary r;
                      equity := equity r; company_handle := company_handle r |}
    | SNull => Throw (not_null_violation col)
    | _ => Throw (wrong_type col)
    end
  else if col =? "title" then
    match v with
    | SText s => Ok {| id := id r; title := s; salary := salary r;
                       equity := equity r; company_handle := company_handle r |}
    | SNull => Throw (not_null_violation col)
    | _ => Throw (wrong_type col)
    end
  else if col =? "salary" then
    match v with
    | SInt z => Ok {| id := id r; title := title r; salary := Some z;
                      equity := equity r; company_handle := company_handle r |}
    | SNull => Ok {| id := id r; title := title r; salary := None;
                     equity := equity r; company_handle := company_handle r |}
    | _ => Throw (wrong_type col)
    end
  else if col =? "equity" then
    match v with
    | SNumeric q =>
        if in_unit_range q then
          Ok {| id := id r; title := title r; salary := salary r;
                equity := Some q; company_handle := company_handle r |}
        else Throw (DatabaseError "equity violates its check constraint")
    | SNull => Ok {| id := id r; title := title r; salary := salary r;
                     equity := None; company_handle := company_handle r |}
    | _ => Throw (wrong_type col)
    end
  else if col =? "company_handle" then
    match v with
    | SText s =>
        if existsb (fun c => handle c =? s) (companies d) then
          Ok {| id := id r; title := title r; salary := salary r;
                equity := equity r; company_handle := s |}
        else Throw (DatabaseError "company_handle violates its foreign key constraint")
    | SNull => Throw (not_null_violation col)
    | _ => Throw (wrong_type col)
    end
  else Throw (DatabaseError ("column " ++ col ++ " does not exist")).

Fixpoint assign_all (d : Db) (vals : list (string * SqlValue)) (r : JobRow) : Result JobRow :=
  match vals with
  | [] => Ok r
  | (col, v) :: vals' =>
      match assign d col v r with
      | Ok r' => assign_all d vals' r'
      | Throw e => Throw e
      end
  end.

Section Updates.
Context {E : Engine}.

(** Each assigned column is resolved and its parameter read in the column's
    type. *)
Fixpoint bind_assignments (args : list Js.Value) (assigns : list (string * nat))
  : Result (list (string * SqlValue)) :=
  match assigns with
  | [] => Ok []
  | (col, n) :: assigns' =>
      match jobs_table col with
      | None => Throw (DatabaseError ("column " ++ col ++ " does not exist"))
      | Some (ty, _) =>
          match operand_value ty args (Param n), bind_assignments args assigns' with
          | Ok v, Ok vals => Ok ((col, v) :: vals)
          | Throw e, _ => Throw e
          | _, Throw e => Throw e
          end
      end
  end.

Definition id_matches (key : SqlValue) (r : JobRow) : bool :=
  match key with
  | SInt z => (id r =? z)%Z
  | _ => false
  end.

(** The table after the update, and the rows RETURNING gives: the updated
    rows, in table order. *)
Fixpoint update_rows (d : Db) (vals : list (string * SqlValue)) (key : SqlValue)
    (rows : list JobRow) : Result (list JobRow * list JobRow) :=
  match rows with
  | [] => Ok ([], [])
  | r :: rows' =>
      match update_rows d vals key rows' with
      | Throw e => Throw e
      | Ok (table, returned) =>
          if id_matches key r then
            match assign_all d vals r with
            | Ok r' => Ok (r' :: table, r' :: returned)
            | Throw e => Throw e
            end
          else Ok (r :: table, returned)
      end
  end.

Fixpoint nodupb (l : list string) : bool :=
  match l with
  | [] => true
  | x :: l' => negb (existsb (String.eqb x) l') && nodupb l'
  end.

Definition key_unique (table : list JobRow) (r : JobRow) : bool :=
  (length (filter (fun r' => (id r' =? id r)%Z) table) =? 1)%nat.

(** UPDATE jobs SET [setCols] WHERE id = [idx] RETURNING ... *)
Definition exec_update_jobs (setCols idx : string) (args : list Js.Value) (d : Db)
  : Result (list JobRow * Db) :=
  match parse_set_list setCols, parse_placeholder idx with
  | Some assigns, Some k =>
      if negb (placeholders_ok (map snd assigns ++ [k]) (length args)) then
        Throw parameter_mismatch
      else if negb (nodupb (map fst assigns)) then
        Throw (DatabaseError "multiple assignments to same column")
      else
        match bind_assignments args assigns, operand_value TInt args (Param k) with
        | Ok vals, Ok key =>
            match update_rows d vals key (jobs d) with
            | Ok (table, returned) =>
                if existsb (String.eqb "id") (map fst assigns)
                   && negb (forallb (key_unique table) returned)
                then Throw (DatabaseError "duplicate key value violates unique constraint")
                else Ok (returned, {| companies := companies d; jobs := table |})
            | Throw e => Throw e
            end
        | Throw e, _ => Throw e
        | _, Throw e => Throw e
        end
  | _, _ => Throw syntax_error
  end.

End Updates.

(** *** The statements of the access layer, and the calls made *)

Inductive Statement : Type :=
| SelectCompanies (whereClause : string) (args : list Js.Value)
| SelectCompany (args : list Js.Value)
| SelectCompanyJobs (args : list Js.Value)
| SelectJobs (whereClause : string) (args : list Js.Value)
| UpdateJobs (setCols idx : string) (args : list Js.Value).

(** The store and the statements sent to it so far. *)
Record World : Type := {
  store : Db;
  issued : list Statement
}.

(** An async function of the access layer: it reads and writes the store and
    returns or throws. *)
Definition M (A : Type) : Type := World -> Result A * World.

Definition ret {A : Type} (a : A) : M A := fun w => (Ok a, w).

Definition throw {A : Type} (e : Error) : M A := fun w => (Throw e, w).

Definition bind {A B : Type} (m : M A) (k : A -> M B) : M B :=
  fun w =>
    match m w with
    | (Ok a, w') => k a w'
    | (Throw e, w') => (Throw e, w')
    end.

(** A pure helper that may throw, called from an async function. *)
Definition lift {A : Type} (r : Result A) : M A := fun w => (r, w).

(** [await db.query(...)]: the statement is recorded, then run; a failed
    statement leaves the store as it was. *)
Definition query {A : Type} (s : Statement) (run : Db -> Result (A * Db)) : M A :=
  fun w =>
    let log := (issued w ++ [s])%list in
    match run (store w) with
    | Ok (a, d) => (Ok a, {| store := d; issued := log |})
    | Throw e => (Throw e, {| store := store w; issued := log |})
    end.

Definition reading {A : Type} (r : Result A) (d : Db) : Result (A * Db) :=
  match r with
  | Ok a => Ok (a, d)
  | Throw e => Throw e
  end.

Definition map_result {A B : Type} (f : A -> B) (r : Result A) : Result B :=
  match r with
  | Ok a => Ok (f a)
  | Throw e => Throw e
  end.

(** The columns Company.get selects of a job: id, title, salary, equity. *)
Record JobSummary : Type := {
  job_id : Z;
  job_title : string;
  job_salary : option Z;
  job_equity : option Numeric
}.

Definition summary (r : JobRow) : JobSummary :=
  {| job_id := id r; job_title := title r; job_salary := salary r; job_equity := equity r |}.

Definition by_id (a b : JobRow) : bool := (id a <=? id b)%Z.

Section Queries.
Context {E : Engine}.

Definition by_name (a b : CompanyRow) : bool := collate_leb (name a) (name b).

(** SELECT handle, name, description, num_employees AS numEmployees,
    logo_url AS logoUrl FROM companies [whereClause] ORDER BY name *)
Definition select_companies (whereClause : string) (args : list Js.Value)
  : M (list CompanyRow) :=
  query (SelectCompanies whereClause args)
        (fun d => reading (map_result (order_by by_name)
                    (select_where companies_table (companies d) whereClause args)) d).

(** SELECT id, title, salary, equity, company_handle AS companyHandle
    FROM jobs [whereClause] ORDER BY id *)
Definition select_jobs (whereClause : string) (args : list Js.Value) : M (list JobRow) :=
  query (SelectJobs whereClause args)
        (fun d => reading (map_result (order_by by_id)
                    (select_where jobs_table (jobs d) whereClause args)) d).


(** SELECT handle, name, description, num_employees AS numEmployees,
    logo_url AS logoUrl FROM companies WHERE handle = $1 *)
Definition select_company (args : list Js.Value) : M (list CompanyRow) :=
  query (SelectCompany args)
        (fun d => reading (select_eq companies_table (companies d) "handle" args) d).

(** SELECT id, title, salary, equity FROM jobs WHERE company_handle = $1
    ORDER BY id *)
Definition select_company_jobs (args : list Js.Value) : M (list JobSummary) :=
  query (SelectCompanyJobs args)
        (fun d => reading (map_result (fun rows => map summary (order_by by_id rows))
                    (select_eq jobs_table (jobs d) "company_handle" args)) d).

(** UPDATE jobs SET [setCols] WHERE id = [idx]
    RETURNING id, title, salary, equity, company_handle AS companyHandle *)
Definition update_jobs (setCols idx : string) (args : list Js.Value) : M (list JobRow) :=
  query (UpdateJobs setCols idx args) (exec_update_jobs setCols idx args).

End Queries.
End Pg.

Notation "x <- m ;; k" := (Pg.bind m (fun x => k))
  (at level 61, m at next level, right associativity).

(** ** models/company.js *)

Module Company.

(** The three variables [findAll] accumulates into. *)
Record Filter : Type := {
  whereClause : string;
  args : list Js.Value;
  argIndex : nat
}.

Definition start : Filter :=
  {| whereClause := EmptyString; args := []; argIndex := 1 |}.

(** [argIndex == 1 ? "WHERE " : "AND "] *)
Definition keyword (argIndex : nat) : string :=
  if (argIndex =? 1)%nat then "WHERE " else "AND ".

(** [if (nameFilter) { ... }] *)
Definition addName (nameFilter : Js.Value) (f : Filter) : Filter :=
  if Js.truthy nameFilter then
    {| whereClause := (whereClause f ++ keyword (argIndex f))
                      ++ ("name ILIKE $" ++ Js.decimal_nat (argIndex f) ++ " ");
       args := args f ++ [Js.Str ("%" ++ Js.ToString nameFilter ++ "%")];
       argIndex := S (argIndex f) |}
  else f.

(** [if (minEmployees) { ... }] *)
Definition addMin (minEmployees : Js.Value) (f : Filter) : Filter :=
  if Js.truthy minEmployees then
    {| whereClause := (whereClause f ++ keyword (argIndex f))
                      ++ ("num_employees >= $" ++ Js.decimal_nat (argIndex f) ++ " ");
       args := args f ++ [minEmployees];
       argIndex := S (argIndex f) |}
  else f.

(** [if (maxEmployees) { ... }] *)
Definition addMax (maxEmployees : Js.Value) (f : Filter) : Filter :=
  if Js.truthy maxEmployees then
    {| whereClause := (whereClause f ++ keyword (argIndex f))
                      ++ ("num_employees <= $" ++ Js.decimal_nat (argIndex f) ++ " ");
       args := args f ++ [maxEmployees];
       argIndex := S (argIndex f) |}
  else f.

Definition build (nameFilter minEmployees maxEmployees : Js.Value) : Filter :=
  addMax maxEmployees (addMin minEmployees (addName nameFilter start)).

Section WithPlatform.
Context {R : Js.Runtime} {E : Pg.Engine}.

(** The check that opens [findAll]. *)
Definition minGreaterThanMax (minEmployees maxEmployees : Js.Value) : bool :=
  Js.not_nullish minEmployees && Js.not_nullish maxEmployees
  && Js.lt maxEmployees minEmployees.

Definition findAll (nameFilter minEmployees maxEmployees : Js.Value)
  : Pg.M (list Pg.CompanyRow) :=
  let nameFilter := Js.default_null nameFilter in
  let minEmployees := Js.default_null minEmployees in
  let maxEmployees := Js.default_null maxEmployees in
  if minGreaterThanMax minEmployees maxEmployees then
    Pg.throw (BadRequestError
      ("Filter minimum (" ++ Js.ToString minEmployees
       ++ ") specified is greater than maximum (" ++ Js.ToString maxEmployees ++ ")"))
  else
    let f := build nameFilter minEmployees maxEmployees in
    companiesRes <- Pg.select_companies (whereClause f) (args f) ;;
    Pg.ret companiesRes.

End WithPlatform.

(** What [get] returns: the company with its [jobs]. *)
Record WithJobs : Type := {
  company : Pg.CompanyRow;
  jobs : list Pg.JobSummary
}.

Section WithEngine.
Context {E : Pg.Engine}.

Definition get (handle : Js.Value) : Pg.M WithJobs :=
  companyRes <- Pg.select_company [handle] ;;
  match companyRes with
  | [] => Pg.throw (NotFoundError ("No company: " ++ Js.ToString handle))
  | company :: _ =>
      jobRes <- Pg.select_company_jobs [handle] ;;
      Pg.ret {| company := company; jobs := jobRes |}
  end.

End WithEngine.

End Company.

(** ** models/job.js *)

Module Job.

Record Filter : Type := {
  whereClause : string;
  args : list Js.Value;
  argIndex : nat
}.

Definition start : Filter :=
  {| whereClause := EmptyString; args := []; argIndex := 1 |}.

Definition keyword (argIndex : nat) : string :=
  if (argIndex =? 1)%nat then "WHERE " else "AND ".

(** [if (titleFilter) { ... }] *)
Definition addTitle (titleFilter : Js.Value) (f : Filter) : Filter :=
  if Js.truthy titleFilter then
    {| whereClause := (whereClause f ++ keyword (argIndex f))
                      ++ ("title ILIKE $" ++ Js.decimal_nat (argIndex f) ++ " ");
       args := args f ++ [Js.Str ("%" ++ Js.ToString titleFilter ++ "%")];
       argIndex := S (argIndex f) |}
  else f.

(** [if (minSalary) { ... }]: the argument pushed is the template string of
    the value. *)
Definition addMinSalary (minSalary : Js.Value) (f : Filter) : Filter :=
  if Js.truthy minSalary then
    {| whereClause := (whereClause f ++ keyword (argIndex f))
                      ++ ("salary >= $" ++ Js.decimal_nat (argIndex f) ++ " ");
       args := args f ++ [Js.Str (Js.ToString minSalary)];
       argIndex := S (argIndex f) |}
  else f.

(** [if (hasEquity) { ... }]: no argument, and [argIndex] stays. *)
Definition addEquity (hasEquity : Js.Value) (f : Filter) : Filter :=
  if Js.truthy hasEquity then
    {| whereClause := (whereClause f ++ keyword (argIndex f)) ++ "equity > 0 ";
       args := args f;
       argIndex := argIndex f |}
  else f.

Definition build (titleFilter minSalary hasEquity : Js.Value) : Filter :=
  addEquity hasEquity (addMinSalary minSalary (addTitle titleFilter start)).

Section WithEngine.
Context {E : Pg.Engine}.

Definition findAll (titleFilter minSalary hasEquity : Js.Value) : Pg.M (list Pg.JobRow) :=
  let titleFilter := Js.default_null titleFilter in
  let minSalary := Js.default_null minSalary in
  let hasEquity := Js.default_null hasEquity in
  let f := build titleFilter minSalary hasEquity in
  jobsRes <- Pg.select_jobs (whereClause f) (args f) ;;
  Pg.ret jobsRes.

(** The override mapping [update] passes to the compiler. *)
Definition jsToSql : list (string * string) := [("companyHandle", "company_handle")].

Definition update (id : Js.Value) (data : Js.Obj) : Pg.M Pg.JobRow :=
  let dataToChange := Js.delete data "companyHandle" in
  u <- Pg.lift (Sql.sqlForPartialUpdate dataToChange jsToSql) ;;
  let idx := ("$" ++ Js.decimal_nat (length (Sql.values u) + 1))%string in
  result <- Pg.update_jobs (Sql.setCols u) idx (Sql.values u ++ [id]) ;;
  match result with
  | [] => Pg.throw (NotFoundError ("No job: " ++ Js.ToString id))
  | job :: _ => Pg.ret job
  end.

End WithEngine.

End Job.

(** ** routes/companies.js and routes/jobs.js: GET / *)

Module Routes.

(** [req.query]: the parameters of the query string, each a string. *)
Definition Query : Type := list (string * string).

(** [req.query.k], [queries[k]] *)
Definition param (q : Query) (k : string) : Js.Value :=
  match Js.get q k with
  | Some s => Js.Str s
  | None => Js.Undefined
  end.

Inductive Response (A : Type) : Type :=
| Json (status : nat) (body : A)
| Failure (status : nat) (message : string).

Arguments Json {A} status body.
Arguments Failure {A} status message.

(** Modelled from the spec: the statuses of the error classes
    (expressError.js) and the error handler of the application (app.js), which
    are not among the sources: InvalidInput is 400, NotFound 404, anything
    unexpected 500. *)
Definition respond {A : Type} (r : Result A) : Response A :=
  match r with
  | Ok a => Json 200 a
  | Throw (BadRequestError m) => Failure 400 m
  | Throw (NotFoundError m) => Failure 404 m
  | Throw (DatabaseError m) => Failure 500 m
  end.

Definition handle {A : Type} (m : Pg.M A) : Pg.World -> Response A * Pg.World :=
  fun w => let (r, w') := m w in (respond r, w').

Section WithPlatform.
Context {R : Js.Runtime} {E : Pg.Engine}.

(** The loop of [checkCompanyGetQuery] over [Object.keys(queries)]; [Some e]
    stands for the object with that [error], [None] for null. *)
Fixpoint checkCompanyGetQuery_from (queries : Query) (keys : list string) : option string :=
  match keys with
  | [] => None
  | query :: keys' =>
      if negb (query =? "maxEmployees") && negb (query =? "minEmployees")
         && negb (query =? "name")
      then Some ("bad query: " ++ query)
      else if ((query =? "minEmployees") || (query =? "maxEmployees"))
              && Js.isNaN (param queries query)
      then Some (query ++ " (" ++ Js.ToString (param queries query) ++ ") must be a number")
      else checkCompanyGetQuery_from queries keys'
  end.

Definition checkCompanyGetQuery (queries : Query) : option string :=
  checkCompanyGetQuery_from queries (map fst queries).

Fixpoint checkJobGetQuery_from (queries : Query) (keys : list string) : option string :=
  match keys with
  | [] => None
  | query :: keys' =>
      if negb (query =? "titleFilter") && negb (query =? "minSalary")
         && negb (query =? "hasEquity")
      then Some ("bad query: " ++ query)
      else if (query =? "minSalary") && Js.isNaN (param queries query)
      then Some (query ++ " (" ++ Js.ToString (param queries query) ++ ") must be a number")
      else checkJobGetQuery_from queries keys'
  end.

Definition checkJobGetQuery (queries : Query) : option string :=
  checkJobGetQuery_from queries (map fst queries).

(** GET /companies *)
Definition getCompanies (query : Query) : Pg.M (list Pg.CompanyRow) :=
  match checkCompanyGetQuery query with
  | Some error => Pg.throw (BadRequestError error)
  | None =>
      Company.findAll (param query "name")
                      (Js.plus (param query "minEmployees"))
                      (Js.plus (param query "maxEmployees"))
  end.

(** GET /jobs *)
Definition getJobs (query : Query) : Pg.M (list Pg.JobRow) :=
  match checkJobGetQuery query with
  | Some error => Pg.throw (BadRequestError error)
  | None =>
      Job.findAll (param query "titleFilter")
                  (param query "minSalary")
                  (param query "hasEquity")
  end.

End WithPlatform.

End Routes.

(** ** A platform and a store to run the code on

    A number conversion, text operators and the rows the repository's tests
    load, for the examples below. *)

Module Fixture.

(** A rounding that holds every decimal as it is: that of the runtime on the
    short decimals the examples pass. *)
Definition runtime : Js.Runtime.
Proof.
  refine {| Js.nearest := Js.exact;
            Js.nearest_short := fun m x _ _ => eq_refl;
            Js.nearest_number := _ |}.
  assert (shrink_number : forall e m, Js.shrink e m <> Js.NaN).
  { induction e as [|e IH]; intros m; simpl; [discriminate|].
    destruct (m mod 10 =? 0)%Z; [apply IH | discriminate]. }
  intros m x. unfold Js.exact.
  destruct (m =? 0)%Z; [discriminate|].
  destruct (0 <=? x)%Z; [discriminate | apply shrink_number].
Defined.

Definition lower (c : ascii) : ascii :=
  let n := nat_of_ascii c in
  if (65 <=? n)%nat && (n <=? 90)%nat then ascii_of_nat (n + 32) else c.

(** A pattern with [%] for any run of characters and [_] for any one
    character, letters compared without case. *)
Fixpoint like (p : string) : string -> bool :=
  match p with
  | EmptyString => fun s => match s with EmptyString => true | _ => false end
  | String c p' =>
      if (c =? "%")%char then
        fix any (s : string) : bool :=
          like p' s || match s with EmptyString => false | String _ s' => any s' end
      else if (c =? "_")%char then
        fun s => match s with EmptyString => false | String _ s' => like p' s' end
      else
        fun s =>
          match s with
          | EmptyString => false
          | String d s' => (lower c =? lower d)%char && like p' s'
          end
  end.

(** A store that compares text by code units and reads numbers in their
    plain forms only. *)
Definition engine : Pg.Engine.
Proof.
  refine {| Pg.ilike := fun s p => like p s;
            Pg.collate_leb := String.leb;
            Pg.collate_total := String.leb_total;
            Pg.collate_trans := _;
            Pg.integer_beyond := fun _ => None;
            Pg.numeric_beyond := fun _ => None |}.
  assert (compare_not_gt_trans :
            forall a b c, String.compare a b <> Gt -> String.compare b c <> Gt ->
                          String.compare a c <> Gt).
  { induction a as [|x a IH]; intros [|y b] [|z c]; simpl; try congruence.
    unfold Ascii.compare.
    destruct (N.compare_spec (N_of_ascii x) (N_of_ascii y)) as [Hxy|Hxy|Hxy];
      destruct (N.compare_spec (N_of_ascii y) (N_of_ascii z)) as [Hyz|Hyz|Hyz];
      try congruence; intros Hab Hbc.
    - rewrite Hxy, Hyz, N.compare_refl. now apply (IH b c).
    - rewrite Hxy. apply N.compare_lt_iff in Hyz. now rewrite Hyz.
    - rewrite <- Hyz. apply N.compare_lt_iff in Hxy. now rewrite Hxy.
    - assert (H : (N_of_ascii x < N_of_ascii z)%N) by (eapply N.lt_trans; eauto).
      apply N.compare_lt_iff in H. now rewrite H. }
  intros a b c. unfold String.leb. intros Hab Hbc.
  destruct (String.compare a b) eqn:Eab; try discriminate;
    destruct (String.compare b c) eqn:Ebc; try discriminate;
    destruct (String.compare a c) eqn:Eac; try reflexivity;
    exfalso; apply (compare_not_gt_trans a b c); congruence.
Defined.

Definition hundredths (n : Z) : Pg.Numeric := {| Pg.unscaled := n; Pg.scale := 2 |}.

Definition c1 : Pg.CompanyRow :=
  {| Pg.handle := "c1"; Pg.name := "C1"; Pg.description := "Desc1";
     Pg.num_employees := Some 1%Z; Pg.logo_url := Some "http://c1.img" |}.
Definition c2 : Pg.CompanyRow :=
  {| Pg.handle := "c2"; Pg.name := "C2"; Pg.description := "Desc2";
     Pg.num_employees := Some 2%Z; Pg.logo_url := Some "http://c2.img" |}.
Definition c3 : Pg.CompanyRow :=
  {| Pg.handle := "c3"; Pg.name := "C3"; Pg.description := "Desc3";
     Pg.num_employees := Some 3%Z; Pg.logo_url := Some "http://c3.img" |}.

Definition j1 : Pg.JobRow :=
  {| Pg.id := 1; Pg.title := "title-1"; Pg.salary := Some 50000%Z;
     Pg.equity := Some (hundredths 0); Pg.company_handle := "c1" |}.
Definition j2 : Pg.JobRow :=
  {| Pg.id := 2; Pg.title := "title-2"; Pg.salary := Some 60000%Z;
     Pg.equity := Some (hundredths 1); Pg.company_handle := "c1" |}.
Definition j3 : Pg.JobRow :=
  {| Pg.id := 3; Pg.title := "title-3"; Pg.salary := Some 70000%Z;
     Pg.equity := Some (hundredths 2); Pg.company_handle := "c2" |}.

Definition testDb : Pg.Db :=
  {| Pg.companies := [c1; c2; c3]; Pg.jobs := [j1; j2; j3] |}.

Definition world : Pg.World := {| Pg.store := testDb; Pg.issued := [] |}.

(** A company whose number of employees is not recorded. *)
Definition c4 : Pg.CompanyRow :=
  {| Pg.handle := "c4"; Pg.name := "C4"; Pg.description := "Desc4";
     Pg.num_employees := None; Pg.logo_url := None |}.

Definition world4 : Pg.World :=
  {| Pg.store := {| Pg.companies := [c1; c2; c3; c4]; Pg.jobs := [j1; j2; j3] |};
     Pg.issued := [] |}.

Definition num (z : Z) : Js.Value := Js.Number (Js.Int z).

End Fixture.

(** ** The rules in the specification's words

    Definitions written from the wording of the specification, to compare the
    code with. *)

Module Stated.

(** The column of a field in the partial update compiler: its override when
    the mapping has one, the field name otherwise. *)
Definition override_or_name (jsToSql : list (string * string)) (k : string) : string :=
  match Js.get jsToSql k with
  | Some c => c
  | None => k
  end.

(** An active filter: the text of its condition, given the number of the next
    placeholder, and the argument it adds, if it takes one. *)
Record Active : Type := {
  condition : nat -> string;
  argument : option Js.Value
}.

(** The clause assembly rule: the first active filter is introduced by
    WHERE, each later one by AND; the filters come in their declared order
    and their placeholders are numbered consecutively, in the order of the
    argument list. *)
Fixpoint assemble (first : bool) (next : nat) (fs : list Active) : string * list Js.Value :=
  match fs with
  | [] => (EmptyString, [])
  | f :: fs' =>
      let next' := match argument f with Some _ => S next | None => next end in
      let (clause, arguments) := assemble false next' fs' in
      ((if first then "WHERE " else "AND ") ++ condition f next ++ clause,
       match argument f with Some v => v :: arguments | None => arguments end)
  end.

Definition active (v : Js.Value) (f : Active) : list Active :=
  if Js.truthy v then [f] else [].

(** The filters of companies, in declared order: name, min, max. *)
Definition company_filters (nameFilter minEmployees maxEmployees : Js.Value) : list Active :=
  List.concat
    [ active nameFilter
        {| condition := fun n => "name ILIKE $" ++ Js.decimal_nat n ++ " ";
           argument := Some (Js.Str ("%" ++ Js.ToString nameFilter ++ "%")) |};
      active minEmployees
        {| condition := fun n => "num_employees >= $" ++ Js.decimal_nat n ++ " ";
           argument := Some minEmployees |};
      active maxEmployees
        {| condition := fun n => "num_employees <= $" ++ Js.decimal_nat n ++ " ";
           argument := Some maxEmployees |} ].

(** The filters of jobs, in declared order: title, min, equity. *)
Definition job_filters (titleFilter minSalary hasEquity : Js.Value) : list Active :=
  List.concat
    [ active titleFilter
        {| condition := fun n => "title ILIKE $" ++ Js.decimal_nat n ++ " ";
           argument := Some (Js.Str ("%" ++ Js.ToString titleFilter ++ "%")) |};
      active minSalary
        {| condition := fun n => "salary >= $" ++ Js.decimal_nat n ++ " ";
           argument := Some (Js.Str (Js.ToString minSalary)) |};
      active hasEquity
        {| condition := fun _ => "equity > 0 ";
           argument := None |} ].

(** A company with at least [n] employees. *)
Definition at_least (n : Z) (c : Pg.CompanyRow) : bool :=
  match Pg.num_employees c with
  | Some k => (n <=? k)%Z
  | None => false
  end.

(** A job with equity above zero. *)
Definition has_equity (j : Pg.JobRow) : bool :=
  match Pg.equity j with
  | Some q => (0 <? Pg.unscaled q)%Z
  | None => false
  end.

(** A field name with no double quote in it. *)
Definition quote_free (k : string) : bool :=
  forallb (fun c => negb (Pg.is_dquote c)) (list_ascii_of_string k).

(** A payload for Job.update whose fields, companyHandle apart, are written
    without a double quote, do not name the company_handle column itself,
    and are not names every object inherits. *)
Definition job_fields (data : Js.Obj) : Prop :=
  forall k, In k (Js.keys data) -> k <> "companyHandle" ->
            quote_free k = true /\ k <> "company_handle" /\ Js.inherited k = None.

End Stated.

(** ** Notions the statements below use *)

(** Jobs in ascending id order. *)
Definition id_le (a b : Pg.JobRow) : Prop := (Pg.id a <= Pg.id b)%Z.

(** The job summaries Company.get attaches: the jobs of the company, in id
    order. *)
Definition jobs_of (h : string) (d : Pg.Db) : list Pg.JobSummary :=
  map Pg.summary
      (Pg.order_by Pg.by_id (filter (fun j => Pg.company_handle j =? h) (Pg.jobs d))).

Section QueryParameters.
Context {R : Js.Runtime}.

(** The filter sets of the two list endpoints. *)
Definition company_param_known (k : string) : Prop :=
  k = "name" \/ k = "minEmployees" \/ k = "maxEmployees".

Definition job_param_known (k : string) : Prop :=
  k = "titleFilter" \/ k = "minSalary" \/ k = "hasEquity".

(** A parameter the companies check refuses: an unknown name, or a minimum
    or maximum whose value is not a number. *)
Definition company_param_refused (queries : Routes.Query) (k : string) : Prop :=
  ~ company_param_known k
  \/ ((k = "minEmployees" \/ k = "maxEmployees")
      /\ Js.isNaN (Routes.param queries k) = true).

(** A parameter the jobs check refuses: an unknown name, or a minimum salary
    whose value is not a number. *)
Definition job_param_refused (queries : Routes.Query) (k : string) : Prop :=
  ~ job_param_known k
  \/ (k = "minSalary" /\ Js.isNaN (Routes.param queries k) = true).

End QueryParameters.

(** Text that does not go on with a digit, or with a double quote. *)
Definition no_leading_digit (s : string) : Prop :=
  match s with
  | EmptyString => True
  | String c _ => Pg.digit c = None
  end.

Definition no_leading_quote (s : string) : Prop :=
  match s with
  | EmptyString => True
  | String c _ => Pg.is_dquote c = false
  end.

(** What may follow an assignment: the end of the list, or a comma. *)
Definition list_goes_on (s : string) : Prop :=
  s = EmptyString \/ exists s', s = String "," s'.

(** The fragments of fields that are their own columns, numbered from
    [idx] + 1. *)
Definition fragments_from (idx : nat) (ks : list string) : list string :=
  Js.mapi_from (fun k i => Sql.fragment k i) idx ks.

(** The condition [equity > 0]. *)
Definition equity_cond : Pg.Cond :=
  {| Pg.ccol := "equity"; Pg.cop := Pg.OpGt; Pg.crhs := Pg.Lit 0 |}.

(** A payload of the tests, with a different company handle. *)
Definition newTitle : Js.Obj :=
  [("title", Js.Str "new-title"); ("salary", Fixture.num 123456);
   ("equity", Js.Str "0.04"); ("companyHandle", Js.Str "c3")].

(** A job with another title. *)
Definition retitled (s : string) (r : Pg.JobRow) : Pg.JobRow :=
  {| Pg.id := Pg.id r; Pg.title := s; Pg.salary := Pg.salary r;
     Pg.equity := Pg.equity r; Pg.company_handle := Pg.company_handle r |}.

(** ** Tactics *)

Ltac by_truthiness v :=
  let H := fresh "T" in destruct (Js.truthy v) eqn:H.

Ltac column_cases c :=
  destruct (String.eqb_spec c "id") as [->|?];
  [|destruct (String.eqb_spec c "title") as [->|?];
    [|destruct (String.eqb_spec c "salary") as [->|?];
      [|destruct (String.eqb_spec c "equity") as [->|?];
        [|destruct (String.eqb_spec c "company_handle") as [->|?]]]]].


(** ** middleware/auth.js *)

Module Auth.

(** The payload of a token of the application: the username and the isAdmin
    flag ([res.locals.user] once verified). *)
Record User : Type := {
  username : string;
  isAdmin : Js.Value
}.

(** [res.locals.user]: absent until a token has been verified. *)
Definition Locals : Type := option User.

(** How a middleware hands over: [next()], or [next(err)] with an
    UnauthorizedError. *)
Inductive Next : Type :=
| Continue
| Unauthorized.

(** White space, as [trim] sees it, among the characters a header holds (code
    units below 256): tab, line feed, vertical tab, form feed, carriage
    return, space and the no-break space. *)
Definition white (c : ascii) : bool :=
  let n := nat_of_ascii c in
  (n =? 9)%nat || (n =? 10)%nat || (n =? 11)%nat || (n =? 12)%nat
  || (n =? 13)%nat || (n =? 32)%nat || (n =? 160)%nat.

Fixpoint trimStart (s : string) : string :=
  match s with
  | String c s' => if white c then trimStart s' else s
  | EmptyString => EmptyString
  end.

Fixpoint trimEnd (s : string) : string :=
  match s with
  | EmptyString => EmptyString
  | String c s' =>
      match trimEnd s' with
      | EmptyString => if white c then EmptyString else String c EmptyString
      | t => String c t
      end
  end.

Definition trim (s : string) : string := trimEnd (trimStart s).

(** [authHeader.replace(/^[Bb]earer /, "")]: the word at the very start,
    with either case of its first letter and one space after it, is dropped. *)
Definition stripBearer (authHeader : string) : string :=
  match authHeader with
  | String b (String "e" (String "a" (String "r" (String "e" (String "r"
      (String " " rest)))))) =>
      if (b =? "B")%char || (b =? "b")%char then rest else authHeader
  | _ => authHeader
  end.

(** The token handed to the verification. *)
Definition token (authHeader : string) : string := trim (stripBearer authHeader).

Section Verification.

(** [jwt.verify(token, SECRET_KEY)]: the payload, or nothing when it throws. *)
Variable verify : string -> option User.

(** [authorization] is [req.headers.authorization], absent or a string.  The
    result is [res.locals.user] afterwards and the way [next] is called. *)
Definition authenticateJWT (authorization : option string) (user : Locals)
  : Locals * Next :=
  match authorization with
  | Some authHeader =>
      if Js.truthy (Js.Str authHeader) then
        match verify (token authHeader) with
        | Some payload => (Some payload, Continue)
        | None => (user, Continue)
        end
      else (user, Continue)
  | None => (user, Continue)
  end.

End Verification.

Definition ensureLoggedIn (user : Locals) : Next :=
  match user with
  | None => Unauthorized
  | Some _ => Continue
  end.

Definition ensureLoggedInAsAdmin (user : Locals) : Next :=
  match user with
  | None => Unauthorized
  | Some u => if negb (Js.truthy (isAdmin u)) then Unauthorized else Continue
  end.

(** [paramsUsername] is [req.params.username]. *)
Definition ensureUserRights (paramsUsername : string) (user : Locals) : Next :=
  match user with
  | None => Unauthorized
  | Some u =>
      if negb (Js.truthy (isAdmin u)) && negb (username u =? paramsUsername)
      then Unauthorized
      else Continue
  end.

End Auth.

(** ** The other statements of the access layer

    INSERT, DELETE and the UPDATE of companies, run on the same store.  The
    record [Pg.issued] is kept for the statements of the compilers above; the
    statements here are run without being added to it. *)

Module Store.

Definition perform {A : Type} (run : Pg.Db -> Result (A * Pg.Db)) : Pg.M A :=
  fun w =>
    match run (Pg.store w) with
    | Ok (a, d) => (Ok a, {| Pg.store := d; Pg.issued := Pg.issued w |})
    | Throw e => (Throw e, w)
    end.

Definition and_then {A B : Type} (r : Result A) (k : A -> Result B) : Result B :=
  match r with
  | Ok a => k a
  | Throw e => Throw e
  end.

Definition required_text (col : string) (v : Pg.SqlValue) : Result string :=
  match v with
  | Pg.SText s => Ok s
  | Pg.SNull => Throw (Pg.not_null_violation col)
  | _ => Throw (Pg.wrong_type col)
  end.

Definition optional_text (col : string) (v : Pg.SqlValue) : Result (option string) :=
  match v with
  | Pg.SText s => Ok (Some s)
  | Pg.SNull => Ok None
  | _ => Throw (Pg.wrong_type col)
  end.

Definition optional_int (col : string) (v : Pg.SqlValue) : Result (option Z) :=
  match v with
  | Pg.SInt z => Ok (Some z)
  | Pg.SNull => Ok None
  | _ => Throw (Pg.wrong_type col)
  end.

Definition duplicate_key : Error :=
  DatabaseError "duplicate key value violates unique constraint".

Definition has_handle (h : string) (c : Pg.CompanyRow) : bool := Pg.handle c =? h.

Section WithEngine.
Context {E : Pg.Engine}.

(** INSERT INTO companies (handle, name, description, num_employees, logo_url)
    VALUES ($1, $2, $3, $4, $5) RETURNING ...

    Modelled from the spec: the companies table of the schema (the schema
    file is not among the sources).  handle is the key; handle, name and
    description are not nullable.  The new row goes after the others. *)
Definition exec_insert_company (args : list Js.Value) (d : Pg.Db)
  : Result (list Pg.CompanyRow * Pg.Db) :=
  match args with
  | [handle; name; description; numEmployees; logoUrl] =>
      and_then (Pg.param_in Pg.TText handle) (fun h =>
      and_then (Pg.param_in Pg.TText name) (fun n =>
      and_then (Pg.param_in Pg.TText description) (fun ds =>
      and_then (Pg.param_in Pg.TInt numEmployees) (fun ne =>
      and_then (Pg.param_in Pg.TText logoUrl) (fun lu =>
      and_then (required_text "handle" h) (fun h' =>
      and_then (required_text "name" n) (fun n' =>
      and_then (required_text "description" ds) (fun ds' =>
      and_then (optional_int "num_employees" ne) (fun ne' =>
      and_then (optional_text "logo_url" lu) (fun lu' =>
        if existsb (has_handle h') (Pg.companies d) then Throw duplicate_key
        else
          let row := {| Pg.handle := h'; Pg.name := n'; Pg.description := ds';
                        Pg.num_employees := ne'; Pg.logo_url := lu' |} in
          Ok ([row], {| Pg.companies := (Pg.companies d ++ [row])%list;
                        Pg.jobs := Pg.jobs d |})))))))))))
  | _ => Throw Pg.parameter_mismatch
  end.

Definition handle_matches (key : Pg.SqlValue) (c : Pg.CompanyRow) : bool :=
  match key with
  | Pg.SText h => Pg.handle c =? h
  | _ => false
  end.

Definition of_company (key : Pg.SqlValue) (j : Pg.JobRow) : bool :=
  match key with
  | Pg.SText h => Pg.company_handle j =? h
  | _ => false
  end.

(** DELETE FROM companies WHERE handle = $1 RETURNING handle

    Modelled from the spec: deleting a company cascades to its jobs. *)
Definition exec_delete_company (args : list Js.Value) (d : Pg.Db)
  : Result (list string * Pg.Db) :=
  match args with
  | [handle] =>
      and_then (Pg.param_in Pg.TText handle) (fun key =>
        let deleted := filter (handle_matches key) (Pg.companies d) in
        Ok (map Pg.handle deleted,
            {| Pg.companies := filter (fun c => negb (handle_matches key c)) (Pg.companies d);
               Pg.jobs := match deleted with
                          | [] => Pg.jobs d
                          | _ :: _ => filter (fun j => negb (of_company key j)) (Pg.jobs d)
                          end |}))
  | _ => Throw Pg.parameter_mismatch
  end.

(** DELETE FROM jobs WHERE id = $1 RETURNING id *)
Definition exec_delete_job (args : list Js.Value) (d : Pg.Db) : Result (list Z * Pg.Db) :=
  match args with
  | [id] =>
      and_then (Pg.param_in Pg.TInt id) (fun key =>
        Ok (map Pg.id (filter (Pg.id_matches key) (Pg.jobs d)),
            {| Pg.companies := Pg.companies d;
               Pg.jobs := filter (fun j => negb (Pg.id_matches key j)) (Pg.jobs d) |}))
  | _ => Throw Pg.parameter_mismatch
  end.

(** The id the store gives a new job: the next value of the sequence behind
    the id column, which the store keeps. *)
Class Sequence : Type := { nextval : Pg.Db -> Z }.

Definition sequence_exhausted : Error :=
  DatabaseError "nextval: reached maximum value of sequence".

(** INSERT INTO jobs (title, salary, equity, company_handle)
    VALUES ($1, $2, $3, $4) RETURNING ...

    The columns are set under the constraints [Pg.assign] gives the jobs
    table; the id is the key, an integer of the column's 32 bits. *)
Definition exec_insert_job {S : Sequence} (args : list Js.Value) (d : Pg.Db)
  : Result (list Pg.JobRow * Pg.Db) :=
  match args with
  | [title; salary; equity; companyHandle] =>
      and_then (Pg.param_in Pg.TText title) (fun t =>
      and_then (Pg.param_in Pg.TInt salary) (fun s =>
      and_then (Pg.param_in Pg.TNumeric equity) (fun e =>
      and_then (Pg.param_in Pg.TText companyHandle) (fun ch =>
        if negb (Pg.in_int4 (nextval d)) then Throw sequence_exhausted
        else
        let fresh := {| Pg.id := nextval d; Pg.title := EmptyString; Pg.salary := None;
                        Pg.equity := None; Pg.company_handle := EmptyString |} in
        and_then
          (Pg.assign_all d
             [("title", t); ("salary", s); ("equity", e); ("company_handle", ch)] fresh)
          (fun row =>
             if existsb (fun j => (Pg.id j =? Pg.id row)%Z) (Pg.jobs d) then Throw duplicate_key
             else Ok ([row], {| Pg.companies := Pg.companies d;
                                Pg.jobs := (Pg.jobs d ++ [row])%list |}))))))
  | _ => Throw Pg.parameter_mismatch
  end.

(** *** UPDATE companies *)

(** Modelled from the spec: the companies table, as for the INSERT. *)
Definition assign (col : string) (v : Pg.SqlValue) (r : Pg.CompanyRow)
  : Result Pg.CompanyRow :=
  if col =? "handle" then
    and_then (required_text col v) (fun s =>
      Ok {| Pg.handle := s; Pg.name := Pg.name r; Pg.description := Pg.description r;
            Pg.num_employees := Pg.num_employees r; Pg.logo_url := Pg.logo_url r |})
  else if col =? "name" then
    and_then (required_text col v) (fun s =>
      Ok {| Pg.handle := Pg.handle r; Pg.name := s; Pg.description := Pg.description r;
            Pg.num_employees := Pg.num_employees r; Pg.logo_url := Pg.logo_url r |})
  else if col =? "description" then
    and_then (required_text col v) (fun s =>
      Ok {| Pg.handle := Pg.handle r; Pg.name := Pg.name r; Pg.description := s;
            Pg.num_employees := Pg.num_employees r; Pg.logo_url := Pg.logo_url r |})
  else if col =? "num_employees" then
    and_then (optional_int col v) (fun n =>
      Ok {| Pg.handle := Pg.handle r; Pg.name := Pg.name r;
            Pg.description := Pg.description r;
            Pg.num_employees := n; Pg.logo_url := Pg.logo_url r |})
  else if col =? "logo_url" then
    and_then (optional_text col v) (fun s =>
      Ok {| Pg.handle := Pg.handle r; Pg.name := Pg.name r;
            Pg.description := Pg.description r;
            Pg.num_employees := Pg.num_employees r; Pg.logo_url := s |})
  else Throw (DatabaseError ("column " ++ col ++ " does not exist")).

Fixpoint assign_all (vals : list (string * Pg.SqlValue)) (r : Pg.CompanyRow)
  : Result Pg.CompanyRow :=
  match vals with
  | [] => Ok r
  | (col, v) :: vals' => and_then (assign col v r) (assign_all vals')
  end.

Fixpoint bind_assignments (args : list Js.Value) (assigns : list (string * nat))
  : Result (list (string * Pg.SqlValue)) :=
  match assigns with
  | [] => Ok []
  | (col, n) :: assigns' =>
      match Pg.companies_table col with
      | None => Throw (DatabaseError ("column " ++ col ++ " does not exist"))
      | Some (ty, _) =>
          and_then (Pg.operand_value ty args (Pg.Param n)) (fun v =>
          and_then (bind_assignments args assigns') (fun vals =>
            Ok ((col, v) :: vals)))
      end
  end.

Fixpoint update_rows (vals : list (string * Pg.SqlValue)) (key : Pg.SqlValue)
    (rows : list Pg.CompanyRow) : Result (list Pg.CompanyRow * list Pg.CompanyRow) :=
  match rows with
  | [] => Ok ([], [])
  | r :: rows' =>
      and_then (update_rows vals key rows') (fun tr =>
        if handle_matches key r then
          and_then (assign_all vals r) (fun r' => Ok (r' :: fst tr, r' :: snd tr))
        else Ok (r :: fst tr, snd tr))
  end.

Definition handle_unique (table : list Pg.CompanyRow) (r : Pg.CompanyRow) : bool :=
  (length (filter (has_handle (Pg.handle r)) table) =? 1)%nat.

(** A job that named a company still names one. *)
Definition still_referenced (before after : list Pg.CompanyRow) (j : Pg.JobRow) : bool :=
  negb (existsb (has_handle (Pg.company_handle j)) before)
  || existsb (has_handle (Pg.company_handle j)) after.

(** UPDATE companies SET [setCols] WHERE handle = [handleVarIdx] RETURNING ... *)
Definition exec_update_companies (setCols handleVarIdx : string) (args : list Js.Value)
    (d : Pg.Db) : Result (list Pg.CompanyRow * Pg.Db) :=
  match Pg.parse_set_list setCols, Pg.parse_placeholder handleVarIdx with
  | Some assigns, Some k =>
      if negb (Pg.placeholders_ok (map snd assigns ++ [k]) (length args)) then
        Throw Pg.parameter_mismatch
      else if negb (Pg.nodupb (map fst assigns)) then
        Throw (DatabaseError "multiple assignments to same column")
      else
        and_then (bind_assignments args assigns) (fun vals =>
        and_then (Pg.operand_value Pg.TText args (Pg.Param k)) (fun key =>
        and_then (update_rows vals key (Pg.companies d)) (fun tr =>
          if existsb (String.eqb "handle") (map fst assigns)
             && negb (forallb (handle_unique (fst tr)) (snd tr)
                      && forallb (still_referenced (Pg.companies d) (fst tr)) (Pg.jobs d))
          then Throw (DatabaseError "the new handle violates a key constraint")
          else Ok (snd tr, {| Pg.companies := fst tr; Pg.jobs := Pg.jobs d |}))))
  | _, _ => Throw Pg.syntax_error
  end.

End WithEngine.

End Store.

(** ** models/company.js, the other functions *)

Module Companies.

(** [o.k], [const { k } = o]: the own property, or undefined. *)
Fixpoint prop (o : Js.Obj) (k : string) : Js.Value :=
  match o with
  | [] => Js.Undefined
  | (k', v) :: o' => if k' =? k then v else prop o' k
  end.

(** [rows[0]], which is undefined on no rows. *)
Definition first {A : Type} (rows : list A) : option A := hd_error rows.

Section WithEngine.
Context {E : Pg.Engine}.

Definition create (data : Js.Obj) : Pg.M (option Pg.CompanyRow) :=
  let handle := prop data "handle" in
  let name := prop data "name" in
  let description := prop data "description" in
  let numEmployees := prop data "numEmployees" in
  let logoUrl := prop data "logoUrl" in
  duplicateCheck <-
    Store.perform (fun d =>
      Pg.reading (Pg.select_eq Pg.companies_table (Pg.companies d) "handle" [handle]) d) ;;
  match duplicateCheck with
  | _ :: _ => Pg.throw (BadRequestError ("Duplicate company: " ++ Js.ToString handle))
  | [] =>
      result <- Store.perform
                  (Store.exec_insert_company [handle; name; description; numEmployees; logoUrl]) ;;
      let company := first result in
      Pg.ret company
  end.

(** The override mapping [update] passes to the compiler. *)
Definition jsToSql : list (string * string) :=
  [("numEmployees", "num_employees"); ("logoUrl", "logo_url")].

Definition update (handle : Js.Value) (data : Js.Obj) : Pg.M Pg.CompanyRow :=
  u <- Pg.lift (Sql.sqlForPartialUpdate data jsToSql) ;;
  let handleVarIdx := ("$" ++ Js.decimal_nat (length (Sql.values u) + 1))%string in
  result <- Store.perform
              (Store.exec_update_companies (Sql.setCols u) handleVarIdx
                 (Sql.values u ++ [handle])) ;;
  match result with
  | [] => Pg.throw (NotFoundError ("No company: " ++ Js.ToString handle))
  | company :: _ => Pg.ret company
  end.

Definition remove (handle : Js.Value) : Pg.M unit :=
  result <- Store.perform (Store.exec_delete_company [handle]) ;;
  match result with
  | [] => Pg.throw (NotFoundError ("No company: " ++ Js.ToString handle))
  | _ :: _ => Pg.ret tt
  end.

End WithEngine.

End Companies.

(** ** models/job.js, the other functions *)

Module Jobs.

Section WithEngine.
Context {E : Pg.Engine}.

Section WithSequence.
Context {S : Store.Sequence}.

Definition create (data : Js.Obj) : Pg.M (option Pg.JobRow) :=
  let title := Companies.prop data "title" in
  let salary := Companies.prop data "salary" in
  let equity := Companies.prop data "equity" in
  let companyHandle := Companies.prop data "companyHandle" in
  result <- Store.perform (Store.exec_insert_job [title; salary; equity; companyHandle]) ;;
  let job := Companies.first result in
  Pg.ret job.

End WithSequence.

Definition get (id : Js.Value) : Pg.M Pg.JobRow :=
  jobRes <- Store.perform (fun d =>
              Pg.reading (Pg.select_eq Pg.jobs_table (Pg.jobs d) "id" [id]) d) ;;
  match jobRes with
  | [] => Pg.throw (NotFoundError ("No job: " ++ Js.ToString id))
  | job :: _ => Pg.ret job
  end.

(** What [remove] returns: the object holding the deleted row, whose one
    column is the id. *)
Record Removed : Type := { removed : Z }.

Definition remove (id : Js.Value) : Pg.M Removed :=
  result <- Store.perform (Store.exec_delete_job [id]) ;;
  match result with
  | job :: _ => Pg.ret {| removed := job |}
  | [] => Pg.throw (NotFoundError ("No job: " ++ Js.ToString id))
  end.

End WithEngine.

End Jobs.

(** ** routes/companies.js and routes/jobs.js: DELETE *)

Module Api.

(** A route behind a gate.  When the gate calls [next()] the handler runs;
    when it calls [next(err)] with its UnauthorizedError the handler is
    skipped and the error handler answers.

    Modelled from the spec: UnauthorizedError (expressError.js, not among
    the sources) is 401 with the message "Unauthorized". *)
Definition guarded {A : Type} (gate : Auth.Next)
    (handler : Pg.World -> Routes.Response A * Pg.World)
  : Pg.World -> Routes.Response A * Pg.World :=
  match gate with
  | Auth.Continue => handler
  | Auth.Unauthorized => fun w => (Routes.Failure 401 "Unauthorized", w)
  end.

Section WithEngine.
Context {E : Pg.Engine}.

(** DELETE /companies/:handle, which answers { deleted: handle };
    [req.params.handle] is a string. *)
Definition deleteCompany (user : Auth.Locals) (handle : string)
  : Pg.World -> Routes.Response string * Pg.World :=
  guarded (Auth.ensureLoggedInAsAdmin user)
          (Routes.handle (_ <- Companies.remove (Js.Str handle) ;; Pg.ret handle)).

(** DELETE /jobs/:id, which answers { deleted: id }. *)
Definition deleteJob (user : Auth.Locals) (id : string)
  : Pg.World -> Routes.Response string * Pg.World :=
  guarded (Auth.ensureLoggedInAsAdmin user)
          (Routes.handle (_ <- Jobs.remove (Js.Str id) ;; Pg.ret id)).

End WithEngine.

End Api.

(** ** Further notions, for the properties beyond the claims *)

(** A company with at most [n] employees, and one with between [a] and [b]. *)
Definition at_most (n : Z) (c : Pg.CompanyRow) : bool :=
  match Pg.num_employees c with
  | Some k => (k <=? n)%Z
  | None => false
  end.

Definition within (a b : Z) (c : Pg.CompanyRow) : bool :=
  Stated.at_least a c && at_most b c.

(** A job that pays at least [n]. *)
Definition pays_at_least (n : Z) (j : Pg.JobRow) : bool :=
  match Pg.salary j with
  | Some k => (n <=? k)%Z
  | None => false
  end.

(** Text with no white space at either end, and text that is nothing but
    white space. *)
Fixpoint last_char (s : string) : option ascii :=
  match s with
  | EmptyString => None
  | String c EmptyString => Some c
  | String _ s' => last_char s'
  end.

Definition trimmed (t : string) : Prop :=
  match t with
  | EmptyString => True
  | String c _ => Auth.white c = false
  end
  /\ match last_char t with
     | None => True
     | Some c => Auth.white c = false
     end.

Fixpoint blank (s : string) : Prop :=
  match s with
  | EmptyString => True
  | String c s' => Auth.white c = true /\ blank s'
  end.

(** A field of a payload that may be left out. *)
Definition field {A : Type} (inj : A -> Js.Value) (o : option A) : Js.Value :=
  match o with
  | Some a => inj a
  | None => Js.Undefined
  end.

Definition whole (z : Z) : Js.Value := Js.Number (Js.Int z).

(** A store with one more company, and the stores a deletion leaves. *)
Definition with_company (c : Pg.CompanyRow) (d : Pg.Db) : Pg.Db :=
  {| Pg.companies := (Pg.companies d ++ [c])%list; Pg.jobs := Pg.jobs d |}.

Definition with_job (j : Pg.JobRow) (d : Pg.Db) : Pg.Db :=
  {| Pg.companies := Pg.companies d; Pg.jobs := (Pg.jobs d ++ [j])%list |}.

Definition without_company (h : string) (d : Pg.Db) : Pg.Db :=
  {| Pg.companies := filter (fun c => negb (Pg.handle c =? h)) (Pg.companies d);
     Pg.jobs := filter (fun j => negb (Pg.company_handle j =? h)) (Pg.jobs d) |}.

Definition without_job (z : Z) (d : Pg.Db) : Pg.Db :=
  {| Pg.companies := Pg.companies d;
     Pg.jobs := filter (fun j => negb (Pg.id j =? z)%Z) (Pg.jobs d) |}.

Definition on_store (f : Pg.Db -> Pg.Db) (w : Pg.World) : Pg.World :=
  {| Pg.store := f (Pg.store w); Pg.issued := Pg.issued w |}.

(** A sequence for the job ids, for the examples: one more than the largest
    id stored, and at least 1. *)
Definition largest_id (d : Pg.Db) : Z := fold_right Z.max 0%Z (map Pg.id (Pg.jobs d)).

#[local] Instance serial : Store.Sequence := {| Store.nextval := fun d => (largest_id d + 1)%Z |}.

(** A payload with each field under the name of its column. *)
Definition by_column (jsToSql : list (string * string)) (data : Js.Obj) : Js.Obj :=
  map (fun kv => (Sql.column jsToSql (fst kv), snd kv)) data.

(** ** Further tactics *)

Ltac step_through H :=
  repeat match type of H with
         | match ?x with _ => _ end = _ => destruct x eqn:?; try discriminate H
         | (if ?b then _ else _) = _ => destruct b eqn:?; try discriminate H
         end.

Ltac company_column_cases c :=
  destruct (String.eqb_spec c "handle") as [->|?];
  [|destruct (String.eqb_spec c "name") as [->|?];
    [|destruct (String.eqb_spec c "description") as [->|?];
      [|destruct (String.eqb_spec c "num_employees") as [->|?];
        [|destruct (String.eqb_spec c "logo_url") as [->|?]]]]].

(** Companies in name order, by the collation of the store. *)
Definition name_le {E : Pg.Engine} (a b : Pg.CompanyRow) : Prop :=
  Pg.collate_leb (Pg.name a) (Pg.name b) = true.

(** A whole number the integer columns hold. *)
Definition fits_int4 (z : Z) : Prop := (-2147483648 <= z <= 2147483647)%Z.

(** * Properties *)

(** ** Strings and lists *)

Lemma append_assoc (a b c : string) : (a ++ b) ++ c = a ++ (b ++ c).
Proof.
  induction a as [|x a IH]; simpl; [reflexivity|].
  now rewrite IH.
Qed.

Lemma append_length (a b : string) :
  String.length (a ++ b) = (String.length a + String.length b)%nat.
Proof.
  induction a as [|x a IH]; simpl; [reflexivity|].
  now rewrite IH.
Qed.

Lemma mapi_from_length {A B : Type} (f : A -> nat -> B) (l : list A) :
  forall idx, length (Js.mapi_from f idx l) = length l.
Proof.
  induction l as [|x l IH]; intros idx; simpl; [reflexivity|].
  now rewrite IH.
Qed.

Lemma mapi_from_nth_error {A B : Type} (f : A -> nat -> B) (l : list A) :
  forall idx i x,
    nth_error l i = Some x ->
    nth_error (Js.mapi_from f idx l) i = Some (f x (idx + i)%nat).
Proof.
  induction l as [|y l IH]; intros idx i x H.
  - destruct i; discriminate.
  - destruct i as [|i]; simpl in *.
    + injection H as ->. now rewrite Nat.add_0_r.
    + rewrite (IH (S idx) i x H). f_equal. f_equal. lia.
Qed.

(** ** ORDER BY *)

Lemma insert_perm {A : Type} (leb : A -> A -> bool) (x : A) (l : list A) :
  Permutation (Pg.insert leb x l) (x :: l).
Proof.
  induction l as [|y l IH]; simpl; [apply Permutation_refl|].
  destruct (leb x y); [apply Permutation_refl|].
  eapply perm_trans; [apply perm_skip, IH | apply perm_swap].
Qed.

Lemma order_by_perm {A : Type} (leb : A -> A -> bool) (l : list A) :
  Permutation (Pg.order_by leb l) l.
Proof.
  induction l as [|x l IH]; simpl; [apply perm_nil|].
  eapply perm_trans; [apply insert_perm | apply perm_skip, IH].
Qed.

Lemma insert_by_id_sorted (x : Pg.JobRow) (l : list Pg.JobRow) :
  StronglySorted id_le l -> StronglySorted id_le (Pg.insert Pg.by_id x l).
Proof.
  induction 1 as [|y l Hl IH Hy]; simpl.
  - constructor; constructor.
  - unfold Pg.by_id at 1. destruct (Z.leb_spec (Pg.id x) (Pg.id y)) as [Hxy|Hxy].
    + constructor; [constructor; assumption|].
      constructor; [exact Hxy|].
      eapply Forall_impl; [|exact Hy].
      intros z Hz. unfold id_le in *. lia.
    + constructor; [exact IH|].
      eapply Permutation_Forall; [apply Permutation_sym, insert_perm|].
      constructor; [unfold id_le; lia | exact Hy].
Qed.

Lemma order_by_id_sorted (l : list Pg.JobRow) :
  StronglySorted id_le (Pg.order_by Pg.by_id l).
Proof.
  induction l as [|x l IH]; simpl; [constructor|].
  now apply insert_by_id_sorted.
Qed.

Lemma StronglySorted_map {A B : Type} (f : A -> B) (P : A -> A -> Prop)
    (Q : B -> B -> Prop) (l : list A) :
  (forall a b, P a b -> Q (f a) (f b)) ->
  StronglySorted P l -> StronglySorted Q (map f l).
Proof.
  intros HPQ. induction 1 as [|x l Hl IH Hx]; simpl; constructor.
  - exact IH.
  - apply Forall_forall. intros b Hb.
    apply in_map_iff in Hb as (a & <- & Ha).
    apply HPQ. rewrite Forall_forall in Hx. now apply Hx.
Qed.

(** ** The partial update compiler *)

Lemma column_cases (jsToSql : list (string * string)) (k : string) :
  (forall c, Js.get jsToSql k = Some c -> c <> EmptyString -> Sql.column jsToSql k = c)
  /\ (Js.get jsToSql k = Some EmptyString -> Sql.column jsToSql k = k)
  /\ (Js.get jsToSql k = None -> Js.inherited k = None -> Sql.column jsToSql k = k).
Proof.
  unfold Sql.column. repeat split.
  - intros c -> Hc. simpl.
    destruct (String.eqb_spec c EmptyString); [contradiction|reflexivity].
  - now intros ->.
  - now intros -> ->.
Qed.

(** C1, as the code has it.  For a non-empty mapping of N fields the compiler
    returns N fragments and N values: the i-th fragment, in the mapping's
    order, is the column in double quotes followed by [=$] and i counted from
    1; the column is the field's override when the override mapping has an
    entry of its own for the field that is not the empty string; it is the
    field name when that entry is the empty string, and when the mapping has
    no entry and the field name is not one of the names every object
    inherits; [setCols] joins the fragments with a comma and a space, and
    [values] are the mapping's values in the same order. *)
Theorem sqlForPartialUpdate_fragments :
  forall (dataToUpdate : Js.Obj) (jsToSql : list (string * string)),
    dataToUpdate <> [] ->
    exists cols : list string,
      Sql.sqlForPartialUpdate dataToUpdate jsToSql
      = Ok {| Sql.setCols := String.concat ", " cols;
              Sql.values := map snd dataToUpdate |}
      /\ length cols = length dataToUpdate
      /\ length (map snd dataToUpdate) = length dataToUpdate
      /\ forall i k v,
           nth_error dataToUpdate i = Some (k, v) ->
           exists col,
             nth_error cols i
             = Some (Js.quoted col ++ "=$" ++ Js.decimal_nat (i + 1))
             /\ (forall c, Js.get jsToSql k = Some c -> c <> EmptyString -> col = c)
             /\ (Js.get jsToSql k = Some EmptyString -> col = k)
             /\ (Js.get jsToSql k = None -> Js.inherited k = None -> col = k).
Proof.
  intros data jsToSql Hne.
  exists (Sql.cols data jsToSql).
  split; [|split; [|split]].
  - unfold Sql.sqlForPartialUpdate, Js.keys, Js.values.
    destruct data as [|p data]; [contradiction|reflexivity].
  - unfold Sql.cols, Js.mapi, Js.keys.
    now rewrite mapi_from_length, length_map.
  - apply length_map.
  - intros i k v Hi.
    exists (Sql.column jsToSql k). split.
    + unfold Sql.cols, Js.mapi, Js.keys.
      assert (Hk : nth_error (map fst data) i = Some k)
        by (rewrite nth_error_map, Hi; reflexivity).
      rewrite (mapi_from_nth_error _ _ 0 i k Hk). reflexivity.
    + apply column_cases.
Qed.

Lemma sqlForPartialUpdate_fragments_witness :
  exists cols : list string,
    Sql.sqlForPartialUpdate
      [("age", Fixture.num 25); ("isAdmin", Js.Bool true)] [("isAdmin", "is_admin")]
    = Ok {| Sql.setCols := String.concat ", " cols;
            Sql.values := [Fixture.num 25; Js.Bool true] |}
    /\ length cols = 2%nat.
Proof.
  destruct (sqlForPartialUpdate_fragments
              [("age", Fixture.num 25); ("isAdmin", Js.Bool true)]
              [("isAdmin", "is_admin")]) as (cols & H1 & H2 & _).
  - discriminate.
  - exists cols. split; [exact H1 | exact H2].
Defined.

(** C1 as stated fails where the override mapping gives a field the empty
    string: the code falls back to the field name, and the fragment is not
    the one in the (empty) override.  It fails too for a field named as
    something every object inherits: with no override at all, the column is
    not the field name but the text of what the lookup finds. *)
Lemma sqlForPartialUpdate_empty_override :
  (exists u,
     Sql.sqlForPartialUpdate [("a", Fixture.num 25)] [("a", EmptyString)] = Ok u
     /\ Sql.setCols u = Js.quoted "a" ++ "=$1"
     /\ Sql.setCols u
        <> Js.quoted (Stated.override_or_name [("a", EmptyString)] "a") ++ "=$1")
  /\ (exists u,
        Sql.sqlForPartialUpdate [("constructor", Fixture.num 1)] [] = Ok u
        /\ Sql.setCols u = Js.quoted "function Object() { [native code] }" ++ "=$1"
        /\ Sql.setCols u
           <> Js.quoted (Stated.override_or_name [] "constructor") ++ "=$1").
Proof.
  split.
  - eexists. split; [reflexivity|]. split; [reflexivity|].
    vm_compute. discriminate.
  - eexists. split; [reflexivity|]. split; [reflexivity|].
    vm_compute. discriminate.
Qed.

(** C2.  On the empty mapping the compiler throws BadRequestError, whatever
    the override mapping: no SET clause and no values come back. *)
Theorem sqlForPartialUpdate_no_data :
  forall (jsToSql : list (string * string)),
    Sql.sqlForPartialUpdate [] jsToSql = Throw (BadRequestError "No data")
    /\ forall u, Sql.sqlForPartialUpdate [] jsToSql <> Ok u.
Proof.
  intros jsToSql. split; [reflexivity|].
  intros u. discriminate.
Qed.

(** ** Reading the SET list back *)

Lemma read_digits_no_digit (s : string) :
  no_leading_digit s -> Pg.read_digits s = (Decimal.Nil, s).
Proof.
  destruct s as [|c s]; simpl; [reflexivity|].
  now intros ->.
Qed.

Lemma read_digits_string_of_uint (u : Decimal.uint) (rest : string) :
  no_leading_digit rest ->
  Pg.read_digits (NilEmpty.string_of_uint u ++ rest) = (u, rest).
Proof.
  intros H.
  induction u as [|u IH|u IH|u IH|u IH|u IH|u IH|u IH|u IH|u IH|u IH]; simpl;
    [now apply read_digits_no_digit | now rewrite IH ..].
Qed.

Lemma read_placeholder_decimal (n : nat) (rest : string) :
  no_leading_digit rest ->
  Pg.read_placeholder ("$" ++ Js.decimal_nat n ++ rest) = Some (n, rest).
Proof.
  intros H. unfold Js.decimal_nat.
  pose proof (Unsigned.of_to n) as Hn.
  destruct (Nat.to_uint n) as [|u|u|u|u|u|u|u|u|u|u] eqn:Hu;
    cbn [append NilZero.string_of_uint Pg.read_placeholder];
    try (change (String "0" rest) with (NilEmpty.string_of_uint (Decimal.D0 Decimal.Nil) ++ rest);
         rewrite read_digits_string_of_uint by exact H; now rewrite <- Hn);
    rewrite read_digits_string_of_uint by exact H; now rewrite <- Hn.
Qed.

Lemma append_empty_r (s : string) : s ++ EmptyString = s.
Proof.
  induction s as [|c s IH]; simpl; [reflexivity|].
  now rewrite IH.
Qed.

Lemma parse_placeholder_decimal (n : nat) :
  Pg.parse_placeholder ("$" ++ Js.decimal_nat n) = Some n.
Proof.
  unfold Pg.parse_placeholder.
  rewrite <- (append_empty_r (Js.decimal_nat n)).
  now rewrite read_placeholder_decimal.
Qed.

Lemma read_ident_quote_free (k rest : string) :
  Stated.quote_free k = true ->
  no_leading_quote rest ->
  Pg.read_ident (k ++ Js.dquote ++ rest) = Some (k, rest).
Proof.
  intros Hk Hrest. induction k as [|c k IH].
  - destruct rest as [|c' rest]; simpl in *; [reflexivity|].
    now rewrite Hrest.
  - unfold Stated.quote_free in Hk. simpl in Hk.
    apply andb_true_iff in Hk as (Hc & Hk).
    apply negb_true_iff in Hc.
    change (String c k ++ Js.dquote ++ rest) with (String c (k ++ Js.dquote ++ rest)).
    cbn [Pg.read_ident]. rewrite Hc, (IH Hk). reflexivity.
Qed.

Lemma list_goes_on_no_digit (s : string) : list_goes_on s -> no_leading_digit s.
Proof. intros [->|(s' & ->)]; reflexivity. Qed.

Lemma list_goes_on_skip (s : string) : list_goes_on s -> Pg.skip_spaces s = s.
Proof. intros [->|(s' & ->)]; reflexivity. Qed.

Lemma read_assignment_fragment (k : string) (idx : nat) (rest : string) :
  Stated.quote_free k = true ->
  list_goes_on rest ->
  Pg.read_assignment (Sql.fragment k idx ++ rest) = Some ((k, (idx + 1)%nat), rest).
Proof.
  intros Hk Hrest.
  unfold Sql.fragment, Js.quoted.
  rewrite !append_assoc.
  unfold Pg.read_assignment.
  change (Js.dquote ++ k ++ Js.dquote ++ "=$" ++ Js.decimal_nat (idx + 1) ++ rest)
    with (String (ascii_of_nat 34)
            (k ++ Js.dquote ++ "=$" ++ Js.decimal_nat (idx + 1) ++ rest)).
  cbn [Pg.skip_spaces Pg.is_space].
  change (Pg.is_space (ascii_of_nat 34)) with false. cbv iota.
  change (Pg.is_dquote (ascii_of_nat 34)) with true. cbv iota.
  rewrite read_ident_quote_free by (exact Hk || reflexivity).
  change ("=$" ++ Js.decimal_nat (idx + 1) ++ rest)
    with (String "=" ("$" ++ Js.decimal_nat (idx + 1) ++ rest)).
  cbn [Pg.skip_spaces]. change (Pg.is_space "=") with false. cbv iota.
  change (Pg.skip_spaces ("$" ++ Js.decimal_nat (idx + 1) ++ rest))
    with ("$" ++ Js.decimal_nat (idx + 1) ++ rest).
  rewrite read_placeholder_decimal by now apply list_goes_on_no_digit.
  now rewrite list_goes_on_skip.
Qed.

Lemma read_assignments_space (fuel : nat) (s : string) :
  Pg.read_assignments fuel (String " " s) = Pg.read_assignments fuel s.
Proof. destruct fuel; reflexivity. Qed.

Lemma read_assignments_fragments (ks : list string) :
  forall (idx fuel : nat),
    ks <> [] ->
    Forall (fun k => Stated.quote_free k = true) ks ->
    (length ks <= fuel)%nat ->
    Pg.read_assignments fuel (String.concat ", " (fragments_from idx ks))
    = Some (combine ks (seq (idx + 1) (length ks))).
Proof.
  induction ks as [|k ks IH]; intros idx fuel Hne Hks Hfuel; [contradiction|].
  inversion Hks as [|? ? Hk Hks']; subst.
  destruct fuel as [|fuel]; [simpl in Hfuel; lia|].
  destruct ks as [|k' ks].
  - cbn [fragments_from Js.mapi_from String.concat Pg.read_assignments].
    rewrite <- (append_empty_r (Sql.fragment k idx)).
    rewrite read_assignment_fragment by (exact Hk || now left).
    reflexivity.
  - change (String.concat ", " (fragments_from idx (k :: k' :: ks)))
      with (Sql.fragment k idx
            ++ String "," (String " " (String.concat ", " (fragments_from (S idx) (k' :: ks))))).
    cbn [Pg.read_assignments].
    rewrite read_assignment_fragment by (exact Hk || (right; eauto)).
    rewrite read_assignments_space, (IH (S idx) fuel);
      [| discriminate | exact Hks' | simpl in *; lia].
    cbn [option_map length seq combine].
    replace (S idx + 1)%nat with (S (idx + 1)) by lia.
    reflexivity.
Qed.

Lemma concat_length_ge (sep : string) (l : list string) :
  Forall (fun s => (1 <= String.length s)%nat) l ->
  (length l <= String.length (String.concat sep l))%nat.
Proof.
  induction 1 as [|s l Hs Hl IH]; [simpl; lia|].
  destruct l as [|s' l].
  - simpl. lia.
  - change (String.concat sep (s :: s' :: l)) with (s ++ sep ++ String.concat sep (s' :: l)).
    rewrite !append_length. simpl length in *. lia.
Qed.

Lemma fragments_nonempty (ks : list string) :
  forall idx, Forall (fun s => (1 <= String.length s)%nat) (fragments_from idx ks).
Proof.
  induction ks as [|k ks IH]; intros idx; simpl; constructor.
  - unfold Sql.fragment, Js.quoted. rewrite !append_length. simpl. lia.
  - apply IH.
Qed.

(** The store reads the SET list of quote-free fields back as the fields,
    each with its placeholder. *)
Lemma parse_set_list_fragments (ks : list string) :
  ks <> [] ->
  Forall (fun k => Stated.quote_free k = true) ks ->
  Pg.parse_set_list (String.concat ", " (fragments_from 0 ks))
  = Some (combine ks (seq 1 (length ks))).
Proof.
  intros Hne Hks. unfold Pg.parse_set_list.
  apply (read_assignments_fragments ks 0); [exact Hne | exact Hks |].
  pose proof (concat_length_ge ", " _ (fragments_nonempty ks 0)) as H.
  unfold fragments_from in H. rewrite mapi_from_length in H. exact H.
Qed.

(** ** Numbers as text, and text as numbers *)

Lemma ToString_whole (z : Z) :
  (Z.abs z < 10 ^ 21)%Z -> Js.ToString (Js.Number (Js.Int z)) = Js.decimal z.
Proof.
  intros H. cbn [Js.ToString Js.print_number].
  apply Z.ltb_lt in H. now rewrite H.
Qed.

Lemma in_int4_fits (z : Z) : Pg.in_int4 z = true <-> fits_int4 z.
Proof.
  unfold Pg.in_int4, fits_int4. rewrite andb_true_iff, !Z.leb_le. reflexivity.
Qed.

Lemma fits_int4_short (z : Z) : fits_int4 z -> (Z.abs z < 10 ^ 21)%Z.
Proof. unfold fits_int4. intros H. change (10 ^ 21)%Z with 1000000000000000000000%Z. lia. Qed.

Lemma plain_integer_digits (u : Decimal.uint) :
  u <> Decimal.Nil ->
  Pg.plain_integer (NilEmpty.string_of_uint u) = Some (Z.of_uint u)
  /\ Pg.plain_integer (String "-" (NilEmpty.string_of_uint u)) = Some (- Z.of_uint u)%Z.
Proof.
  intros Hu.
  assert (Hread : Pg.read_digits (NilEmpty.string_of_uint u) = (u, EmptyString)).
  { rewrite <- (append_empty_r (NilEmpty.string_of_uint u)).
    now apply read_digits_string_of_uint. }
  assert (Hskip : Pg.skip_blanks (NilEmpty.string_of_uint u) = NilEmpty.string_of_uint u
                  /\ Pg.read_sign (NilEmpty.string_of_uint u)
                     = (false, NilEmpty.string_of_uint u)).
  { destruct u; [contradiction| ..]; split; reflexivity. }
  destruct Hskip as (Hskip & Hsign).
  unfold Pg.plain_integer. split.
  - rewrite Hskip, Hsign, Hread. destruct u; [contradiction| ..]; reflexivity.
  - change (Pg.skip_blanks (String "-" (NilEmpty.string_of_uint u)))
      with (String "-" (NilEmpty.string_of_uint u)).
    change (Pg.read_sign (String "-" (NilEmpty.string_of_uint u)))
      with (true, NilEmpty.string_of_uint u).
    cbv iota beta. rewrite Hread. destruct u; [contradiction| ..]; reflexivity.
Qed.

(** The store reads the decimal of a whole number back as the number. *)
Lemma plain_integer_decimal (z : Z) : Pg.plain_integer (Js.decimal z) = Some z.
Proof.
  unfold Js.decimal.
  destruct z as [|p|p]; [reflexivity| |].
  - cbn [Z.to_int NilZero.string_of_int].
    assert (Hp : Pos.to_uint p <> Decimal.Nil) by apply DecimalPos.Unsigned.to_uint_nonnil.
    replace (NilZero.string_of_uint (Pos.to_uint p))
      with (NilEmpty.string_of_uint (Pos.to_uint p))
      by (destruct (Pos.to_uint p); [contradiction| ..]; reflexivity).
    rewrite (proj1 (plain_integer_digits _ Hp)). f_equal.
    exact (DecimalZ.of_to (Z.pos p)).
  - cbn [Z.to_int NilZero.string_of_int].
    assert (Hp : Pos.to_uint p <> Decimal.Nil) by apply DecimalPos.Unsigned.to_uint_nonnil.
    replace (NilZero.string_of_uint (Pos.to_uint p))
      with (NilEmpty.string_of_uint (Pos.to_uint p))
      by (destruct (Pos.to_uint p); [contradiction| ..]; reflexivity).
    rewrite (proj2 (plain_integer_digits _ Hp)). f_equal.
    exact (DecimalZ.of_to (Z.neg p)).
Qed.

Section Parameters.
Context {E : Pg.Engine}.

(** An integer text in plain form that fits the column is read as its
    value. *)
Lemma param_in_text (s : string) (z : Z) :
  Pg.plain_integer s = Some z -> fits_int4 z ->
  Pg.param_in Pg.TInt (Js.Str s) = Ok (Pg.SInt z).
Proof.
  intros Hs Hz. cbn [Pg.param_in Js.ToString]. unfold Pg.integer_in.
  rewrite Hs. apply in_int4_fits in Hz. now rewrite Hz.
Qed.

(** A whole number that fits the column arrives as itself. *)
Lemma param_in_whole (z : Z) :
  fits_int4 z -> Pg.param_in Pg.TInt (Js.Number (Js.Int z)) = Ok (Pg.SInt z).
Proof.
  intros Hz. unfold Pg.param_in.
  rewrite (ToString_whole z (fits_int4_short z Hz)).
  unfold Pg.integer_in. rewrite plain_integer_decimal.
  apply in_int4_fits in Hz. now rewrite Hz.
Qed.

(** A whole number that does not fit is refused: the store has read the
    digits and found them out of range. *)
Lemma param_in_whole_refused (z : Z) :
  (Z.abs z < 10 ^ 21)%Z -> ~ fits_int4 z ->
  Pg.param_in Pg.TInt (Js.Number (Js.Int z))
  = Throw (Pg.out_of_range "integer" (Js.decimal z)).
Proof.
  intros Hs Hz. unfold Pg.param_in.
  rewrite (ToString_whole z Hs).
  unfold Pg.integer_in. rewrite plain_integer_decimal.
  destruct (Pg.in_int4 z) eqn:Hin; [|reflexivity].
  apply in_int4_fits in Hin. contradiction.
Qed.

(** Whatever the store reads as an integer fits the column. *)
Lemma param_in_fits (v : Js.Value) (z : Z) :
  Pg.param_in Pg.TInt v = Ok (Pg.SInt z) -> fits_int4 z.
Proof.
  unfold Pg.param_in, Pg.integer_in.
  destruct v; try discriminate;
    (match goal with
     | |- context [match ?o with Some _ => _ | None => Pg.integer_beyond ?s end] =>
         destruct (match o with Some y => Some y | None => Pg.integer_beyond s end) as [y|];
         [|discriminate];
         destruct (Pg.in_int4 y) eqn:Hy; [|discriminate];
         intros H; injection H as <-; now apply in_int4_fits
     end).
Qed.

End Parameters.

Lemma lt_whole {R : Js.Runtime} (a b : Z) :
  Js.lt (Js.Number (Js.Int a)) (Js.Number (Js.Int b)) = (a <? b)%Z.
Proof.
  cbn [Js.lt Js.ToNumber Js.num_lt Js.finite].
  now rewrite Z.pow_0_r, !Z.mul_1_r.
Qed.

(** ** ORDER BY, for any order that ranks every two rows *)

Section Ordering.
Variable A : Type.
Variable leb : A -> A -> bool.
Hypothesis leb_total : forall a b, leb a b = true \/ leb b a = true.
Hypothesis leb_trans : forall a b c, leb a b = true -> leb b c = true -> leb a c = true.

Lemma insert_sorted (x : A) (l : list A) :
  StronglySorted (fun a b => leb a b = true) l ->
  StronglySorted (fun a b => leb a b = true) (Pg.insert leb x l).
Proof.
  induction 1 as [|y l Hl IH Hy]; simpl.
  - constructor; constructor.
  - destruct (leb x y) eqn:Hxy.
    + constructor; [constructor; assumption|].
      constructor; [exact Hxy|].
      eapply Forall_impl; [|exact Hy].
      intros z Hz. now apply leb_trans with (b := y).
    + constructor; [exact IH|].
      eapply Permutation_Forall; [apply Permutation_sym, insert_perm|].
      constructor; [|exact Hy].
      destruct (leb_total x y) as [H|H]; [congruence | exact H].
Qed.

Lemma order_by_sorted (l : list A) :
  StronglySorted (fun a b => leb a b = true) (Pg.order_by leb l).
Proof.
  induction l as [|x l IH]; simpl; [constructor|].
  now apply insert_sorted.
Qed.

End Ordering.

Lemma order_by_name_sorted {E : Pg.Engine} (l : list Pg.CompanyRow) :
  StronglySorted name_le (Pg.order_by Pg.by_name l).
Proof.
  apply (order_by_sorted Pg.CompanyRow Pg.by_name).
  - intros a b. apply Pg.collate_total.
  - intros a b c. apply Pg.collate_trans.
Qed.

(** ** The filter query compilers *)

Lemma company_build_assemble (n mn mx : Js.Value) :
  (Company.whereClause (Company.build n mn mx), Company.args (Company.build n mn mx))
  = Stated.assemble true 1 (Stated.company_filters n mn mx).
Proof.
  unfold Company.build, Company.addMax, Company.addMin, Company.addName,
    Stated.company_filters, Stated.active.
  by_truthiness n; by_truthiness mn; by_truthiness mx; reflexivity.
Qed.

Lemma job_build_assemble (t m h : Js.Value) :
  (Job.whereClause (Job.build t m h), Job.args (Job.build t m h))
  = Stated.assemble true 1 (Stated.job_filters t m h).
Proof.
  unfold Job.build, Job.addEquity, Job.addMinSalary, Job.addTitle,
    Stated.job_filters, Stated.active.
  by_truthiness t; by_truthiness m; by_truthiness h; reflexivity.
Qed.

(** The store reads the compiled clause back as one condition per active
    filter, with the parameters [$1], [$2], ... of the argument list. *)
Lemma company_build_parses (n mn mx : Js.Value) :
  exists conds,
    Pg.parse_where (Company.whereClause (Company.build n mn mx)) = Some conds
    /\ length conds = length (Stated.company_filters n mn mx)
    /\ flat_map Pg.cond_params conds
       = seq 1 (length (Company.args (Company.build n mn mx))).
Proof.
  unfold Company.build, Company.addMax, Company.addMin, Company.addName,
    Stated.company_filters, Stated.active.
  by_truthiness n; by_truthiness mn; by_truthiness mx;
    eexists; (split; [vm_compute; reflexivity | split; reflexivity]).
Qed.

Lemma job_build_parses (t m h : Js.Value) :
  exists conds,
    Pg.parse_where (Job.whereClause (Job.build t m h)) = Some conds
    /\ length conds = length (Stated.job_filters t m h)
    /\ flat_map Pg.cond_params conds
       = seq 1 (length (Job.args (Job.build t m h))).
Proof.
  unfold Job.build, Job.addEquity, Job.addMinSalary, Job.addTitle,
    Stated.job_filters, Stated.active.
  by_truthiness t; by_truthiness m; by_truthiness h;
    eexists; (split; [vm_compute; reflexivity | split; reflexivity]).
Qed.

(** ** Truthiness *)

Lemma truthy_default_null (v : Js.Value) :
  Js.truthy (Js.default_null v) = Js.truthy v.
Proof. destruct v; reflexivity. Qed.

Lemma not_nullish_default_null (v : Js.Value) :
  Js.not_nullish (Js.default_null v) = Js.not_nullish v.
Proof. destruct v; reflexivity. Qed.

Lemma default_null_nullish (v : Js.Value) :
  Js.not_nullish v = false -> Js.default_null v = Js.Null.
Proof. destruct v; simpl; intros H; try discriminate; reflexivity. Qed.

Lemma default_null_not_nullish (v : Js.Value) :
  Js.not_nullish v = true -> Js.default_null v = v.
Proof. destruct v; simpl; intros H; try discriminate; reflexivity. Qed.

Lemma truthy_not_nullish (v : Js.Value) :
  Js.truthy v = true -> Js.not_nullish v = true.
Proof. destruct v; simpl; intros H; try discriminate; reflexivity. Qed.



Lemma job_add_falsy (v : Js.Value) (f : Job.Filter) :
  Js.truthy v = false ->
  Job.addTitle v f = f /\ Job.addMinSalary v f = f /\ Job.addEquity v f = f.
Proof.
  intros H. unfold Job.addTitle, Job.addMinSalary, Job.addEquity.
  rewrite H. auto.
Qed.


Lemma job_build_falsy (v a b : Js.Value) :
  Js.truthy v = false ->
  Job.build v a b = Job.build Js.Null a b
  /\ Job.build a v b = Job.build a Js.Null b
  /\ Job.build a b v = Job.build a b Js.Null.
Proof.
  intros H. unfold Job.build.
  assert (N : Js.truthy Js.Null = false) by reflexivity.
  repeat split.
  - destruct (job_add_falsy v Job.start H) as (-> & _).
    destruct (job_add_falsy Js.Null Job.start N) as (-> & _).
    reflexivity.
  - destruct (job_add_falsy v (Job.addTitle a Job.start) H) as (_ & -> & _).
    destruct (job_add_falsy Js.Null (Job.addTitle a Job.start) N) as (_ & -> & _).
    reflexivity.
  - destruct (job_add_falsy v
                (Job.addMinSalary b (Job.addTitle a Job.start)) H) as (_ & _ & ->).
    destruct (job_add_falsy Js.Null
                (Job.addMinSalary b (Job.addTitle a Job.start)) N) as (_ & _ & ->).
    reflexivity.
Qed.

Lemma default_null_falsy (v : Js.Value) :
  Js.truthy v = false -> Js.truthy (Js.default_null v) = false.
Proof. now rewrite truthy_default_null. Qed.

Section FindAll.
Context {R : Js.Runtime} {E : Pg.Engine}.

(** The check reads its arguments the same before and after the defaults. *)
Lemma minGreaterThanMax_default_null (a b : Js.Value) :
  Company.minGreaterThanMax (Js.default_null a) (Js.default_null b)
  = Company.minGreaterThanMax a b.
Proof.
  unfold Company.minGreaterThanMax.
  rewrite !not_nullish_default_null.
  destruct (Js.not_nullish a) eqn:Ha; [|reflexivity].
  destruct (Js.not_nullish b) eqn:Hb; [|reflexivity].
  now rewrite (default_null_not_nullish a Ha), (default_null_not_nullish b Hb).
Qed.

Lemma job_findAll_falsy (v a b : Js.Value) (w : Pg.World) :
  Js.truthy v = false ->
  Job.findAll v a b w = Job.findAll Js.Null a b w
  /\ Job.findAll a v b w = Job.findAll a Js.Null b w
  /\ Job.findAll a b v w = Job.findAll a b Js.Null w.
Proof.
  intros H. apply default_null_falsy in H.
  unfold Job.findAll. cbv zeta.
  repeat split.
  - destruct (job_build_falsy (Js.default_null v) (Js.default_null a)
                (Js.default_null b) H) as (-> & _). reflexivity.
  - destruct (job_build_falsy (Js.default_null v) (Js.default_null a)
                (Js.default_null b) H) as (_ & -> & _). reflexivity.
  - destruct (job_build_falsy (Js.default_null v) (Js.default_null a)
                (Js.default_null b) H) as (_ & _ & ->). reflexivity.
Qed.







(** *** The range check and the minimum filter *)

Lemma parse_min_clause :
  Pg.parse_where "WHERE num_employees >= $1 "
  = Some [{| Pg.ccol := "num_employees"; Pg.cop := Pg.OpGe; Pg.crhs := Pg.Param 1 |}].
Proof. reflexivity. Qed.

Lemma holds_ge (k n : Z) : Pg.holds Pg.OpGe (k ?= n)%Z = (n <=? k)%Z.
Proof.
  destruct (Z.compare_spec k n) as [Heq|Hlt|Hgt]; simpl; symmetry.
  - apply Z.leb_le. lia.
  - apply Z.leb_gt. lia.
  - apply Z.leb_le. lia.
Qed.

(** The minimum filter, for a parameter the store reads as the integer
    [n], and for one it refuses. *)
Lemma select_where_min_value (rows : list Pg.CompanyRow) (v : Js.Value) (n : Z) :
  Pg.param_in Pg.TInt v = Ok (Pg.SInt n) ->
  Pg.select_where Pg.companies_table rows "WHERE num_employees >= $1 " [v]
  = Ok (filter (Stated.at_least n) rows).
Proof.
  intros Hv. unfold Pg.select_where. rewrite parse_min_clause.
  cbn -[Pg.param_in]. rewrite Hv.
  f_equal. apply filter_ext. intros r.
  unfold Stated.at_least.
  destruct (Pg.num_employees r) as [k|]; cbn; [|reflexivity].
  rewrite andb_true_r, <- holds_ge. reflexivity.
Qed.

Lemma select_where_min_refused (rows : list Pg.CompanyRow) (v : Js.Value) (e : Error) :
  Pg.param_in Pg.TInt v = Throw e ->
  Pg.select_where Pg.companies_table rows "WHERE num_employees >= $1 " [v] = Throw e.
Proof.
  intros Hv. unfold Pg.select_where. rewrite parse_min_clause.
  cbn -[Pg.param_in]. now rewrite Hv.
Qed.

Lemma select_where_min (rows : list Pg.CompanyRow) (n : Z) :
  fits_int4 n ->
  Pg.select_where Pg.companies_table rows "WHERE num_employees >= $1 "
    [Js.Number (Js.Int n)]
  = Ok (filter (Stated.at_least n) rows).
Proof. intros Hn. apply select_where_min_value. now apply param_in_whole. Qed.

(** What [findAll] does with a minimum alone. *)
Lemma findAll_min_alone (nameFilter v maxEmployees : Js.Value) (w : Pg.World) :
  Js.truthy v = true ->
  Js.not_nullish nameFilter = false ->
  Js.not_nullish maxEmployees = false ->
  fst (Company.findAll nameFilter v maxEmployees w)
  = Pg.map_result (Pg.order_by Pg.by_name)
      (Pg.select_where Pg.companies_table (Pg.companies (Pg.store w))
         "WHERE num_employees >= $1 " [v]).
Proof.
  intros T Hname Hmx.
  unfold Company.findAll. cbv zeta.
  rewrite minGreaterThanMax_default_null.
  rewrite (default_null_nullish _ Hname), (default_null_nullish _ Hmx).
  assert (C : Company.minGreaterThanMax v Js.Null = false).
  { unfold Company.minGreaterThanMax. simpl. now rewrite andb_false_r. }
  assert (C' : Company.minGreaterThanMax v maxEmployees = false).
  { unfold Company.minGreaterThanMax. rewrite Hmx. now rewrite andb_false_r. }
  rewrite C'.
  rewrite (default_null_not_nullish v (truthy_not_nullish v T)).
  unfold Company.build, Company.addMax, Company.addMin, Company.addName.
  rewrite T. simpl Js.truthy. cbv iota.
  unfold Pg.bind, Pg.select_companies, Pg.query, Pg.reading, Pg.map_result.
  cbn [Company.whereClause Company.args Company.argIndex Company.start].
  change ((EmptyString ++ Company.keyword 1) ++ "num_employees >= $" ++ Js.decimal_nat 1 ++ " ")
    with "WHERE num_employees >= $1 ".
  cbn [app].
  destruct (Pg.select_where Pg.companies_table (Pg.companies (Pg.store w))
              "WHERE num_employees >= $1 " [v]); reflexivity.
Qed.

(** C5, as the code has it.  Company.findAll throws BadRequestError, with no
    statement sent, whenever minEmployees and maxEmployees are both supplied
    and the maximum is below the minimum, as it is for two whole numbers in
    that order.  With minEmployees a whole number [n] other than 0 that the
    integer column holds, and nothing else supplied, it returns exactly the
    companies whose number of employees is recorded and at least [n], in
    name order.  A minimum the store cannot read as an integer of the column
    makes the call throw the store's error. *)
Theorem findAll_min_and_max :
  forall (nameFilter : Js.Value) (w : Pg.World),
    (forall minEmployees maxEmployees : Js.Value,
        Js.not_nullish minEmployees = true ->
        Js.not_nullish maxEmployees = true ->
        Js.lt maxEmployees minEmployees = true ->
        Company.findAll nameFilter minEmployees maxEmployees w
        = (Throw (BadRequestError
                    ("Filter minimum (" ++ Js.ToString minEmployees
                     ++ ") specified is greater than maximum ("
                     ++ Js.ToString maxEmployees ++ ")")),
           w))
    /\ (forall a b : Z,
        (b < a)%Z ->
        Company.findAll nameFilter (Js.Number (Js.Int a)) (Js.Number (Js.Int b)) w
        = (Throw (BadRequestError
                    ("Filter minimum (" ++ Js.ToString (Js.Number (Js.Int a))
                     ++ ") specified is greater than maximum ("
                     ++ Js.ToString (Js.Number (Js.Int b)) ++ ")")),
           w))
    /\ (forall (n : Z) (maxEmployees : Js.Value),
        n <> 0%Z ->
        fits_int4 n ->
        Js.not_nullish nameFilter = false ->
        Js.not_nullish maxEmployees = false ->
        exists rows,
          fst (Company.findAll nameFilter (Js.Number (Js.Int n)) maxEmployees w) = Ok rows
          /\ Permutation rows (filter (Stated.at_least n) (Pg.companies (Pg.store w)))
          /\ StronglySorted name_le rows
          /\ forall c,
               In c rows
               <-> In c (Pg.companies (Pg.store w))
                   /\ exists k, Pg.num_employees c = Some k /\ (n <= k)%Z)
    /\ (forall (minEmployees maxEmployees : Js.Value) (e : Error),
        Js.truthy minEmployees = true ->
        Pg.param_in Pg.TInt minEmployees = Throw e ->
        Js.not_nullish nameFilter = false ->
        Js.not_nullish maxEmployees = false ->
        fst (Company.findAll nameFilter minEmployees maxEmployees w) = Throw e).
Proof.
  intros nameFilter w.
  assert (Fires : forall mn mx,
    Js.not_nullish mn = true -> Js.not_nullish mx = true -> Js.lt mx mn = true ->
    Company.findAll nameFilter mn mx w
    = (Throw (BadRequestError
                ("Filter minimum (" ++ Js.ToString mn
                 ++ ") specified is greater than maximum (" ++ Js.ToString mx ++ ")")),
       w)).
  { intros mn mx Hmn Hmx Hlt.
    unfold Company.findAll. cbv zeta.
    rewrite minGreaterThanMax_default_null.
    rewrite (default_null_not_nullish mn Hmn), (default_null_not_nullish mx Hmx).
    unfold Company.minGreaterThanMax. now rewrite Hmn, Hmx, Hlt. }
  split; [exact Fires|]. split; [|split].
  - intros a b Hlt. apply Fires; try reflexivity.
    rewrite lt_whole. now apply Z.ltb_lt.
  - intros n mx Hn Hfit Hname Hmx.
    assert (T : Js.truthy (Js.Number (Js.Int n)) = true).
    { simpl. apply negb_true_iff. now apply Z.eqb_neq. }
    rewrite (findAll_min_alone nameFilter _ mx w T Hname Hmx).
    rewrite (select_where_min _ n Hfit). cbn [Pg.map_result].
    eexists. split; [reflexivity|]. split; [apply order_by_perm|].
    split; [apply order_by_name_sorted|].
    intros c. split.
    + intros Hc.
      apply (Permutation_in _ (order_by_perm Pg.by_name _)) in Hc.
      apply filter_In in Hc as (Hc & Hk). split; [exact Hc|].
      unfold Stated.at_least in Hk.
      destruct (Pg.num_employees c) as [k|]; [|discriminate].
      exists k. split; [reflexivity|]. now apply Z.leb_le.
    + intros (Hc & k & Hk & Hle).
      apply (Permutation_in _ (Permutation_sym (order_by_perm Pg.by_name _))).
      apply filter_In. split; [exact Hc|].
      unfold Stated.at_least. rewrite Hk. now apply Z.leb_le.
  - intros mn mx e T He Hname Hmx.
    rewrite (findAll_min_alone nameFilter mn mx w T Hname Hmx).
    now rewrite (select_where_min_refused _ mn e He).
Qed.

End FindAll.

(** *** The statement findAll sends *)

Lemma query_issued {A : Type} (s : Pg.Statement) (run : Pg.Db -> Result (A * Pg.Db))
    (w : Pg.World) :
  Pg.issued (snd (Pg.query s run w)) = (Pg.issued w ++ [s])%list.
Proof. unfold Pg.query. destruct (run (Pg.store w)) as [[a d]|e]; reflexivity. Qed.

Lemma bind_ret_world {A : Type} (m : Pg.M A) (w : Pg.World) :
  snd (Pg.bind m (fun a => Pg.ret a) w) = snd (m w).
Proof. unfold Pg.bind, Pg.ret. destruct (m w) as [[a|e] w']; reflexivity. Qed.

Lemma company_filters_default_null (a b c : Js.Value) :
  Stated.company_filters (Js.default_null a) (Js.default_null b) (Js.default_null c)
  = Stated.company_filters a b c.
Proof. destruct a, b, c; reflexivity. Qed.

Lemma job_filters_default_null (a b c : Js.Value) :
  Stated.job_filters (Js.default_null a) (Js.default_null b) (Js.default_null c)
  = Stated.job_filters a b c.
Proof. destruct a, b, c; reflexivity. Qed.

Section Assembly.
Context {R : Js.Runtime} {E : Pg.Engine}.

Lemma company_findAll_issued (a b c : Js.Value) (w : Pg.World) :
  Company.minGreaterThanMax b c = false ->
  Pg.issued (snd (Company.findAll a b c w))
  = (Pg.issued w
     ++ [Pg.SelectCompanies
           (fst (Stated.assemble true 1 (Stated.company_filters a b c)))
           (snd (Stated.assemble true 1 (Stated.company_filters a b c)))])%list.
Proof.
  intros C. unfold Company.findAll. cbv zeta.
  rewrite minGreaterThanMax_default_null, C.
  rewrite bind_ret_world. unfold Pg.select_companies. rewrite query_issued.
  rewrite <- company_filters_default_null, <- company_build_assemble.
  reflexivity.
Qed.

Lemma job_findAll_issued (a b c : Js.Value) (w : Pg.World) :
  Pg.issued (snd (Job.findAll a b c w))
  = (Pg.issued w
     ++ [Pg.SelectJobs
           (fst (Stated.assemble true 1 (Stated.job_filters a b c)))
           (snd (Stated.assemble true 1 (Stated.job_filters a b c)))])%list.
Proof.
  unfold Job.findAll. cbv zeta.
  rewrite bind_ret_world. unfold Pg.select_jobs. rewrite query_issued.
  rewrite <- job_filters_default_null, <- job_build_assemble.
  reflexivity.
Qed.

(** C3.  The statement Company.findAll sends, whenever the check of minimum
    against maximum lets the call through, and the statement Job.findAll
    sends, carry the clause and the argument list of the assembly rule
    applied to the active filters in declared order: WHERE before the first
    active filter, AND before each later one, placeholders numbered from 1
    in the order of the arguments; when the check fires no statement is
    sent.  The clause and the arguments are the ones the compilers build,
    and the store reads the clause back as one condition per active filter
    whose parameters are exactly [$1] to [$n] for the [n] arguments. *)
Theorem findAll_clause_assembly :
  forall (a b c : Js.Value) (w : Pg.World),
    (Company.minGreaterThanMax b c = false ->
     Pg.issued (snd (Company.findAll a b c w))
     = (Pg.issued w
        ++ [Pg.SelectCompanies
              (fst (Stated.assemble true 1 (Stated.company_filters a b c)))
              (snd (Stated.assemble true 1 (Stated.company_filters a b c)))])%list)
    /\ (Company.minGreaterThanMax b c = true ->
        Pg.issued (snd (Company.findAll a b c w)) = Pg.issued w)
    /\ Pg.issued (snd (Job.findAll a b c w))
       = (Pg.issued w
          ++ [Pg.SelectJobs
                (fst (Stated.assemble true 1 (Stated.job_filters a b c)))
                (snd (Stated.assemble true 1 (Stated.job_filters a b c)))])%list
    /\ (Company.whereClause (Company.build a b c), Company.args (Company.build a b c))
       = Stated.assemble true 1 (Stated.company_filters a b c)
    /\ (Job.whereClause (Job.build a b c), Job.args (Job.build a b c))
       = Stated.assemble true 1 (Stated.job_filters a b c)
    /\ (exists conds,
          Pg.parse_where (fst (Stated.assemble true 1 (Stated.company_filters a b c)))
          = Some conds
          /\ length conds = length (Stated.company_filters a b c)
          /\ flat_map Pg.cond_params conds
             = seq 1 (length (snd (Stated.assemble true 1 (Stated.company_filters a b c)))))
    /\ (exists conds,
          Pg.parse_where (fst (Stated.assemble true 1 (Stated.job_filters a b c)))
          = Some conds
          /\ length conds = length (Stated.job_filters a b c)
          /\ flat_map Pg.cond_params conds
             = seq 1 (length (snd (Stated.assemble true 1 (Stated.job_filters a b c))))).
Proof.
  intros a b c w.
  split; [now apply company_findAll_issued|].
  split.
  { intros C. unfold Company.findAll. cbv zeta.
    now rewrite minGreaterThanMax_default_null, C. }
  split; [apply job_findAll_issued|].
  split; [apply company_build_assemble|].
  split; [apply job_build_assemble|].
  split.
  - rewrite <- company_build_assemble. apply company_build_parses.
  - rewrite <- job_build_assemble. apply job_build_parses.
Qed.

End Assembly.

Lemma findAll_clause_assembly_witness :
  Pg.issued (snd (@Company.findAll Fixture.runtime Fixture.engine
                    (Js.Str "net") (Fixture.num 2) Js.Null Fixture.world))
  = [Pg.SelectCompanies "WHERE name ILIKE $1 AND num_employees >= $2 "
       [Js.Str "%net%"; Fixture.num 2]]
  /\ Pg.issued (snd (@Company.findAll Fixture.runtime Fixture.engine
                       Js.Null (Fixture.num 20) (Fixture.num 10) Fixture.world))
     = [].
Proof.
  pose proof (@findAll_clause_assembly Fixture.runtime Fixture.engine) as H.
  split.
  - exact (proj1 (H (Js.Str "net") (Fixture.num 2) Js.Null Fixture.world) eq_refl).
  - exact (proj1 (proj2 (H Js.Null (Fixture.num 20) (Fixture.num 10) Fixture.world))
             eq_refl).
Defined.

(** Witnesses and counterexamples on the test rows. *)



Lemma findAll_min_and_max_witness :
  @Company.findAll Fixture.runtime Fixture.engine
    Js.Null (Fixture.num 20) (Fixture.num 10) Fixture.world
  = (Throw (BadRequestError "Filter minimum (20) specified is greater than maximum (10)"),
     Fixture.world)
  /\ (exists rows,
        fst (@Company.findAll Fixture.runtime Fixture.engine
               Js.Null (Fixture.num 2) Js.Null Fixture.world) = Ok rows
        /\ Permutation rows [Fixture.c2; Fixture.c3])
  /\ fst (@Company.findAll Fixture.runtime Fixture.engine
            Js.Null (Js.Number (Js.Frac false 15 1)) Js.Null Fixture.world)
     = Throw (Pg.invalid_input "integer" "1.5")
  /\ fst (@Company.findAll Fixture.runtime Fixture.engine
            Js.Null (Fixture.num 2147483648) Js.Null Fixture.world)
     = Throw (Pg.out_of_range "integer" "2147483648").
Proof.
  pose proof (@findAll_min_and_max Fixture.runtime Fixture.engine
                Js.Null Fixture.world) as (T & W & S & F).
  split; [|split; [|split]].
  - exact (T (Fixture.num 20) (Fixture.num 10) eq_refl eq_refl eq_refl).
  - assert (N : 2%Z <> 0%Z) by discriminate.
    assert (I : fits_int4 2) by (unfold fits_int4; lia).
    destruct (S 2%Z Js.Null N I eq_refl eq_refl) as (rows & H & P & _).
    exists rows. split; [exact H | exact P].
  - exact (F (Js.Number (Js.Frac false 15 1)) Js.Null _ eq_refl eq_refl eq_refl eq_refl).
  - exact (F (Fixture.num 2147483648) Js.Null _ eq_refl eq_refl eq_refl eq_refl).
Defined.

(** C5 as stated fails at n = 0: the minimum 0 builds no filter, and a
    company whose number of employees is not recorded is returned with the
    others, though it is not a company of at least 0 employees. *)
Lemma findAll_min_zero_selects_all :
  fst (@Company.findAll Fixture.runtime Fixture.engine
         Js.Null (Fixture.num 0) Js.Null Fixture.world4)
  = Ok [Fixture.c1; Fixture.c2; Fixture.c3; Fixture.c4]
  /\ Stated.at_least 0 Fixture.c4 = false
  /\ filter (Stated.at_least 0) (Pg.companies (Pg.store Fixture.world4))
     = [Fixture.c1; Fixture.c2; Fixture.c3].
Proof. repeat split; reflexivity. Qed.

(** ** Company.get *)

Section GetCompany.
Context {E : Pg.Engine}.

Lemma filter_key_none {A : Type} (key : A -> string) (h : string) (l : list A) :
  (forall x, In x l -> key x <> h) -> filter (fun x => key x =? h) l = [].
Proof.
  induction l as [|y l IH]; simpl; intros H; [reflexivity|].
  destruct (String.eqb_spec (key y) h) as [Heq|Hne].
  - exfalso. now apply (H y); [left|].
  - apply IH. intros x Hx. apply H. now right.
Qed.

Lemma filter_key_unique {A : Type} (key : A -> string) (h : string) (l : list A) (c : A) :
  NoDup (map key l) -> In c l -> key c = h ->
  filter (fun x => key x =? h) l = [c].
Proof.
  induction l as [|y l IH]; simpl; intros Hnd Hin Hk; [contradiction|].
  inversion Hnd as [|? ? Hnotin Hnd']; subst.
  destruct Hin as [->|Hin].
  - rewrite String.eqb_refl. f_equal.
    apply filter_key_none. intros x Hx Heq.
    apply Hnotin. rewrite <- Heq. now apply in_map.
  - destruct (String.eqb_spec (key y) (key c)) as [Heq|Hne].
    + exfalso. apply Hnotin. rewrite Heq. now apply in_map.
    + now apply IH.
Qed.

Lemma select_company_by_handle (h : string) (rows : list Pg.CompanyRow) :
  Pg.select_eq Pg.companies_table rows "handle" [Js.Str h]
  = Ok (filter (fun c => Pg.handle c =? h) rows).
Proof. reflexivity. Qed.

Lemma select_jobs_by_company (h : string) (rows : list Pg.JobRow) :
  Pg.select_eq Pg.jobs_table rows "company_handle" [Js.Str h]
  = Ok (filter (fun j => Pg.company_handle j =? h) rows).
Proof. reflexivity. Qed.

Lemma get_not_found (h : string) (w : Pg.World) :
  (forall c, In c (Pg.companies (Pg.store w)) -> Pg.handle c <> h) ->
  fst (Company.get (Js.Str h) w) = Throw (NotFoundError ("No company: " ++ h)).
Proof.
  intros H. unfold Company.get, Pg.bind, Pg.select_company, Pg.query, Pg.reading.
  rewrite select_company_by_handle, (filter_key_none Pg.handle h _ H).
  reflexivity.
Qed.

Lemma filter_key_some {A : Type} (key : A -> string) (h : string) (l : list A) (c : A) :
  In c l -> key c = h ->
  exists c' rest,
    filter (fun x => key x =? h) l = c' :: rest /\ In c' l /\ key c' = h.
Proof.
  intros Hin Hk.
  assert (Hc : In c (filter (fun x => key x =? h) l)).
  { apply filter_In. split; [exact Hin|]. now apply String.eqb_eq. }
  destruct (filter (fun x => key x =? h) l) as [|c' rest] eqn:Hf; [contradiction|].
  exists c', rest. split; [reflexivity|].
  assert (Hc' : In c' (filter (fun x => key x =? h) l)) by (rewrite Hf; now left).
  apply filter_In in Hc' as (Hin' & Hk'). split; [exact Hin'|].
  now apply String.eqb_eq.
Qed.

Lemma get_found (h : string) (w : Pg.World) (c : Pg.CompanyRow) (rest : list Pg.CompanyRow) :
  filter (fun x => Pg.handle x =? h) (Pg.companies (Pg.store w)) = c :: rest ->
  fst (Company.get (Js.Str h) w)
  = Ok {| Company.company := c; Company.jobs := jobs_of h (Pg.store w) |}.
Proof.
  intros Hf.
  unfold Company.get, Pg.bind, Pg.select_company, Pg.select_company_jobs,
    Pg.query, Pg.reading, Pg.map_result.
  rewrite select_company_by_handle, Hf.
  cbn [Pg.store]. rewrite select_jobs_by_company. reflexivity.
Qed.

End GetCompany.

(** The summary of a job holds its id, title, salary and equity. *)
Lemma summary_fields (s : Pg.JobSummary) (j : Pg.JobRow) :
  s = Pg.summary j
  <-> Pg.job_id s = Pg.id j /\ Pg.job_title s = Pg.title j
      /\ Pg.job_salary s = Pg.salary j /\ Pg.job_equity s = Pg.equity j.
Proof.
  split.
  - intros ->. repeat split.
  - destruct s as [i t sa eq]. cbn. intros (-> & -> & -> & ->). reflexivity.
Qed.

Lemma In_jobs_of (h : string) (d : Pg.Db) (s : Pg.JobSummary) :
  In s (jobs_of h d)
  <-> exists j, In j (Pg.jobs d) /\ Pg.company_handle j = h
                /\ Pg.job_id s = Pg.id j /\ Pg.job_title s = Pg.title j
                /\ Pg.job_salary s = Pg.salary j /\ Pg.job_equity s = Pg.equity j.
Proof.
  unfold jobs_of. rewrite in_map_iff. split.
  - intros (j & <- & Hj).
    apply (Permutation_in _ (order_by_perm Pg.by_id _)) in Hj.
    apply filter_In in Hj as (Hj & Heq).
    apply String.eqb_eq in Heq. exists j.
    split; [exact Hj|]. split; [exact Heq|]. now apply summary_fields.
  - intros (j & Hj & Hk & Hf). exists j. split.
    + symmetry. now apply summary_fields.
    + apply (Permutation_in _ (Permutation_sym (order_by_perm Pg.by_id _))).
      apply filter_In. split; [exact Hj|]. now apply String.eqb_eq.
Qed.

Lemma length_jobs_of (h : string) (d : Pg.Db) :
  length (jobs_of h d)
  = length (filter (fun j => Pg.company_handle j =? h) (Pg.jobs d)).
Proof.
  unfold jobs_of. rewrite length_map.
  apply Permutation_length, order_by_perm.
Qed.

(** C8.  Company.get throws NotFoundError when no company has the handle.
    When a company has it, the call returns a company of that handle (the
    company, handles being unique) with its [jobs]: one summary for each job
    whose company is this one and for no other, holding the id, the title,
    the salary and the equity of the job, in ascending id order; the list is
    empty, and the call still returns, when the company has no job.  The
    store is left as it was. *)
Theorem get_company :
  forall (E : Pg.Engine) (h : string) (w : Pg.World),
    ((forall c, In c (Pg.companies (Pg.store w)) -> Pg.handle c <> h) ->
     fst (Company.get (Js.Str h) w) = Throw (NotFoundError ("No company: " ++ h)))
    /\ (forall c,
        In c (Pg.companies (Pg.store w)) -> Pg.handle c = h ->
        exists r,
          fst (Company.get (Js.Str h) w) = Ok r
          /\ In (Company.company r) (Pg.companies (Pg.store w))
          /\ Pg.handle (Company.company r) = h
          /\ (NoDup (map Pg.handle (Pg.companies (Pg.store w))) -> Company.company r = c)
          /\ (forall s,
                In s (Company.jobs r)
                <-> exists j,
                      In j (Pg.jobs (Pg.store w)) /\ Pg.company_handle j = h
                      /\ Pg.job_id s = Pg.id j /\ Pg.job_title s = Pg.title j
                      /\ Pg.job_salary s = Pg.salary j /\ Pg.job_equity s = Pg.equity j)
          /\ length (Company.jobs r)
             = length (filter (fun j => Pg.company_handle j =? h) (Pg.jobs (Pg.store w)))
          /\ StronglySorted (fun a b => (Pg.job_id a <= Pg.job_id b)%Z) (Company.jobs r)
          /\ ((forall j, In j (Pg.jobs (Pg.store w)) -> Pg.company_handle j <> h) ->
              Company.jobs r = []))
    /\ Pg.store (snd (Company.get (Js.Str h) w)) = Pg.store w.
Proof.
  intros E h w. split; [|split].
  - apply get_not_found.
  - intros c Hin Hk.
    destruct (filter_key_some Pg.handle h _ c Hin Hk) as (c' & rest & Hf & Hin' & Hk').
    exists {| Company.company := c'; Company.jobs := jobs_of h (Pg.store w) |}.
    cbn [Company.company Company.jobs].
    split; [now apply get_found with (rest := rest)|].
    split; [exact Hin'|]. split; [exact Hk'|]. split; [|split; [|split; [|split]]].
    + intros Hnd.
      rewrite (filter_key_unique Pg.handle h _ c Hnd Hin Hk) in Hf.
      now injection Hf.
    + intros s. apply In_jobs_of.
    + apply length_jobs_of.
    + unfold jobs_of.
      apply StronglySorted_map with (P := id_le); [|apply order_by_id_sorted].
      intros a b Hab. exact Hab.
    + intros Hnone. unfold jobs_of.
      now rewrite (filter_key_none Pg.company_handle h _ Hnone).
  - unfold Company.get, Pg.bind, Pg.select_company, Pg.select_company_jobs,
      Pg.query, Pg.reading, Pg.map_result.
    rewrite select_company_by_handle.
    destruct (filter (fun c => Pg.handle c =? h) (Pg.companies (Pg.store w)));
      [reflexivity|].
    cbn [Pg.store]. rewrite select_jobs_by_company. reflexivity.
Qed.

Lemma get_company_witness :
  fst (@Company.get Fixture.engine (Js.Str "nope") Fixture.world)
  = Throw (NotFoundError "No company: nope")
  /\ (exists r,
        fst (@Company.get Fixture.engine (Js.Str "c3") Fixture.world) = Ok r
        /\ Company.company r = Fixture.c3 /\ Company.jobs r = [])
  /\ fst (@Company.get Fixture.engine (Js.Str "c1") Fixture.world)
     = Ok {| Company.company := Fixture.c1;
             Company.jobs :=
               [ {| Pg.job_id := 1; Pg.job_title := "title-1";
                    Pg.job_salary := Some 50000%Z;
                    Pg.job_equity := Some (Fixture.hundredths 0) |};
                 {| Pg.job_id := 2; Pg.job_title := "title-2";
                    Pg.job_salary := Some 60000%Z;
                    Pg.job_equity := Some (Fixture.hundredths 1) |} ] |}.
Proof.
  assert (U : NoDup (map Pg.handle (Pg.companies (Pg.store Fixture.world)))).
  { repeat constructor; simpl; intuition discriminate. }
  split; [|split].
  - apply (proj1 (get_company Fixture.engine "nope" Fixture.world)).
    intros c [<-|[<-|[<-|[]]]]; discriminate.
  - destruct (proj1 (proj2 (get_company Fixture.engine "c3" Fixture.world)) Fixture.c3)
      as (r & Hr & _ & _ & Hc & _ & _ & _ & Hnone).
    + simpl. auto.
    + reflexivity.
    + exists r. split; [exact Hr|]. split; [exact (Hc U)|].
      apply Hnone. intros j [<-|[<-|[<-|[]]]]; discriminate.
  - reflexivity.
Defined.

(** ** The query checks of the list endpoints *)

Section QueryChecks.
Context {R : Js.Runtime} {E : Pg.Engine}.

Lemma checkCompanyGetQuery_from_refuses (queries : Routes.Query) (keys : list string) :
  (exists k, In k keys /\ company_param_refused queries k) ->
  exists error, Routes.checkCompanyGetQuery_from queries keys = Some error.
Proof.
  induction keys as [|q keys IH]; intros (k & Hin & Hbad); [contradiction|].
  simpl.
  destruct (negb (q =? "maxEmployees") && negb (q =? "minEmployees")
            && negb (q =? "name")) eqn:Hunknown; [eauto|].
  destruct (((q =? "minEmployees") || (q =? "maxEmployees"))
            && Js.isNaN (Routes.param queries q)) eqn:Hnan; [eauto|].
  destruct Hin as [->|Hin]; [|apply IH; eauto].
  exfalso. destruct Hbad as [Hbad|([-> | ->] & Hbad)].
  - apply Hbad. unfold company_param_known.
    destruct (String.eqb_spec k "maxEmployees"); [auto|].
    destruct (String.eqb_spec k "minEmployees"); [auto|].
    destruct (String.eqb_spec k "name"); [auto|].
    discriminate.
  - rewrite Hbad in Hnan. discriminate.
  - rewrite Hbad in Hnan. discriminate.
Qed.

Lemma checkJobGetQuery_from_refuses (queries : Routes.Query) (keys : list string) :
  (exists k, In k keys /\ job_param_refused queries k) ->
  exists error, Routes.checkJobGetQuery_from queries keys = Some error.
Proof.
  induction keys as [|q keys IH]; intros (k & Hin & Hbad); [contradiction|].
  simpl.
  destruct (negb (q =? "titleFilter") && negb (q =? "minSalary")
            && negb (q =? "hasEquity")) eqn:Hunknown; [eauto|].
  destruct ((q =? "minSalary") && Js.isNaN (Routes.param queries q)) eqn:Hnan; [eauto|].
  destruct Hin as [->|Hin]; [|apply IH; eauto].
  exfalso. destruct Hbad as [Hbad|(-> & Hbad)].
  - apply Hbad. unfold job_param_known.
    destruct (String.eqb_spec k "titleFilter"); [auto|].
    destruct (String.eqb_spec k "minSalary"); [auto|].
    destruct (String.eqb_spec k "hasEquity"); [auto|].
    discriminate.
  - rewrite Hbad in Hnan. discriminate.
Qed.

(** A string is not a number exactly when it is no numeric literal of the
    language; nothing but white space is one, and reads as zero. *)
Lemma isNaN_text (s : string) :
  Js.isNaN (Js.Str s) = true <-> Js.literal s = Js.NotNumeric.
Proof.
  unfold Js.isNaN, Js.ToNumber, Js.StringToNumber.
  destruct (Js.literal s) as [|negative|m x].
  - split; reflexivity.
  - split; discriminate.
  - pose proof (Js.nearest_number m x) as H.
    destruct (Js.nearest m x); split; try discriminate; contradiction.
Qed.

Lemma isNaN_blank (s : string) :
  Js.trim s = EmptyString -> Js.isNaN (Js.Str s) = false.
Proof.
  intros H. apply not_true_is_false. intros N.
  apply isNaN_text in N. unfold Js.literal in N. rewrite H in N. discriminate.
Qed.

(** C9, as the code has it.  Whatever the query parameters of a list
    endpoint, if one of them has a name outside the resource's filter set, or
    is minEmployees, maxEmployees or minSalary with a value that is not a
    number to the runtime (isNaN), the handler throws BadRequestError,
    answered with status 400, and the store sees no statement: findAll is not
    called.  A value is not a number exactly when it is no numeric literal of
    the language; a value that is empty or nothing but white space is one,
    and is let through. *)
Theorem list_query_check_rejects :
  forall (query : Routes.Query) (w : Pg.World),
    ((exists k, In k (map fst query) /\ company_param_refused query k) ->
     exists message,
       Routes.getCompanies query w = (Throw (BadRequestError message), w)
       /\ Routes.handle (Routes.getCompanies query) w = (Routes.Failure 400 message, w))
    /\ ((exists k, In k (map fst query) /\ job_param_refused query k) ->
        exists message,
          Routes.getJobs query w = (Throw (BadRequestError message), w)
          /\ Routes.handle (Routes.getJobs query) w = (Routes.Failure 400 message, w))
    /\ (forall k s,
          Js.get query k = Some s ->
          (Js.isNaN (Routes.param query k) = true <-> Js.literal s = Js.NotNumeric)
          /\ (Js.trim s = EmptyString -> Js.isNaN (Routes.param query k) = false)).
Proof.
  intros query w. split; [|split].
  - intros H.
    destruct (checkCompanyGetQuery_from_refuses query _ H) as (error & He).
    exists error. unfold Routes.handle, Routes.getCompanies, Routes.checkCompanyGetQuery.
    rewrite He. split; reflexivity.
  - intros H.
    destruct (checkJobGetQuery_from_refuses query _ H) as (error & He).
    exists error. unfold Routes.handle, Routes.getJobs, Routes.checkJobGetQuery.
    rewrite He. split; reflexivity.
  - intros k s Hs. unfold Routes.param. rewrite Hs. split.
    + apply isNaN_text.
    + apply isNaN_blank.
Qed.

End QueryChecks.

Lemma list_query_check_rejects_witness :
  (exists message,
      Routes.handle (@Routes.getJobs Fixture.runtime Fixture.engine [("apples", "6")])
        Fixture.world
      = (Routes.Failure 400 message, Fixture.world))
  /\ (exists message,
      Routes.handle
        (@Routes.getCompanies Fixture.runtime Fixture.engine [("minEmployees", "many")])
        Fixture.world
      = (Routes.Failure 400 message, Fixture.world)).
Proof.
  split.
  - destruct (proj1 (proj2 (@list_query_check_rejects Fixture.runtime Fixture.engine
                       [("apples", "6")] Fixture.world))) as (m & _ & H).
    + exists "apples". split; [simpl; auto|].
      left. intros [A|[A|A]]; discriminate.
    + now exists m.
  - destruct (proj1 (@list_query_check_rejects Fixture.runtime Fixture.engine
                       [("minEmployees", "many")] Fixture.world)) as (m & _ & H).
    + exists "minEmployees". split; [simpl; auto|].
      right. split; [auto | reflexivity].
    + now exists m.
Defined.

(** C9 as stated fails for a value that is empty: it is not numeric, yet the
    checks let it through, the minimum reaches findAll as 0 or as the empty
    string, no filter is built, and the request is answered with every
    row. *)
Lemma list_query_check_accepts_empty :
  @Routes.checkCompanyGetQuery Fixture.runtime [("minEmployees", EmptyString)] = None
  /\ fst (Routes.handle
            (@Routes.getCompanies Fixture.runtime Fixture.engine
               [("minEmployees", EmptyString)])
            Fixture.world)
     = Routes.Json 200 [Fixture.c1; Fixture.c2; Fixture.c3]
  /\ @Routes.checkJobGetQuery Fixture.runtime [("minSalary", EmptyString)] = None
  /\ fst (Routes.handle
            (@Routes.getJobs Fixture.runtime Fixture.engine [("minSalary", EmptyString)])
            Fixture.world)
     = Routes.Json 200 [Fixture.j1; Fixture.j2; Fixture.j3].
Proof. repeat split; reflexivity. Qed.

(** ** Job.update *)

(** C10.  For every id, an update whose only key is companyHandle throws the
    compiler's BadRequestError: nothing is left to update once the key is
    removed.  No statement is sent, and the store is as it was. *)
Theorem update_only_companyHandle :
  forall (E : Pg.Engine) (id h : Js.Value) (w : Pg.World),
    Job.update id [("companyHandle", h)] w = (Throw (BadRequestError "No data"), w)
    /\ Sql.sqlForPartialUpdate (Js.delete [("companyHandle", h)] "companyHandle") Job.jsToSql
       = Throw (BadRequestError "No data").
Proof.
  intros E id h w. split; reflexivity.
Qed.

(** ** Running the UPDATE *)

Section RunningUpdate.
Context {Eng : Pg.Engine}.

(** An assignment that succeeds stores the value: the column reads back as
    the value assigned. *)
Lemma assign_reads (d : Pg.Db) (c : string) (v : Pg.SqlValue) (r r' : Pg.JobRow)
    (ty : Pg.ColType) (read : Pg.JobRow -> Pg.SqlValue) :
  Pg.assign d c v r = Ok r' ->
  Pg.jobs_table c = Some (ty, read) ->
  read r' = v.
Proof.
  unfold Pg.assign, Pg.jobs_table. intros Ha Ht.
  column_cases c; simpl in Ha, Ht; try discriminate;
    injection Ht as <- <-;
    destruct v; try discriminate;
    repeat match type of Ha with
           | (if ?b then _ else _) = _ => destruct b; try discriminate
           end;
    injection Ha as <-; reflexivity.
Qed.

(** ... and leaves every other column as it was. *)
Lemma assign_frame (d : Pg.Db) (c c' : string) (v : Pg.SqlValue) (r r' : Pg.JobRow)
    (ty : Pg.ColType) (read : Pg.JobRow -> Pg.SqlValue) :
  Pg.assign d c v r = Ok r' ->
  c' <> c ->
  Pg.jobs_table c' = Some (ty, read) ->
  read r' = read r.
Proof.
  unfold Pg.assign, Pg.jobs_table. intros Ha Hne Ht.
  column_cases c; simpl in Ha; try discriminate;
    (column_cases c'; simpl in Ht; try discriminate; try congruence;
     injection Ht as <- <-;
     destruct v; try discriminate;
     repeat match type of Ha with
            | (if ?b then _ else _) = _ => destruct b; try discriminate
            end;
     injection Ha as <-; reflexivity).
Qed.

Lemma assign_all_frame (d : Pg.Db) (vals : list (string * Pg.SqlValue)) :
  forall (r r' : Pg.JobRow) (c : string) (ty : Pg.ColType) (read : Pg.JobRow -> Pg.SqlValue),
    Pg.assign_all d vals r = Ok r' ->
    ~ In c (map fst vals) ->
    Pg.jobs_table c = Some (ty, read) ->
    read r' = read r.
Proof.
  induction vals as [|[c0 v0] vals IH]; simpl; intros r r' c ty read Ha Hnot Ht.
  - now injection Ha as <-.
  - destruct (Pg.assign d c0 v0 r) as [r1|e] eqn:H1; [|discriminate].
    rewrite (IH r1 r' c ty read Ha) by tauto || assumption.
    eapply assign_frame; eauto.
Qed.

Lemma assign_all_reads (d : Pg.Db) (vals : list (string * Pg.SqlValue)) :
  forall (r r' : Pg.JobRow) (c : string) (v : Pg.SqlValue)
         (ty : Pg.ColType) (read : Pg.JobRow -> Pg.SqlValue),
    NoDup (map fst vals) ->
    Pg.assign_all d vals r = Ok r' ->
    In (c, v) vals ->
    Pg.jobs_table c = Some (ty, read) ->
    read r' = v.
Proof.
  induction vals as [|[c0 v0] vals IH]; simpl; intros r r' c v ty read Hnd Ha Hin Ht;
    [contradiction|].
  inversion Hnd as [|? ? Hnotin Hnd']; subst.
  destruct (Pg.assign d c0 v0 r) as [r1|e] eqn:H1; [|discriminate].
  destruct Hin as [Heq|Hin].
  - injection Heq as -> ->.
    rewrite (assign_all_frame d vals r1 r' c ty read Ha Hnotin Ht).
    eapply assign_reads; eauto.
  - eapply IH; eauto.
Qed.

Lemma nodupb_NoDup (l : list string) : Pg.nodupb l = true -> NoDup l.
Proof.
  induction l as [|x l IH]; simpl; intros H; constructor.
  - apply andb_true_iff in H as (H & _). apply negb_true_iff in H.
    intros Hin.
    assert (E : existsb (String.eqb x) l = true).
    { apply existsb_exists. exists x. split; [exact Hin | apply String.eqb_refl]. }
    congruence.
  - apply andb_true_iff in H as (_ & H). now apply IH.
Qed.

(** The rows RETURNING gives are rows of the table with the matching id, with
    the assignments made; they are in the table afterwards. *)
Lemma update_rows_returned (d : Pg.Db) (vals : list (string * Pg.SqlValue))
    (key : Pg.SqlValue) (rows : list Pg.JobRow) :
  forall table returned,
    Pg.update_rows d vals key rows = Ok (table, returned) ->
    forall r', In r' returned ->
      In r' table
      /\ exists old, In old rows /\ Pg.id_matches key old = true
                     /\ Pg.assign_all d vals old = Ok r'.
Proof.
  induction rows as [|r rows IH]; simpl; intros table returned H r' Hin.
  - injection H as <- <-. contradiction.
  - destruct (Pg.update_rows d vals key rows) as [[t ret]|e] eqn:Hrec; [|discriminate].
    destruct (Pg.id_matches key r) eqn:Hm.
    + destruct (Pg.assign_all d vals r) as [r1|e] eqn:Ha; [|discriminate].
      injection H as <- <-.
      destruct Hin as [<-|Hin].
      * split; [now left|]. exists r. auto.
      * destruct (IH t ret eq_refl r' Hin) as (Ht & old & Ho & Hk & Hv).
        split; [now right|]. exists old. auto.
    + injection H as <- <-.
      destruct (IH t ret eq_refl r' Hin) as (Ht & old & Ho & Hk & Hv).
      split; [now right|]. exists old. auto.
Qed.

(** A column that is not assigned reads the same down the whole table. *)
Lemma update_rows_frame (d : Pg.Db) (vals : list (string * Pg.SqlValue))
    (key : Pg.SqlValue) (rows : list Pg.JobRow)
    (c : string) (ty : Pg.ColType) (read : Pg.JobRow -> Pg.SqlValue) :
  ~ In c (map fst vals) ->
  Pg.jobs_table c = Some (ty, read) ->
  forall table returned,
    Pg.update_rows d vals key rows = Ok (table, returned) ->
    map read table = map read rows.
Proof.
  intros Hc Ht.
  induction rows as [|r rows IH]; simpl; intros table returned H.
  - now injection H as <- <-.
  - destruct (Pg.update_rows d vals key rows) as [[t ret]|e] eqn:Hrec; [|discriminate].
    destruct (Pg.id_matches key r).
    + destruct (Pg.assign_all d vals r) as [r1|e] eqn:Ha; [|discriminate].
      injection H as <- <-. simpl.
      rewrite (IH t ret eq_refl).
      now rewrite (assign_all_frame d vals r r1 c ty read Ha Hc Ht).
    + injection H as <- <-. simpl. now rewrite (IH t ret eq_refl).
Qed.

(** The values bound to the assignments are the payload's values, each read
    in the type of its column. *)
Lemma bind_assignments_payload (data : Js.Obj) :
  forall (pre post : list Js.Value) (vals : list (string * Pg.SqlValue)),
    Pg.bind_assignments (pre ++ map snd data ++ post)
      (combine (map fst data) (seq (S (length pre)) (length data)))
    = Ok vals ->
    map fst vals = map fst data
    /\ forall k v, In (k, v) data ->
         exists ty read sv,
           Pg.jobs_table k = Some (ty, read)
           /\ Pg.param_in ty v = Ok sv
           /\ In (k, sv) vals.
Proof.
  induction data as [|[k v] data IH]; intros pre post vals H.
  - simpl in H. injection H as <-. split; [reflexivity|]. intros k v [].
  - cbn [map fst snd length seq combine Pg.bind_assignments] in H.
    destruct (Pg.jobs_table k) as [[ty read]|] eqn:Ht; [|discriminate].
    cbn [Pg.operand_value] in H.
    assert (Hnth : nth_error (pre ++ (v :: map snd data) ++ post) (length pre) = Some v).
    { rewrite nth_error_app2 by lia. now rewrite Nat.sub_diag. }
    rewrite Hnth in H.
    destruct (Pg.param_in ty v) as [sv|e] eqn:Hp.
    + replace (pre ++ (v :: map snd data) ++ post)%list
        with ((pre ++ [v]) ++ map snd data ++ post)%list in H
        by (rewrite <- app_assoc; reflexivity).
      replace (S (S (length pre))) with (S (length (pre ++ [v])%list)) in H
        by (rewrite length_app; simpl; lia).
      destruct (Pg.bind_assignments ((pre ++ [v]) ++ map snd data ++ post)
                  (combine (map fst data) (seq (S (length (pre ++ [v])%list)) (length data))))
        as [vals'|e] eqn:Hrec; [|discriminate].
      injection H as <-.
      destruct (IH _ _ _ Hrec) as (Hk & Hv).
      split; [simpl; now rewrite Hk|].
      intros k0 v0 [Heq|Hin].
      * injection Heq as <- <-. exists ty, read, sv. simpl. auto.
      * destruct (Hv k0 v0 Hin) as (ty0 & read0 & sv0 & A & B & C).
        exists ty0, read0, sv0. simpl. auto.
    + discriminate.
Qed.

Lemma id_matches_key (key : Pg.SqlValue) (r : Pg.JobRow) :
  Pg.id_matches key r = true -> key = Pg.SInt (Pg.id r).
Proof.
  destruct key; simpl; try discriminate.
  intros H. apply Z.eqb_eq in H. now subst.
Qed.

Lemma map_fst_combine_seq {A : Type} (l : list A) :
  forall start, map fst (combine l (seq start (length l))) = l.
Proof.
  induction l as [|x l IH]; intros start; simpl; [reflexivity|].
  now rewrite IH.
Qed.

(** What a successful UPDATE compiled from a payload does. *)
Lemma exec_update_jobs_payload (data : Js.Obj) (id : Js.Value) (d d' : Pg.Db)
    (returned : list Pg.JobRow) :
  data <> [] ->
  Forall (fun k => Stated.quote_free k = true) (map fst data) ->
  Pg.exec_update_jobs (String.concat ", " (fragments_from 0 (map fst data)))
    ("$" ++ Js.decimal_nat (length (map snd data) + 1)) (map snd data ++ [id]) d
  = Ok (returned, d') ->
  Pg.companies d' = Pg.companies d
  /\ (forall c ty read,
         Pg.jobs_table c = Some (ty, read) -> ~ In c (map fst data) ->
         map read (Pg.jobs d') = map read (Pg.jobs d))
  /\ forall job, In job returned ->
       In job (Pg.jobs d')
       /\ exists old,
            In old (Pg.jobs d)
            /\ Pg.param_in Pg.TInt id = Ok (Pg.SInt (Pg.id old))
            /\ (forall c ty read,
                   Pg.jobs_table c = Some (ty, read) -> ~ In c (map fst data) ->
                   read job = read old)
            /\ (forall k v, In (k, v) data ->
                   exists ty read,
                     Pg.jobs_table k = Some (ty, read)
                     /\ Pg.param_in ty v = Ok (read job)).
Proof.
  intros Hne Hq H. unfold Pg.exec_update_jobs in H.
  rewrite parse_set_list_fragments in H
    by (exact Hq || (destruct data; [contradiction | discriminate])).
  rewrite parse_placeholder_decimal in H.
  destruct (negb (Pg.placeholders_ok _ _)); [discriminate|].
  rewrite map_fst_combine_seq in H.
  destruct (negb (Pg.nodupb (map fst data))) eqn:Hnd; [discriminate|].
  apply negb_false_iff, nodupb_NoDup in Hnd.
  rewrite !length_map in H.
  assert (Hb := bind_assignments_payload data [] [id]).
  cbn [app length] in Hb.
  destruct (Pg.bind_assignments (map snd data ++ [id])
              (combine (map fst data) (seq 1 (length data)))) as [vals|e] eqn:Hvals;
    [|discriminate].
  destruct (Hb vals eq_refl) as (Hkeys & Hpayload).
  replace (length data + 1)%nat with (S (length data)) in H by lia.
  cbn [Pg.operand_value] in H.
  rewrite nth_error_app2 in H by (rewrite length_map; lia).
  rewrite length_map, Nat.sub_diag in H.
  cbn [nth_error] in H.
  destruct (Pg.param_in Pg.TInt id) as [key|e] eqn:Hkey; [|discriminate].
  destruct (Pg.update_rows d vals key (Pg.jobs d)) as [[table ret]|e] eqn:Hup;
    [|discriminate].
  destruct (existsb _ _ && negb _); [discriminate|].
  injection H as <- <-.
  split; [reflexivity|]. split.
  { intros c ty read Ht Hc. cbn [Pg.jobs].
    eapply update_rows_frame; eauto. now rewrite Hkeys. }
  intros job Hjob.
  destruct (update_rows_returned d vals key _ _ _ Hup job Hjob)
    as (Hin & old & Hold & Hm & Ha).
  split; [exact Hin|].
  exists old. split; [exact Hold|]. split.
  { f_equal. now apply id_matches_key. }
  split.
  - intros c ty read Ht Hc.
    eapply assign_all_frame; eauto. now rewrite Hkeys.
  - intros k v Hkv.
    destruct (Hpayload k v Hkv) as (ty & read & sv & Ht & Hp & Hsv).
    exists ty, read. split; [exact Ht|].
    rewrite Hp. f_equal. symmetry.
    eapply assign_all_reads; eauto. now rewrite Hkeys.
Qed.

(** An UPDATE that matches no row changes nothing. *)
Lemma update_rows_none (d : Pg.Db) (vals : list (string * Pg.SqlValue))
    (key : Pg.SqlValue) (rows : list Pg.JobRow) :
  forall table, Pg.update_rows d vals key rows = Ok (table, []) -> table = rows.
Proof.
  induction rows as [|r rows IH]; simpl; intros table H.
  - now injection H as <-.
  - destruct (Pg.update_rows d vals key rows) as [[t ret]|e]; [|discriminate].
    destruct (Pg.id_matches key r).
    + destruct (Pg.assign_all d vals r); discriminate.
    + injection H as <- ->. now rewrite (IH t eq_refl).
Qed.

Lemma exec_update_jobs_none (setCols idx : string) (args : list Js.Value) (d d' : Pg.Db) :
  Pg.exec_update_jobs setCols idx args d = Ok ([], d') -> d' = d.
Proof.
  unfold Pg.exec_update_jobs. intros H.
  destruct (Pg.parse_set_list setCols) as [assigns|]; [|discriminate].
  destruct (Pg.parse_placeholder idx) as [k|]; [|discriminate].
  destruct (negb (Pg.placeholders_ok _ _)); [discriminate|].
  destruct (negb (Pg.nodupb _)); [discriminate|].
  destruct (Pg.bind_assignments args assigns) as [vals|e]; [|discriminate].
  destruct (Pg.operand_value Pg.TInt args (Pg.Param k)) as [key|e]; [|discriminate].
  destruct (Pg.update_rows d vals key (Pg.jobs d)) as [[table ret]|e] eqn:Hup;
    [|discriminate].
  destruct (existsb _ _ && negb _); [discriminate|].
  injection H as -> <-.
  rewrite (update_rows_none d vals key _ _ Hup).
  now destruct d.
Qed.

End RunningUpdate.

(** ** Job.update *)

Section JobUpdate.
Context {Eng : Pg.Engine}.

Lemma delete_In (data : Js.Obj) (c k : string) (v : Js.Value) :
  In (k, v) (Js.delete data c) <-> In (k, v) data /\ k <> c.
Proof.
  unfold Js.delete. rewrite filter_In. simpl.
  rewrite negb_true_iff, String.eqb_neq. reflexivity.
Qed.

Lemma delete_keys (data : Js.Obj) (c k : string) :
  In k (Js.keys (Js.delete data c)) <-> In k (Js.keys data) /\ k <> c.
Proof.
  unfold Js.keys. rewrite !in_map_iff. split.
  - intros ([k' v] & <- & H). apply delete_In in H as (H & Hne).
    split; [|exact Hne]. exists (k', v). auto.
  - intros (([k' v] & <- & H) & Hne). exists (k', v). split; [reflexivity|].
    apply delete_In. auto.
Qed.

Lemma mapi_from_ext_in {A B : Type} (f g : A -> nat -> B) (l : list A) :
  (forall x i, In x l -> f x i = g x i) ->
  forall idx, Js.mapi_from f idx l = Js.mapi_from g idx l.
Proof.
  induction l as [|x l IH]; intros H idx; simpl; [reflexivity|].
  rewrite (H x idx) by now left.
  rewrite IH; [reflexivity|]. intros y i Hy. apply H. now right.
Qed.

(** The override mapping of Job.update only names companyHandle: every other
    field is its own column, unless it is a name every object inherits. *)
Lemma job_column (k : string) :
  k <> "companyHandle" -> Js.inherited k = None -> Sql.column Job.jsToSql k = k.
Proof.
  intros H Hi. unfold Sql.column, Job.jsToSql, Js.get.
  destruct (String.eqb_spec "companyHandle" k) as [Heq|_]; [now subst|].
  now rewrite Hi.
Qed.

Lemma job_cols (data : Js.Obj) :
  (forall k, In k (Js.keys data) -> k <> "companyHandle" /\ Js.inherited k = None) ->
  Sql.cols data Job.jsToSql = fragments_from 0 (Js.keys data).
Proof.
  intros H. unfold Sql.cols, Js.mapi, fragments_from.
  apply mapi_from_ext_in. intros k i Hk.
  destruct (H k Hk) as (Hne & Hi).
  now rewrite job_column.
Qed.

Lemma map_SText_inj {A : Type} (f : A -> string) (l1 l2 : list A) :
  map (fun r => Pg.SText (f r)) l1 = map (fun r => Pg.SText (f r)) l2 ->
  map f l1 = map f l2.
Proof.
  revert l2. induction l1 as [|x l1 IH]; intros [|y l2] H; simpl in *;
    try discriminate; [reflexivity|].
  injection H as Hxy H. now rewrite Hxy, (IH l2 H).
Qed.

Lemma company_handle_column :
  Pg.jobs_table "company_handle"
  = Some (Pg.TText, fun r => Pg.SText (Pg.company_handle r)).
Proof. reflexivity. Qed.

(** The guard of Job.update, as far as it goes.  The payload's companyHandle
    is removed before the compiler runs; the statement sent, if any, assigns
    the remaining fields, each to the column of its own name.  For a payload
    whose other fields are written without a double quote and do not name
    the company_handle column itself, a call that returns leaves the company
    handle of every stored job as it was; the job returned is a stored job
    of the given id with the remaining fields set to the supplied values,
    its company handle and every column not supplied being the stored ones.
    A call that throws leaves the store as it was. *)
Theorem update_keeps_companyHandle :
  forall (id : Js.Value) (data : Js.Obj) (w : Pg.World),
    let dataToChange := Js.delete data "companyHandle" in
    ~ In "companyHandle" (Js.keys dataToChange)
    /\ (forall k v, In (k, v) dataToChange <-> In (k, v) data /\ k <> "companyHandle")
    /\ (forall e, fst (Job.update id data w) = Throw e ->
                  Pg.store (snd (Job.update id data w)) = Pg.store w)
    /\ (Stated.job_fields data -> dataToChange <> [] ->
        Pg.parse_set_list (String.concat ", " (Sql.cols dataToChange Job.jsToSql))
        = Some (combine (Js.keys dataToChange) (seq 1 (length dataToChange))))
    /\ (Stated.job_fields data ->
        forall job, fst (Job.update id data w) = Ok job ->
          let w' := snd (Job.update id data w) in
          Pg.issued w'
          = (Pg.issued w
             ++ [Pg.UpdateJobs
                   (String.concat ", " (fragments_from 0 (Js.keys dataToChange)))
                   ("$" ++ Js.decimal_nat (length dataToChange + 1))
                   (Js.values dataToChange ++ [id])])%list
          /\ map Pg.company_handle (Pg.jobs (Pg.store w'))
             = map Pg.company_handle (Pg.jobs (Pg.store w))
          /\ In job (Pg.jobs (Pg.store w'))
          /\ exists old,
               In old (Pg.jobs (Pg.store w))
               /\ Pg.param_in Pg.TInt id = Ok (Pg.SInt (Pg.id old))
               /\ Pg.company_handle job = Pg.company_handle old
               /\ (forall c ty read,
                      Pg.jobs_table c = Some (ty, read) ->
                      ~ In c (Js.keys dataToChange) ->
                      read job = read old)
               /\ (forall k v, In (k, v) dataToChange ->
                      exists ty read,
                        Pg.jobs_table k = Some (ty, read)
                        /\ Pg.param_in ty v = Ok (read job))).
Proof.
  intros id data w dataToChange.
  assert (Hstripped : ~ In "companyHandle" (Js.keys dataToChange)).
  { intros H. apply delete_keys in H as (_ & H). now apply H. }
  split; [exact Hstripped|].
  split; [intros k v; apply delete_In|].
  assert (Hquote : Stated.job_fields data ->
                   Forall (fun k => Stated.quote_free k = true) (map fst dataToChange)).
  { intros Hfields. apply Forall_forall. intros k Hk.
    apply delete_keys in Hk as (Hk & Hne').
    now apply (Hfields k Hk Hne'). }
  assert (Hclean : Stated.job_fields data ->
            forall k, In k (Js.keys dataToChange) ->
                      k <> "companyHandle" /\ Js.inherited k = None).
  { intros Hfields k Hk.
    apply delete_keys in Hk as (Hk & Hne').
    split; [exact Hne'|]. now apply (Hfields k Hk Hne'). }
  assert (Hparse : Stated.job_fields data -> dataToChange <> [] ->
            Pg.parse_set_list (String.concat ", " (Sql.cols dataToChange Job.jsToSql))
            = Some (combine (Js.keys dataToChange) (seq 1 (length dataToChange)))).
  { intros Hfields Hne. rewrite (job_cols dataToChange (Hclean Hfields)).
    unfold Js.keys. rewrite <- (length_map fst dataToChange).
    apply parse_set_list_fragments; [|now apply Hquote].
    destruct dataToChange; [contradiction | discriminate]. }
  cut ((forall e, fst (Job.update id data w) = Throw e ->
                  Pg.store (snd (Job.update id data w)) = Pg.store w)
       /\ (Stated.job_fields data ->
           forall job, fst (Job.update id data w) = Ok job ->
             let w' := snd (Job.update id data w) in
             Pg.issued w'
             = (Pg.issued w
                ++ [Pg.UpdateJobs
                      (String.concat ", " (fragments_from 0 (Js.keys dataToChange)))
                      ("$" ++ Js.decimal_nat (length dataToChange + 1))
                      (Js.values dataToChange ++ [id])])%list
             /\ map Pg.company_handle (Pg.jobs (Pg.store w'))
                = map Pg.company_handle (Pg.jobs (Pg.store w))
             /\ In job (Pg.jobs (Pg.store w'))
             /\ exists old,
                  In old (Pg.jobs (Pg.store w))
                  /\ Pg.param_in Pg.TInt id = Ok (Pg.SInt (Pg.id old))
                  /\ Pg.company_handle job = Pg.company_handle old
                  /\ (forall c ty read,
                         Pg.jobs_table c = Some (ty, read) ->
                         ~ In c (Js.keys dataToChange) ->
                         read job = read old)
                  /\ (forall k v, In (k, v) dataToChange ->
                         exists ty read,
                           Pg.jobs_table k = Some (ty, read)
                           /\ Pg.param_in ty v = Ok (read job)))).
  { intros (A & B). split; [exact A|]. split; [exact Hparse | exact B]. }
  clear Hparse.
  unfold Job.update. fold dataToChange.
  unfold Pg.bind, Pg.lift, Sql.sqlForPartialUpdate.
  destruct (length (Js.keys dataToChange) =? 0)%nat eqn:Hlen.
  { split; [reflexivity|]. intros _ job H. discriminate. }
  cbn [Sql.setCols Sql.values].
  unfold Pg.update_jobs, Pg.query.
  destruct (Pg.exec_update_jobs _ _ _ (Pg.store w)) as [[returned d']|e] eqn:Hexec.
  2:{ split; [reflexivity|]. intros _ job H. discriminate. }
  assert (Hne : dataToChange <> []).
  { intros Heq. rewrite Heq in Hlen. discriminate. }
  split.
  { intros e H. destruct returned; [|discriminate].
    cbn [Pg.throw snd Pg.store]. now apply exec_update_jobs_none in Hexec. }
  intros Hfields job Hjob.
  rewrite (job_cols dataToChange (Hclean Hfields)) in Hexec |- *.
  destruct returned as [|job' returned]; [discriminate|].
  cbn [fst snd] in *. injection Hjob as ->.
  pose proof (Hquote Hfields) as Hq.
  assert (Hcol : ~ In "company_handle" (map fst dataToChange)).
  { intros Hk. apply delete_keys in Hk as (Hk & Hne').
    now destruct (Hfields _ Hk Hne') as (_ & Habs & _). }
  unfold Js.values, Js.keys in Hexec.
  destruct (exec_update_jobs_payload dataToChange id _ _ _ Hne Hq Hexec)
    as (_ & Hframe & Hret).
  destruct (Hret job (or_introl eq_refl)) as (Hin & old & Hold & Hid & Hkeep & Hset).
  cbn [Pg.issued Pg.store].
  split; [unfold Js.values; now rewrite length_map|].
  split.
  { apply map_SText_inj.
    exact (Hframe _ _ _ company_handle_column Hcol). }
  split; [exact Hin|].
  exists old. split; [exact Hold|]. split; [exact Hid|]. split.
  { pose proof (Hkeep _ _ _ company_handle_column Hcol) as H.
    now injection H. }
  split; [exact Hkeep | exact Hset].
Qed.

(** C7.  The guard misses the column's own name.  Only the key companyHandle
    is removed from the payload; a payload that writes company_handle reaches
    the compiler and the store as it is.  Whenever such a call returns, the
    job it returns is a stored job of the given id, every other column as
    it was, and its company handle is the supplied one. *)
Theorem update_by_column_name_moves_job :
  forall (id : Js.Value) (h : string) (w : Pg.World) (job : Pg.JobRow),
    fst (Job.update id [("company_handle", Js.Str h)] w) = Ok job ->
    let w' := snd (Job.update id [("company_handle", Js.Str h)] w) in
    Pg.company_handle job = h
    /\ In job (Pg.jobs (Pg.store w'))
    /\ Pg.issued w'
       = (Pg.issued w
          ++ [Pg.UpdateJobs (Js.quoted "company_handle" ++ "=$1") "$2" [Js.Str h; id]])%list
    /\ exists old,
         In old (Pg.jobs (Pg.store w))
         /\ Pg.param_in Pg.TInt id = Ok (Pg.SInt (Pg.id old))
         /\ Pg.id job = Pg.id old /\ Pg.title job = Pg.title old
         /\ Pg.salary job = Pg.salary old /\ Pg.equity job = Pg.equity old.
Proof.
  intros id h w job.
  unfold Job.update, Pg.bind, Pg.lift, Pg.update_jobs, Pg.query.
  cbn [Js.delete filter fst negb String.eqb Ascii.eqb Bool.eqb
       Sql.sqlForPartialUpdate Js.keys Js.values map length Nat.eqb
       Sql.setCols Sql.values snd app].
  change (String.concat ", " (Sql.cols [("company_handle", Js.Str h)] Job.jsToSql))
    with (String.concat ", "
            (fragments_from 0 (map fst [("company_handle", Js.Str h)]))).
  change ("$" ++ Js.decimal_nat (1 + 1))
    with ("$" ++ Js.decimal_nat (length (map snd [("company_handle", Js.Str h)]) + 1)).
  destruct (Pg.exec_update_jobs _ _ _ (Pg.store w)) as [[returned d']|e] eqn:Hexec;
    [|discriminate].
  destruct returned as [|job' returned]; [discriminate|].
  cbn [fst snd]. intros Hjob. injection Hjob as ->.
  change [Js.Str h; id] with (map snd [("company_handle", Js.Str h)] ++ [id])%list in Hexec.
  destruct (exec_update_jobs_payload [("company_handle", Js.Str h)] id _ _ _
              ltac:(discriminate) ltac:(repeat constructor) Hexec)
    as (_ & _ & Hret).
  destruct (Hret job (or_introl eq_refl)) as (Hin & old & Hold & Hid & Hkeep & Hset).
  split.
  { destruct (Hset "company_handle" (Js.Str h) (or_introl eq_refl))
      as (ty & read & Ht & Hp).
    rewrite company_handle_column in Ht. injection Ht as <- <-.
    cbn in Hp. now injection Hp as ->. }
  split; [exact Hin|].
  split; [reflexivity|].
  exists old. split; [exact Hold|]. split; [exact Hid|].
  assert (Hother : forall c ty read,
            Pg.jobs_table c = Some (ty, read) -> c <> "company_handle" ->
            read job = read old).
  { intros c ty read Ht Hc. apply (Hkeep c ty read Ht).
    intros [Heq|[]]. now apply Hc. }
  pose proof (Hother "id" _ _ eq_refl ltac:(discriminate)) as H1.
  pose proof (Hother "title" _ _ eq_refl ltac:(discriminate)) as H2.
  pose proof (Hother "salary" _ _ eq_refl ltac:(discriminate)) as H3.
  pose proof (Hother "equity" _ _ eq_refl ltac:(discriminate)) as H4.
  cbn in H1, H2, H3, H4.
  injection H1 as H1. injection H2 as H2.
  repeat split; try assumption.
  - destruct (Pg.salary job), (Pg.salary old); cbn in H3; congruence.
  - destruct (Pg.equity job), (Pg.equity old); cbn in H4; congruence.
Qed.

End JobUpdate.

Lemma update_keeps_companyHandle_witness :
  Stated.job_fields newTitle
  /\ (exists job,
        fst (@Job.update Fixture.engine (Fixture.num 1) newTitle Fixture.world) = Ok job
        /\ Pg.company_handle job = "c1"
        /\ Pg.title job = "new-title")
  /\ map Pg.company_handle
       (Pg.jobs (Pg.store (snd (@Job.update Fixture.engine (Fixture.num 1) newTitle
                                  Fixture.world))))
     = ["c1"; "c1"; "c2"].
Proof.
  assert (F : Stated.job_fields newTitle).
  { intros k [<-|[<-|[<-|[<-|[]]]]] Hk;
      (split; [reflexivity | split; [discriminate | reflexivity]]). }
  split; [exact F|].
  destruct (@update_keeps_companyHandle Fixture.engine (Fixture.num 1) newTitle
              Fixture.world)
    as (_ & _ & _ & _ & H).
  destruct (H F _ eq_refl) as (_ & Hall & _ & old & _ & _ & Hch & _).
  split.
  - eexists. split; [reflexivity|]. split; reflexivity.
  - exact Hall.
Defined.

(** On the rows of the tests, job 1 belongs to c1; the update that names the
    column returns it as a job of c2, and stores it so. *)
Lemma update_by_column_name_moves_job_witness :
  Pg.company_handle Fixture.j1 = "c1"
  /\ exists job,
       fst (@Job.update Fixture.engine (Fixture.num 1)
              [("company_handle", Js.Str "c2")] Fixture.world)
       = Ok job
       /\ Pg.id job = Pg.id Fixture.j1
       /\ Pg.company_handle job = "c2"
       /\ In job (Pg.jobs (Pg.store (snd (@Job.update Fixture.engine (Fixture.num 1)
                    [("company_handle", Js.Str "c2")] Fixture.world)))).
Proof.
  split; [reflexivity|].
  eexists. split; [reflexivity|].
  destruct (@update_by_column_name_moves_job Fixture.engine (Fixture.num 1) "c2"
              Fixture.world _ eq_refl) as (Hh & Hin & _).
  split; [reflexivity|]. split; [exact Hh | exact Hin].
Defined.

Section JobUpdateReturns.
Context {Eng : Pg.Engine}.

(** The update does return: for every stored job (ids being unique) and
    every title, the call returns the job with the new title, and stores it. *)
Lemma update_rows_title_other (d : Pg.Db) (s : string) (i : Z) (rows : list Pg.JobRow) :
  ~ In i (map Pg.id rows) ->
  Pg.update_rows d [("title", Pg.SText s)] (Pg.SInt i) rows = Ok (rows, []).
Proof.
  induction rows as [|r rows IH]; simpl; intros H; [reflexivity|].
  rewrite IH by tauto.
  destruct (Z.eqb_spec (Pg.id r) i) as [Heq|Hne]; [|reflexivity].
  exfalso. apply H. now left.
Qed.

Lemma update_rows_title (d : Pg.Db) (s : string) (old : Pg.JobRow) (rows : list Pg.JobRow) :
  NoDup (map Pg.id rows) -> In old rows ->
  exists table,
    Pg.update_rows d [("title", Pg.SText s)] (Pg.SInt (Pg.id old)) rows
    = Ok (table, [retitled s old])
    /\ In (retitled s old) table.
Proof.
  induction rows as [|r rows IH]; simpl; intros Hnd Hin; [contradiction|].
  inversion Hnd as [|? ? Hnotin Hnd']; subst.
  destruct Hin as [->|Hin].
  - rewrite update_rows_title_other by exact Hnotin.
    rewrite Z.eqb_refl. eexists. split; [reflexivity|]. now left.
  - destruct (IH Hnd' Hin) as (table & -> & Ht).
    destruct (Z.eqb_spec (Pg.id r) (Pg.id old)) as [Heq|Hne].
    + exfalso. apply Hnotin. rewrite Heq. now apply in_map.
    + eexists. split; [reflexivity|]. now right.
Qed.

Lemma update_title_returns (s : string) (id : Js.Value) (old : Pg.JobRow) (w : Pg.World) :
  NoDup (map Pg.id (Pg.jobs (Pg.store w))) ->
  In old (Pg.jobs (Pg.store w)) ->
  Pg.param_in Pg.TInt id = Ok (Pg.SInt (Pg.id old)) ->
  fst (Job.update id [("title", Js.Str s)] w) = Ok (retitled s old)
  /\ In (retitled s old)
        (Pg.jobs (Pg.store (snd (Job.update id [("title", Js.Str s)] w)))).
Proof.
  intros Hnd Hin Hid.
  destruct (update_rows_title (Pg.store w) s old _ Hnd Hin) as (table & Hup & Ht).
  unfold Job.update, Pg.bind, Pg.lift, Pg.update_jobs, Pg.query.
  cbn [Js.delete filter fst negb String.eqb Ascii.eqb Bool.eqb
       Sql.sqlForPartialUpdate Js.keys Js.values map length Nat.eqb
       Sql.setCols Sql.values snd app].
  unfold Pg.exec_update_jobs.
  change (Pg.parse_set_list (String.concat ", " (Sql.cols [("title", Js.Str s)] Job.jsToSql)))
    with (Some [("title", 1%nat)]).
  change (Pg.parse_placeholder ("$" ++ Js.decimal_nat (1 + 1))) with (Some 2%nat).
  cbn -[Pg.param_in Pg.update_rows]. rewrite Hid.
  change (Pg.param_in Pg.TText (Js.Str s)) with (@Ok Pg.SqlValue (Pg.SText s)).
  cbv iota beta. rewrite Hup. cbn. auto.
Qed.

End JobUpdateReturns.

(** ** The equity filter *)

Section Equity.
Context {E : Pg.Engine}.

Lemma equity_test (j : Pg.JobRow) :
  Pg.sql_test Pg.OpGt (Pg.nullable Pg.SNumeric (Pg.equity j))
    (Pg.SNumeric {| Pg.unscaled := 0; Pg.scale := 0 |})
  = Stated.has_equity j.
Proof.
  unfold Stated.has_equity.
  destruct (Pg.equity j) as [q|]; [|reflexivity].
  cbn [Pg.nullable Pg.sql_test]. unfold Pg.numeric_compare.
  cbn [Pg.unscaled Pg.scale].
  change (10 ^ Z.of_nat 0)%Z with 1%Z.
  rewrite Z.mul_1_r, Z.mul_0_l.
  destruct (Z.compare_spec (Pg.unscaled q) 0) as [H|H|H]; simpl; symmetry.
  - apply Z.ltb_ge. lia.
  - apply Z.ltb_ge. lia.
  - apply Z.ltb_lt. lia.
Qed.

Lemma bind_equity_cond (args : list Js.Value) :
  exists q,
    Pg.bind_cond Pg.jobs_table args equity_cond = Ok q
    /\ forall j, q j = Stated.has_equity j.
Proof.
  eexists. split; [reflexivity|].
  intros j. apply equity_test.
Qed.

(** Adding the equity condition to a list of conditions narrows the test by
    [equity > 0] and nothing else. *)
Lemma bind_conds_and_equity (args : list Js.Value) (conds : list Pg.Cond) :
  match Pg.bind_conds Pg.jobs_table args conds with
  | Ok p =>
      exists p', Pg.bind_conds Pg.jobs_table args (conds ++ [equity_cond])%list = Ok p'
                 /\ forall j, p' j = p j && Stated.has_equity j
  | Throw e => Pg.bind_conds Pg.jobs_table args (conds ++ [equity_cond])%list = Throw e
  end.
Proof.
  induction conds as [|c conds IH].
  - cbn [app Pg.bind_conds].
    destruct (bind_equity_cond args) as (q & -> & Hq).
    eexists. split; [reflexivity|].
    intros j. cbn. now rewrite Hq, andb_true_r.
  - cbn [app Pg.bind_conds].
    destruct (Pg.bind_cond Pg.jobs_table args c) as [pc|ec].
    + destruct (Pg.bind_conds Pg.jobs_table args conds) as [p|e].
      * destruct IH as (p' & -> & Hp').
        eexists. split; [reflexivity|].
        intros j. cbn. now rewrite Hp', andb_assoc.
      * now rewrite IH.
    + reflexivity.
Qed.

Lemma filter_and {A : Type} (p q : A -> bool) (l : list A) :
  filter (fun x => p x && q x) l = filter q (filter p l).
Proof.
  induction l as [|x l IH]; simpl; [reflexivity|].
  destruct (p x); simpl; [|exact IH].
  destruct (q x); now rewrite IH.
Qed.

Lemma select_where_and_equity (rows : list Pg.JobRow) (args : list Js.Value)
    (clause clause' : string) (conds : list Pg.Cond) :
  Pg.parse_where clause = Some conds ->
  Pg.parse_where clause' = Some (conds ++ [equity_cond])%list ->
  Pg.select_where Pg.jobs_table rows clause' args
  = Pg.map_result (filter Stated.has_equity)
      (Pg.select_where Pg.jobs_table rows clause args).
Proof.
  intros H H'. unfold Pg.select_where. rewrite H, H'.
  rewrite flat_map_app. cbn [flat_map equity_cond Pg.cond_params Pg.crhs app].
  rewrite app_nil_r.
  destruct (Pg.placeholders_ok _ _); [|reflexivity].
  pose proof (bind_conds_and_equity args conds) as B.
  destruct (Pg.bind_conds Pg.jobs_table args conds) as [p|e].
  - destruct B as (p' & -> & Hp'). cbn [Pg.map_result]. f_equal.
    rewrite <- filter_and. apply filter_ext. exact Hp'.
  - now rewrite B.
Qed.

End Equity.

(** ORDER BY id and a filter commute. *)
Lemma insert_below (x : Pg.JobRow) (l : list Pg.JobRow) :
  Forall (id_le x) l -> Pg.insert Pg.by_id x l = x :: l.
Proof.
  destruct l as [|y l]; simpl; [reflexivity|].
  intros H. inversion H as [|? ? Hxy _]; subst.
  unfold Pg.by_id. unfold id_le in Hxy.
  apply Z.leb_le in Hxy. now rewrite Hxy.
Qed.

Lemma filter_insert_by_id (q : Pg.JobRow -> bool) (x : Pg.JobRow) (l : list Pg.JobRow) :
  StronglySorted id_le l ->
  filter q (Pg.insert Pg.by_id x l)
  = if q x then Pg.insert Pg.by_id x (filter q l) else filter q l.
Proof.
  induction 1 as [|y l Hl IH Hy]; simpl.
  - destruct (q x); reflexivity.
  - destruct (Pg.by_id x y) eqn:Hb.
    + assert (Hxy : id_le x y).
      { unfold Pg.by_id in Hb. now apply Z.leb_le in Hb. }
      simpl. destruct (q x); [|reflexivity].
      symmetry. apply insert_below.
      assert (Hall : Forall (id_le x) (y :: l)).
      { constructor; [exact Hxy|].
        eapply Forall_impl; [|exact Hy]. intros z Hz. unfold id_le in *. lia. }
      apply Forall_forall. intros z Hz.
      rewrite Forall_forall in Hall. apply Hall.
      change (In z (filter q (y :: l))) in Hz.
      now apply filter_In in Hz as (Hz & _).
    + simpl. rewrite IH.
      destruct (q y); destruct (q x); try reflexivity.
      simpl. now rewrite Hb.
Qed.

Lemma filter_order_by_id (q : Pg.JobRow -> bool) (l : list Pg.JobRow) :
  filter q (Pg.order_by Pg.by_id l) = Pg.order_by Pg.by_id (filter q l).
Proof.
  induction l as [|x l IH]; simpl; [reflexivity|].
  rewrite filter_insert_by_id by apply order_by_id_sorted.
  rewrite IH. destruct (q x); reflexivity.
Qed.

Section EquityFilter.
Context {R : Js.Runtime} {E : Pg.Engine}.

(** With [hasEquity] truthy the compiled clause is the clause without it,
    followed by the equity condition. *)
Lemma job_build_equity_parses (t m h : Js.Value) :
  Js.truthy h = true ->
  exists conds,
    Pg.parse_where (Job.whereClause (Job.build t m Js.Null)) = Some conds
    /\ Pg.parse_where (Job.whereClause (Job.build t m h)) = Some (conds ++ [equity_cond])%list
    /\ Job.args (Job.build t m h) = Job.args (Job.build t m Js.Null).
Proof.
  intros H.
  unfold Job.build, Job.addEquity, Job.addMinSalary, Job.addTitle.
  rewrite H. cbn [Js.truthy].
  by_truthiness t; by_truthiness m;
    eexists; (split; [vm_compute; reflexivity | split; [vm_compute; reflexivity | reflexivity]]).
Qed.

(** Job.findAll with [hasEquity] truthy returns the jobs it returns without
    it that have equity above zero, and fails where it fails without it; with
    [hasEquity] false, null or undefined it applies no equity condition. *)
Lemma findAll_hasEquity (t m h : Js.Value) (w : Pg.World) :
  (Js.truthy h = true ->
   fst (Job.findAll t m h w)
   = Pg.map_result (filter Stated.has_equity) (fst (Job.findAll t m Js.Null w)))
  /\ (Js.truthy h = false -> Job.findAll t m h w = Job.findAll t m Js.Null w).
Proof.
  split; intros H.
  - unfold Job.findAll. cbv zeta.
    change (Js.default_null Js.Null) with Js.Null.
    rewrite <- truthy_default_null in H.
    destruct (job_build_equity_parses (Js.default_null t) (Js.default_null m)
                (Js.default_null h) H) as (conds & P0 & P1 & A).
    unfold Pg.bind, Pg.select_jobs, Pg.query, Pg.reading.
    rewrite A.
    rewrite (select_where_and_equity _ _ _ _ conds P0 P1).
    destruct (Pg.select_where Pg.jobs_table (Pg.jobs (Pg.store w)) _ _) as [rows|e];
      cbn [Pg.map_result fst Pg.ret]; [|reflexivity].
    now rewrite filter_order_by_id.
  - now destruct (job_findAll_falsy h t m w H) as (_ & _ & ->).
Qed.

(** C6 on the route.  GET /jobs with hasEquity=false passes the string
    "false" to Job.findAll, a non-empty string, and the answer holds only the
    jobs with equity above zero. *)
Theorem getJobs_hasEquity_false_restricts :
  forall (w : Pg.World),
    Routes.getJobs [("hasEquity", "false")] w
    = Job.findAll Js.Undefined Js.Undefined (Js.Str "false") w
    /\ fst (Routes.getJobs [("hasEquity", "false")] w)
       = Ok (Pg.order_by Pg.by_id (filter Stated.has_equity (Pg.jobs (Pg.store w))))
    /\ fst (Routes.getJobs [] w) = Ok (Pg.order_by Pg.by_id (Pg.jobs (Pg.store w))).
Proof.
  intros w. split; [reflexivity|]. split.
  - change (Routes.getJobs [("hasEquity", "false")] w)
      with (Job.findAll Js.Undefined Js.Undefined (Js.Str "false") w).
    rewrite (proj1 (findAll_hasEquity Js.Undefined Js.Undefined (Js.Str "false") w) eq_refl).
    cbn. rewrite filter_order_by_id. f_equal. f_equal.
    now rewrite filter_true.
  - cbn. f_equal. f_equal. now rewrite filter_true.
Qed.

End EquityFilter.

(** On the test rows: all three jobs without the parameter, the two with
    equity for hasEquity=true and for hasEquity=false alike. *)
Lemma getJobs_hasEquity_on_test_rows :
  fst (@Routes.getJobs Fixture.runtime Fixture.engine [] Fixture.world)
  = Ok [Fixture.j1; Fixture.j2; Fixture.j3]
  /\ fst (@Routes.getJobs Fixture.runtime Fixture.engine [("hasEquity", "true")] Fixture.world)
     = Ok [Fixture.j2; Fixture.j3]
  /\ fst (@Routes.getJobs Fixture.runtime Fixture.engine [("hasEquity", "false")] Fixture.world)
     = Ok [Fixture.j2; Fixture.j3].
Proof. repeat split; reflexivity. Qed.

(** * Further properties of the compilers and the list endpoints *)

(** ** The SET list and its parameters *)

Lemma mapi_from_map {A B C : Type} (g : A -> B) (f : B -> nat -> C) (l : list A) :
  forall idx,
    Js.mapi_from (fun x i => f (g x) i) idx l = Js.mapi_from f idx (map g l).
Proof.
  induction l as [|x l IH]; intros idx; simpl; [reflexivity|].
  now rewrite IH.
Qed.

Lemma map_snd_combine_seq {A : Type} (l : list A) :
  forall start, map snd (combine l (seq start (length l))) = seq start (length l).
Proof.
  induction l as [|x l IH]; intros start; simpl; [reflexivity|].
  now rewrite IH.
Qed.

Lemma placeholders_ok_seq (n : nat) : Pg.placeholders_ok (seq 1 n) n = true.
Proof.
  unfold Pg.placeholders_ok. apply andb_true_iff. split.
  - apply forallb_forall. intros i Hi. apply in_seq in Hi.
    apply andb_true_iff. split; apply Nat.leb_le; lia.
  - apply forallb_forall. intros i Hi.
    apply existsb_exists. exists i. split; [exact Hi | apply Nat.eqb_refl].
Qed.

Lemma mapi_from_combine (l : list string) :
  forall idx,
    Js.mapi_from Sql.fragment idx l
    = map (fun ci => Js.quoted (fst ci) ++ "=$" ++ Js.decimal_nat (snd ci))
          (combine l (seq (idx + 1) (length l))).
Proof.
  induction l as [|c l IH]; intros idx; [reflexivity|].
  cbn [Js.mapi_from length seq combine map fst snd].
  rewrite (IH (S idx)). reflexivity.
Qed.

(** The compiled update, as text and as the store reads it.  [setCols] is
    one assignment per field, in the order of the fields and joined by a
    comma and a blank: the field's column between double quotes, an equals
    sign, and the placeholder $i of the field's position i, counted from 1;
    [values] are the fields' values in the same order.  When the columns
    hold no double quote, the store reads [setCols] as exactly these
    assignments; the placeholder the callers append for the key is the next
    one; and the placeholders of the statement are exactly those of its
    parameters, the values and the key. *)
Theorem setCols_reads_back :
  forall (dataToUpdate : Js.Obj) (jsToSql : list (string * string))
         (u : Sql.PartialUpdate) (key : Js.Value),
    Forall (fun k => Stated.quote_free (Sql.column jsToSql k) = true)
           (Js.keys dataToUpdate) ->
    Sql.sqlForPartialUpdate dataToUpdate jsToSql = Ok u ->
    let columns := map (Sql.column jsToSql) (Js.keys dataToUpdate) in
    let n := length dataToUpdate in
    Sql.setCols u
    = String.concat ", "
        (map (fun ci => Js.quoted (fst ci) ++ "=$" ++ Js.decimal_nat (snd ci))
             (combine columns (seq 1 n)))
    /\ Sql.values u = map snd dataToUpdate
    /\ Pg.parse_set_list (Sql.setCols u) = Some (combine columns (seq 1 n))
    /\ Pg.parse_placeholder ("$" ++ Js.decimal_nat (length (Sql.values u) + 1))
       = Some (n + 1)%nat
    /\ Pg.placeholders_ok (map snd (combine columns (seq 1 n)) ++ [(n + 1)%nat])
         (length (Sql.values u ++ [key])%list) = true.
Proof.
  intros data jsToSql u key Hq Hu columns n.
  unfold Sql.sqlForPartialUpdate in Hu.
  destruct (length (Js.keys data) =? 0)%nat eqn:Hlen; [discriminate|].
  injection Hu as <-. cbn [Sql.setCols Sql.values].
  assert (Hcols : length columns = n).
  { unfold columns, Js.keys, n. now rewrite !length_map. }
  split; [|split; [|split; [|split]]].
  - unfold Sql.cols, Js.mapi.
    rewrite (mapi_from_map (Sql.column jsToSql) Sql.fragment).
    fold columns. rewrite mapi_from_combine, Hcols. reflexivity.
  - reflexivity.
  - unfold Sql.cols, Js.mapi.
    rewrite (mapi_from_map (Sql.column jsToSql) Sql.fragment).
    fold columns. rewrite <- Hcols.
    apply parse_set_list_fragments.
    + intros Heq. unfold columns in Heq. apply map_eq_nil in Heq.
      rewrite Heq in Hlen. discriminate.
    + unfold columns. apply Forall_map. exact Hq.
  - unfold Js.values. rewrite length_map. apply parse_placeholder_decimal.
  - rewrite <- Hcols at 1. rewrite map_snd_combine_seq, Hcols.
    rewrite length_app. unfold Js.values. rewrite length_map. fold n.
    cbn [length]. replace (n + 1)%nat with (S n) by lia.
    rewrite <- seq_S. apply placeholders_ok_seq.
Qed.

Lemma setCols_reads_back_witness :
  (exists u,
      Sql.sqlForPartialUpdate
        [("numEmployees", Fixture.num 10); ("name", Js.Str "New")]
        [("numEmployees", "num_employees"); ("logoUrl", "logo_url")] = Ok u
      /\ Sql.setCols u
         = Js.quoted "num_employees" ++ "=$1, " ++ Js.quoted "name" ++ "=$2"
      /\ Pg.parse_set_list (Sql.setCols u) = Some [("num_employees", 1%nat); ("name", 2%nat)])
  /\ (exists u,
      Sql.sqlForPartialUpdate [("constructor", Fixture.num 1)] [] = Ok u
      /\ Pg.parse_set_list (Sql.setCols u)
         = Some [("function Object() { [native code] }", 1%nat)]).
Proof.
  split.
  - eexists. split; [reflexivity|].
    pose proof (setCols_reads_back
                  [("numEmployees", Fixture.num 10); ("name", Js.Str "New")]
                  [("numEmployees", "num_employees"); ("logoUrl", "logo_url")]
                  _ Js.Null ltac:(repeat constructor) eq_refl) as (T & _ & P & _).
    split; [exact T | exact P].
  - eexists. split; [reflexivity|].
    pose proof (setCols_reads_back [("constructor", Fixture.num 1)] []
                  _ Js.Null ltac:(repeat constructor) eq_refl) as (_ & _ & P & _).
    exact P.
Defined.

(** ** What the filters select *)

Lemma holds_le (k n : Z) : Pg.holds Pg.OpLe (k ?= n)%Z = (k <=? n)%Z.
Proof.
  destruct (Z.compare_spec k n) as [Heq|Hlt|Hgt]; simpl; symmetry.
  - apply Z.leb_le. lia.
  - apply Z.leb_le. lia.
  - apply Z.leb_gt. lia.
Qed.

Section Selections.
Context {R : Js.Runtime} {E : Pg.Engine}.

Lemma select_where_max (rows : list Pg.CompanyRow) (v : Js.Value) (n : Z) :
  Pg.param_in Pg.TInt v = Ok (Pg.SInt n) ->
  Pg.select_where Pg.companies_table rows "WHERE num_employees <= $1 " [v]
  = Ok (filter (at_most n) rows).
Proof.
  intros Hv. unfold Pg.select_where.
  change (Pg.parse_where "WHERE num_employees <= $1 ")
    with (Some [{| Pg.ccol := "num_employees"; Pg.cop := Pg.OpLe; Pg.crhs := Pg.Param 1 |}]).
  cbn -[Pg.param_in]. rewrite Hv. f_equal. apply filter_ext. intros r.
  unfold at_most.
  destruct (Pg.num_employees r) as [k|]; cbn; [|reflexivity].
  rewrite andb_true_r, <- holds_le. reflexivity.
Qed.

Lemma select_where_range (rows : list Pg.CompanyRow) (va vb : Js.Value) (a b : Z) :
  Pg.param_in Pg.TInt va = Ok (Pg.SInt a) ->
  Pg.param_in Pg.TInt vb = Ok (Pg.SInt b) ->
  Pg.select_where Pg.companies_table rows
    "WHERE num_employees >= $1 AND num_employees <= $2 " [va; vb]
  = Ok (filter (within a b) rows).
Proof.
  intros Ha Hb. unfold Pg.select_where.
  change (Pg.parse_where "WHERE num_employees >= $1 AND num_employees <= $2 ")
    with (Some [{| Pg.ccol := "num_employees"; Pg.cop := Pg.OpGe; Pg.crhs := Pg.Param 1 |};
                {| Pg.ccol := "num_employees"; Pg.cop := Pg.OpLe; Pg.crhs := Pg.Param 2 |}]).
  cbn -[Pg.param_in]. rewrite Ha, Hb. f_equal. apply filter_ext. intros r.
  unfold within, Stated.at_least, at_most.
  destruct (Pg.num_employees r) as [k|]; cbn; [|reflexivity].
  rewrite andb_true_r.
  change (Pg.holds Pg.OpGe (k ?= a)%Z && Pg.holds Pg.OpLe (k ?= b)%Z = (a <=? k)%Z && (k <=? b)%Z).
  now rewrite holds_ge, holds_le.
Qed.

Lemma select_where_salary (rows : list Pg.JobRow) (v : Js.Value) (n : Z) :
  Pg.param_in Pg.TInt v = Ok (Pg.SInt n) ->
  Pg.select_where Pg.jobs_table rows "WHERE salary >= $1 " [v]
  = Ok (filter (pays_at_least n) rows).
Proof.
  intros Hv. unfold Pg.select_where.
  change (Pg.parse_where "WHERE salary >= $1 ")
    with (Some [{| Pg.ccol := "salary"; Pg.cop := Pg.OpGe; Pg.crhs := Pg.Param 1 |}]).
  cbn -[Pg.param_in]. rewrite Hv. f_equal. apply filter_ext. intros r.
  unfold pays_at_least.
  destruct (Pg.salary r) as [k|]; cbn; [|reflexivity].
  rewrite andb_true_r, <- holds_ge. reflexivity.
Qed.

Lemma select_where_salary_refused (rows : list Pg.JobRow) (v : Js.Value) (e : Error) :
  Pg.param_in Pg.TInt v = Throw e ->
  Pg.select_where Pg.jobs_table rows "WHERE salary >= $1 " [v] = Throw e.
Proof.
  intros Hv. unfold Pg.select_where.
  change (Pg.parse_where "WHERE salary >= $1 ")
    with (Some [{| Pg.ccol := "salary"; Pg.cop := Pg.OpGe; Pg.crhs := Pg.Param 1 |}]).
  cbn -[Pg.param_in]. now rewrite Hv.
Qed.

Lemma truthy_nonzero (n : Z) : n <> 0%Z -> Js.truthy (Js.Number (Js.Int n)) = true.
Proof. intros H. simpl. apply negb_true_iff. now apply Z.eqb_neq. Qed.

Lemma in_ordered_filter {A : Type} (leb : A -> A -> bool) (p : A -> bool)
    (rows : list A) (x : A) :
  In x (Pg.order_by leb (filter p rows)) <-> In x rows /\ p x = true.
Proof.
  rewrite <- filter_In. split; intros H.
  - exact (Permutation_in _ (order_by_perm leb _) H).
  - exact (Permutation_in _ (Permutation_sym (order_by_perm leb _)) H).
Qed.

(** A range of employees.  With only maxEmployees supplied, a whole number
    [b] other than 0 that the integer column holds, Company.findAll returns
    exactly the companies whose number of employees is recorded and at most
    [b]; with minEmployees [a] and maxEmployees [b], both such numbers and
    [a] not above [b], exactly those with a recorded number between [a] and
    [b]; both times each company once, and in name order: the name of each
    company returned ranks, in the collation of the store, no higher than
    the names of those after it. *)
Theorem findAll_employee_range :
  forall (nameFilter : Js.Value) (w : Pg.World),
    Js.not_nullish nameFilter = false ->
    (forall (b : Z) (minEmployees : Js.Value),
        b <> 0%Z -> fits_int4 b -> Js.not_nullish minEmployees = false ->
        exists rows,
          fst (Company.findAll nameFilter minEmployees (Js.Number (Js.Int b)) w) = Ok rows
          /\ Permutation rows (filter (at_most b) (Pg.companies (Pg.store w)))
          /\ StronglySorted name_le rows
          /\ forall c, In c rows
               <-> In c (Pg.companies (Pg.store w))
                   /\ exists k, Pg.num_employees c = Some k /\ (k <= b)%Z)
    /\ (forall a b : Z,
        a <> 0%Z -> b <> 0%Z -> fits_int4 a -> fits_int4 b -> (a <= b)%Z ->
        exists rows,
          fst (Company.findAll nameFilter (Js.Number (Js.Int a)) (Js.Number (Js.Int b)) w)
          = Ok rows
          /\ Permutation rows (filter (within a b) (Pg.companies (Pg.store w)))
          /\ StronglySorted name_le rows
          /\ forall c, In c rows
               <-> In c (Pg.companies (Pg.store w))
                   /\ exists k, Pg.num_employees c = Some k /\ (a <= k <= b)%Z).
Proof.
  intros nameFilter w Hname. split.
  - intros b mn Hb Hfit Hmn.
    unfold Company.findAll. cbv zeta.
    rewrite minGreaterThanMax_default_null.
    rewrite (default_null_nullish _ Hname), (default_null_nullish _ Hmn).
    assert (C : Company.minGreaterThanMax mn (Js.Number (Js.Int b)) = false).
    { unfold Company.minGreaterThanMax. now rewrite Hmn. }
    rewrite C.
    unfold Company.build, Company.addMax, Company.addMin, Company.addName.
    simpl Js.default_null. rewrite (truthy_nonzero b Hb). simpl Js.truthy. cbv iota.
    unfold Pg.bind, Pg.select_companies, Pg.query, Pg.reading, Pg.map_result.
    cbn [Company.whereClause Company.args Company.argIndex Company.start].
    change ((EmptyString ++ Company.keyword 1) ++ "num_employees <= $" ++ Js.decimal_nat 1 ++ " ")
      with "WHERE num_employees <= $1 ".
    cbn [app]. rewrite (select_where_max _ _ b (param_in_whole b Hfit)).
    eexists. split; [reflexivity|]. split; [apply order_by_perm|].
    split; [apply order_by_name_sorted|].
    intros c. rewrite in_ordered_filter. unfold at_most.
    split.
    + intros (Hc & Hk). split; [exact Hc|].
      destruct (Pg.num_employees c) as [k|]; [|discriminate].
      exists k. split; [reflexivity|]. now apply Z.leb_le.
    + intros (Hc & k & Hk & Hle). split; [exact Hc|].
      rewrite Hk. now apply Z.leb_le.
  - intros a b Ha Hb Hfa Hfb Hab.
    unfold Company.findAll. cbv zeta.
    rewrite minGreaterThanMax_default_null.
    rewrite (default_null_nullish _ Hname).
    assert (C : Company.minGreaterThanMax (Js.Number (Js.Int a)) (Js.Number (Js.Int b)) = false).
    { unfold Company.minGreaterThanMax. rewrite lt_whole. simpl. apply Z.ltb_ge. exact Hab. }
    rewrite C.
    unfold Company.build, Company.addMax, Company.addMin, Company.addName.
    simpl Js.default_null.
    rewrite (truthy_nonzero a Ha), (truthy_nonzero b Hb). simpl Js.truthy. cbv iota.
    unfold Pg.bind, Pg.select_companies, Pg.query, Pg.reading, Pg.map_result.
    cbn [Company.whereClause Company.args Company.argIndex Company.start].
    change (((EmptyString ++ Company.keyword 1) ++ "num_employees >= $" ++ Js.decimal_nat 1 ++ " ")
              ++ Company.keyword 2) with "WHERE num_employees >= $1 AND ".
    change (("WHERE num_employees >= $1 AND ") ++ "num_employees <= $" ++ Js.decimal_nat 2 ++ " ")
      with "WHERE num_employees >= $1 AND num_employees <= $2 ".
    cbn [app].
    rewrite (select_where_range _ _ _ a b (param_in_whole a Hfa) (param_in_whole b Hfb)).
    eexists. split; [reflexivity|]. split; [apply order_by_perm|].
    split; [apply order_by_name_sorted|].
    intros c. rewrite in_ordered_filter. unfold within, Stated.at_least, at_most.
    split.
    + intros (Hc & Hk). split; [exact Hc|].
      destruct (Pg.num_employees c) as [k|]; [|discriminate].
      apply andb_true_iff in Hk as (H1 & H2).
      exists k. split; [reflexivity|].
      apply Z.leb_le in H1. apply Z.leb_le in H2. lia.
    + intros (Hc & k & Hk & Hle). split; [exact Hc|].
      rewrite Hk. apply andb_true_iff. split; apply Z.leb_le; lia.
Qed.

(** What [Job.findAll] does with a minimum salary alone: the argument sent
    is the template string of the value. *)
Lemma findAll_salary_alone (t v h : Js.Value) (w : Pg.World) :
  Js.truthy t = false -> Js.truthy h = false -> Js.truthy v = true ->
  fst (Job.findAll t v h w)
  = Pg.map_result (Pg.order_by Pg.by_id)
      (Pg.select_where Pg.jobs_table (Pg.jobs (Pg.store w))
         "WHERE salary >= $1 " [Js.Str (Js.ToString v)]).
Proof.
  intros Ht Hh Hv.
  unfold Job.findAll. cbv zeta.
  apply default_null_falsy in Ht. apply default_null_falsy in Hh.
  rewrite (default_null_not_nullish v (truthy_not_nullish v Hv)).
  unfold Job.build, Job.addEquity, Job.addMinSalary, Job.addTitle.
  rewrite Ht, Hh, Hv.
  unfold Pg.bind, Pg.select_jobs, Pg.query, Pg.reading.
  cbn [Job.whereClause Job.args Job.argIndex Job.start app].
  change ((EmptyString ++ Job.keyword 1) ++ "salary >= $" ++ Js.decimal_nat 1 ++ " ")
    with "WHERE salary >= $1 ".
  destruct (Pg.select_where _ _ _ _); reflexivity.
Qed.

(** The minimum salary.  Job.findAll with only minSalary supplied returns
    exactly the jobs whose salary is recorded and at least [n], each once and
    in ascending id order, when minSalary is the whole number [n], other
    than 0 and within the integer column's range, and when it is a non-empty
    string the store reads as the integer [n] (what the route passes): the
    argument sent is the template string of the value.  When the store
    refuses that string, the call throws the store's error. *)
Theorem findAll_minSalary :
  forall (titleFilter hasEquity : Js.Value) (w : Pg.World) (n : Z),
    Js.truthy titleFilter = false -> Js.truthy hasEquity = false ->
    let selects (rows : list Pg.JobRow) :=
      Permutation rows (filter (pays_at_least n) (Pg.jobs (Pg.store w)))
      /\ StronglySorted id_le rows
      /\ forall j, In j rows
           <-> In j (Pg.jobs (Pg.store w))
               /\ exists k, Pg.salary j = Some k /\ (n <= k)%Z in
    (n <> 0%Z -> fits_int4 n ->
     exists rows,
       fst (Job.findAll titleFilter (Js.Number (Js.Int n)) hasEquity w) = Ok rows
       /\ selects rows)
    /\ (forall s, s <> EmptyString ->
                  Pg.param_in Pg.TInt (Js.Str s) = Ok (Pg.SInt n) ->
                  exists rows,
                    fst (Job.findAll titleFilter (Js.Str s) hasEquity w) = Ok rows
                    /\ selects rows)
    /\ (forall minSalary e,
          Js.truthy minSalary = true ->
          Pg.param_in Pg.TInt (Js.Str (Js.ToString minSalary)) = Throw e ->
          fst (Job.findAll titleFilter minSalary hasEquity w) = Throw e).
Proof.
  intros t h w n Ht Hh selects.
  assert (Hsel : selects (Pg.order_by Pg.by_id
                            (filter (pays_at_least n) (Pg.jobs (Pg.store w))))).
  { split; [apply order_by_perm|]. split; [apply order_by_id_sorted|].
    intros j. rewrite in_ordered_filter. unfold pays_at_least.
    split.
    - intros (Hj & Hk). split; [exact Hj|].
      destruct (Pg.salary j) as [k|]; [|discriminate].
      exists k. split; [reflexivity|]. now apply Z.leb_le.
    - intros (Hj & k & Hk & Hle). split; [exact Hj|].
      rewrite Hk. now apply Z.leb_le. }
  split; [|split].
  - intros Hn Hfit.
    rewrite (findAll_salary_alone t _ h w Ht Hh (truthy_nonzero n Hn)).
    rewrite (ToString_whole n (fits_int4_short n Hfit)).
    rewrite (select_where_salary _ _ n
               (param_in_text _ n (plain_integer_decimal n) Hfit)).
    eexists. split; [reflexivity | exact Hsel].
  - intros s Hs Hp.
    rewrite (findAll_salary_alone t (Js.Str s) h w Ht Hh);
      [|simpl; apply negb_true_iff; now apply String.eqb_neq].
    cbn [Js.ToString]. rewrite (select_where_salary _ _ n Hp).
    eexists. split; [reflexivity | exact Hsel].
  - intros v e Hv He.
    rewrite (findAll_salary_alone t v h w Ht Hh Hv).
    now rewrite (select_where_salary_refused _ _ e He).
Qed.

End Selections.

Lemma findAll_employee_range_witness :
  (exists rows,
     fst (@Company.findAll Fixture.runtime Fixture.engine
            Js.Null Js.Null (Fixture.num 2) Fixture.world) = Ok rows
     /\ Permutation rows [Fixture.c1; Fixture.c2]
     /\ StronglySorted (@name_le Fixture.engine) rows)
  /\ (exists rows,
        fst (@Company.findAll Fixture.runtime Fixture.engine
               Js.Null (Fixture.num 3) (Fixture.num 5) Fixture.world) = Ok rows
        /\ Permutation rows [Fixture.c3]).
Proof.
  destruct (@findAll_employee_range Fixture.runtime Fixture.engine
              Js.Null Fixture.world eq_refl) as (M & B).
  assert (N2 : 2%Z <> 0%Z) by discriminate.
  assert (N3 : 3%Z <> 0%Z) by discriminate.
  assert (N5 : 5%Z <> 0%Z) by discriminate.
  assert (F2 : fits_int4 2) by (unfold fits_int4; lia).
  assert (F3 : fits_int4 3) by (unfold fits_int4; lia).
  assert (F5 : fits_int4 5) by (unfold fits_int4; lia).
  assert (L : (3 <= 5)%Z) by discriminate.
  split.
  - destruct (M 2%Z Js.Null N2 F2 eq_refl) as (rows & H & P & S & _).
    exists rows. split; [exact H|]. split; [exact P | exact S].
  - destruct (B 3%Z 5%Z N3 N5 F3 F5 L) as (rows & H & P & _).
    exists rows. split; [exact H | exact P].
Defined.

Lemma findAll_minSalary_witness :
  (exists rows,
     fst (@Job.findAll Fixture.engine Js.Null (Fixture.num 65000) Js.Null Fixture.world)
     = Ok rows
     /\ Permutation rows [Fixture.j3])
  /\ (exists rows,
        fst (@Job.findAll Fixture.engine Js.Undefined (Js.Str " 65000") Js.Undefined
               Fixture.world)
        = Ok rows
        /\ Permutation rows [Fixture.j3])
  /\ fst (@Job.findAll Fixture.engine Js.Undefined (Js.Str "65000.5") Js.Undefined
            Fixture.world)
     = Throw (Pg.invalid_input "integer" "65000.5").
Proof.
  assert (N : 65000%Z <> 0%Z) by discriminate.
  assert (F : fits_int4 65000) by (unfold fits_int4; lia).
  assert (S : " 65000" <> EmptyString) by discriminate.
  split; [|split].
  - destruct (proj1 (@findAll_minSalary Fixture.engine Js.Null Js.Null Fixture.world
                       65000%Z eq_refl eq_refl) N F) as (rows & H & P & _).
    exists rows. split; [exact H | exact P].
  - destruct (proj1 (proj2 (@findAll_minSalary Fixture.engine Js.Undefined Js.Undefined
                              Fixture.world 65000%Z eq_refl eq_refl))
                " 65000" S eq_refl) as (rows & H & P & _).
    exists rows. split; [exact H | exact P].
  - exact (proj2 (proj2 (@findAll_minSalary Fixture.engine Js.Undefined Js.Undefined
                           Fixture.world 0%Z eq_refl eq_refl))
             (Js.Str "65000.5") _ eq_refl eq_refl).
Defined.

(** ** What findAll returns, whatever the filters *)

Section Listing.
Context {R : Js.Runtime} {E : Pg.Engine}.

Lemma select_where_filters {Row : Type} (tbl : Pg.Table Row) (rows l : list Row)
    (clause : string) (args : list Js.Value) :
  Pg.select_where tbl rows clause args = Ok l -> exists p, l = filter p rows.
Proof.
  unfold Pg.select_where.
  destruct (Pg.parse_where clause) as [conds|]; [|discriminate].
  destruct (Pg.placeholders_ok _ _); [|discriminate].
  destruct (Pg.bind_conds tbl args conds) as [p|e]; [|discriminate].
  intros H. injection H as <-. now exists p.
Qed.

Lemma filter_length_le {A : Type} (p : A -> bool) (l : list A) :
  (length (filter p l) <= length l)%nat.
Proof.
  induction l as [|x l IH]; simpl; [lia|].
  destruct (p x); simpl; lia.
Qed.

(** Listing never invents, repeats or changes anything.  Whatever the filter
    values, the rows Company.findAll and Job.findAll return are rows of the
    table, no more of them than the table holds; the jobs come in ascending
    id order; and the store is the same after the call, whether it returns or
    throws. *)
Theorem findAll_lists_stored_rows :
  forall (a b c : Js.Value) (w : Pg.World),
    (forall rows, fst (Company.findAll a b c w) = Ok rows ->
        (forall r, In r rows -> In r (Pg.companies (Pg.store w)))
        /\ (length rows <= length (Pg.companies (Pg.store w)))%nat)
    /\ (forall rows, fst (Job.findAll a b c w) = Ok rows ->
        (forall r, In r rows -> In r (Pg.jobs (Pg.store w)))
        /\ (length rows <= length (Pg.jobs (Pg.store w)))%nat
        /\ StronglySorted id_le rows)
    /\ Pg.store (snd (Company.findAll a b c w)) = Pg.store w
    /\ Pg.store (snd (Job.findAll a b c w)) = Pg.store w.
Proof.
  intros a b c w. split; [|split; [|split]].
  - intros rows. unfold Company.findAll. cbv zeta.
    destruct (Company.minGreaterThanMax _ _); [discriminate|].
    unfold Pg.bind, Pg.select_companies, Pg.query, Pg.reading, Pg.map_result.
    destruct (Pg.select_where _ _ _ _) as [l|e] eqn:Hsel; [|discriminate].
    cbn. intros H. injection H as <-.
    destruct (select_where_filters _ _ _ _ _ Hsel) as (p & ->).
    split.
    + intros r Hr. now apply in_ordered_filter in Hr as (Hr & _).
    + rewrite (Permutation_length (order_by_perm Pg.by_name _)).
      apply filter_length_le.
  - intros rows. unfold Job.findAll. cbv zeta.
    unfold Pg.bind, Pg.select_jobs, Pg.query, Pg.reading, Pg.map_result.
    destruct (Pg.select_where _ _ _ _) as [l|e] eqn:Hsel; [|discriminate].
    cbn. intros H. injection H as <-.
    destruct (select_where_filters _ _ _ _ _ Hsel) as (p & ->).
    split; [|split].
    + intros r Hr. now apply in_ordered_filter in Hr as (Hr & _).
    + rewrite (Permutation_length (order_by_perm Pg.by_id _)).
      apply filter_length_le.
    + apply order_by_id_sorted.
  - unfold Company.findAll. cbv zeta.
    destruct (Company.minGreaterThanMax _ _); [reflexivity|].
    unfold Pg.bind, Pg.select_companies, Pg.query, Pg.reading, Pg.map_result.
    destruct (Pg.select_where _ _ _ _); reflexivity.
  - unfold Job.findAll. cbv zeta.
    unfold Pg.bind, Pg.select_jobs, Pg.query, Pg.reading, Pg.map_result.
    destruct (Pg.select_where _ _ _ _); reflexivity.
Qed.

(** ** The query checks, exactly *)

Lemma checkCompanyGetQuery_from_accepts (queries : Routes.Query) (keys : list string) :
  (forall k, In k keys -> ~ company_param_refused queries k) ->
  Routes.checkCompanyGetQuery_from queries keys = None.
Proof.
  induction keys as [|q keys IH]; intros H; [reflexivity|].
  simpl.
  destruct (negb (q =? "maxEmployees") && negb (q =? "minEmployees")
            && negb (q =? "name")) eqn:Hunknown.
  { exfalso. apply (H q (or_introl eq_refl)). left.
    apply andb_true_iff in Hunknown as (Hu & H3).
    apply andb_true_iff in Hu as (H1 & H2).
    apply negb_true_iff, String.eqb_neq in H1, H2, H3.
    intros [A|[A|A]]; congruence. }
  destruct (((q =? "minEmployees") || (q =? "maxEmployees"))
            && Js.isNaN (Routes.param queries q)) eqn:Hnan.
  { exfalso. apply (H q (or_introl eq_refl)). right.
    apply andb_true_iff in Hnan as (Hk & Hn).
    apply orb_true_iff in Hk. split; [|exact Hn].
    destruct Hk as [Hk|Hk]; apply String.eqb_eq in Hk; auto. }
  apply IH. intros k Hk. apply H. now right.
Qed.

Lemma checkJobGetQuery_from_accepts (queries : Routes.Query) (keys : list string) :
  (forall k, In k keys -> ~ job_param_refused queries k) ->
  Routes.checkJobGetQuery_from queries keys = None.
Proof.
  induction keys as [|q keys IH]; intros H; [reflexivity|].
  simpl.
  destruct (negb (q =? "titleFilter") && negb (q =? "minSalary")
            && negb (q =? "hasEquity")) eqn:Hunknown.
  { exfalso. apply (H q (or_introl eq_refl)). left.
    apply andb_true_iff in Hunknown as (Hu & H3).
    apply andb_true_iff in Hu as (H1 & H2).
    apply negb_true_iff, String.eqb_neq in H1, H2, H3.
    intros [A|[A|A]]; congruence. }
  destruct ((q =? "minSalary") && Js.isNaN (Routes.param queries q)) eqn:Hnan.
  { exfalso. apply (H q (or_introl eq_refl)). right.
    apply andb_true_iff in Hnan as (Hk & Hn).
    apply String.eqb_eq in Hk. auto. }
  apply IH. intros k Hk. apply H. now right.
Qed.

(** The checks let a query through exactly when none of its parameters is
    one they refuse: every name is in the filter set and every minimum or
    maximum converts to a number.  In particular the value of name,
    titleFilter and hasEquity is never looked at. *)
Theorem query_checks_accept_exactly :
  forall (query : Routes.Query),
    (Routes.checkCompanyGetQuery query = None
     <-> forall k, In k (map fst query) -> ~ company_param_refused query k)
    /\ (Routes.checkJobGetQuery query = None
        <-> forall k, In k (map fst query) -> ~ job_param_refused query k).
Proof.
  intros query. split; split.
  - intros Hnone k Hk Hbad.
    destruct (checkCompanyGetQuery_from_refuses query (map fst query)) as (e & He);
      [now exists k|].
    unfold Routes.checkCompanyGetQuery in Hnone. congruence.
  - apply checkCompanyGetQuery_from_accepts.
  - intros Hnone k Hk Hbad.
    destruct (checkJobGetQuery_from_refuses query (map fst query)) as (e & He);
      [now exists k|].
    unfold Routes.checkJobGetQuery in Hnone. congruence.
  - apply checkJobGetQuery_from_accepts.
Qed.

(** ** GET /companies, end to end *)

(** With no query parameter GET /companies lists every company, each once,
    in name order: the name of each company returned ranks, in the collation
    of the store, no higher than the names of those after it.  The absent
    minimum and maximum reach findAll as NaN, which neither trips the range
    check nor activates a filter.  With a minimum and a maximum that convert
    to whole numbers, the maximum below the minimum, a query that passes the
    check is answered 400 and no statement is sent. *)
Theorem getCompanies_end_to_end :
  forall (w : Pg.World),
    (exists rows,
       fst (Routes.getCompanies [] w) = Ok rows
       /\ Permutation rows (Pg.companies (Pg.store w))
       /\ StronglySorted name_le rows)
    /\ forall (query : Routes.Query) (smin smax : string) (a b : Z),
         Routes.checkCompanyGetQuery query = None ->
         Js.get query "minEmployees" = Some smin ->
         Js.get query "maxEmployees" = Some smax ->
         Js.StringToNumber smin = Js.Int a ->
         Js.StringToNumber smax = Js.Int b ->
         (b < a)%Z ->
         exists message,
           Routes.handle (Routes.getCompanies query) w = (Routes.Failure 400 message, w).
Proof.
  intros w. split.
  - exists (Pg.order_by Pg.by_name (Pg.companies (Pg.store w))).
    split; [|split; [apply order_by_perm | apply order_by_name_sorted]].
    cbn. f_equal. f_equal. now rewrite filter_true.
  - intros query smin smax a b Hcheck Hmin Hmax Ha Hb Hlt.
    unfold Routes.handle, Routes.getCompanies. rewrite Hcheck.
    unfold Routes.param. rewrite Hmin, Hmax.
    unfold Company.findAll. cbv zeta.
    rewrite minGreaterThanMax_default_null.
    assert (C : Company.minGreaterThanMax (Js.plus (Js.Str smin)) (Js.plus (Js.Str smax)) = true).
    { unfold Company.minGreaterThanMax, Js.plus. cbn [Js.ToNumber Js.not_nullish andb].
      rewrite Ha, Hb, lt_whole. now apply Z.ltb_lt. }
    rewrite C. eexists. reflexivity.
Qed.

End Listing.

Lemma findAll_lists_stored_rows_witness :
  (forall r, In r [Fixture.j2; Fixture.j3] -> In r (Pg.jobs (Pg.store Fixture.world)))
  /\ StronglySorted id_le [Fixture.j2; Fixture.j3].
Proof.
  destruct (proj1 (proj2 (@findAll_lists_stored_rows Fixture.runtime Fixture.engine
              Js.Null Js.Null (Js.Bool true) Fixture.world)) [Fixture.j2; Fixture.j3] eq_refl)
    as (H1 & _ & H2).
  split; [exact H1 | exact H2].
Defined.

Lemma query_checks_accept_exactly_witness :
  @Routes.checkJobGetQuery Fixture.runtime
    [("titleFilter", "2"); ("minSalary", "65000"); ("hasEquity", "maybe")] = None.
Proof.
  apply (proj2 (@query_checks_accept_exactly Fixture.runtime _)).
  intros k [<-|[<-|[<-|[]]]] [H|(H & N)];
    try discriminate; apply H; unfold job_param_known; auto.
Defined.

Lemma getCompanies_end_to_end_witness :
  (exists message,
     Routes.handle
       (@Routes.getCompanies Fixture.runtime Fixture.engine
          [("minEmployees", "20"); ("maxEmployees", "10")]) Fixture.world
     = (Routes.Failure 400 message, Fixture.world))
  /\ fst (@Routes.getCompanies Fixture.runtime Fixture.engine [] Fixture.world)
     = Ok [Fixture.c1; Fixture.c2; Fixture.c3].
Proof.
  assert (L : (10 < 20)%Z) by reflexivity.
  split.
  - exact (proj2 (@getCompanies_end_to_end Fixture.runtime Fixture.engine Fixture.world)
             [("minEmployees", "20"); ("maxEmployees", "10")] "20" "10" 20%Z 10%Z
             eq_refl eq_refl eq_refl eq_refl eq_refl L).
  - reflexivity.
Defined.

(** * The authorization middleware *)

Lemma trimEnd_clean (t : string) :
  match last_char t with None => True | Some c => Auth.white c = false end ->
  Auth.trimEnd t = t.
Proof.
  induction t as [|c t IH]; [reflexivity|].
  destruct t as [|c' t].
  - simpl. now intros ->.
  - intros H. change (last_char (String c (String c' t))) with (last_char (String c' t)) in H.
    cbn [Auth.trimEnd]. cbn [Auth.trimEnd] in IH. rewrite (IH H). reflexivity.
Qed.

Lemma trim_trimmed (t : string) : trimmed t -> Auth.trim t = t.
Proof.
  intros (Hfirst & Hlast). unfold Auth.trim.
  assert (Hs : Auth.trimStart t = t).
  { destruct t as [|c t]; [reflexivity|]. simpl. now rewrite Hfirst. }
  rewrite Hs. now apply trimEnd_clean.
Qed.

Lemma trimStart_blank (lead s : string) :
  blank lead -> Auth.trimStart (lead ++ s) = Auth.trimStart s.
Proof.
  induction lead as [|c lead IH]; simpl; [reflexivity|].
  intros (Hc & Hl). rewrite Hc. now apply IH.
Qed.

Lemma trimEnd_blank_only (trail : string) : blank trail -> Auth.trimEnd trail = EmptyString.
Proof.
  induction trail as [|c trail IH]; simpl; [reflexivity|].
  intros (Hc & Hl). now rewrite (IH Hl), Hc.
Qed.

Lemma trimEnd_blank (s trail : string) :
  blank trail -> Auth.trimEnd (s ++ trail) = Auth.trimEnd s.
Proof.
  intros Hb. induction s as [|c s IH]; simpl.
  - now apply trimEnd_blank_only.
  - now rewrite IH.
Qed.

Lemma trim_padded (lead t trail : string) :
  blank lead -> blank trail -> trimmed t -> Auth.trim (lead ++ t ++ trail) = t.
Proof.
  intros Hl Ht Hc. unfold Auth.trim.
  rewrite trimStart_blank by exact Hl.
  destruct Hc as (Hfirst & Hlast).
  assert (Hs : Auth.trimStart (t ++ trail) = Auth.trimEnd (t ++ trail) \/ True) by now right.
  clear Hs.
  destruct t as [|c t].
  - simpl. clear Hfirst Hlast.
    assert (Hall : Auth.trimStart trail = EmptyString).
    { induction trail as [|c trail IH]; simpl; [reflexivity|].
      destruct Ht as (Hc & Ht). rewrite Hc. now apply IH. }
    now rewrite Hall.
  - change (String c t ++ trail) with (String c (t ++ trail)).
    cbn [Auth.trimStart]. rewrite Hfirst.
    change (String c (t ++ trail)) with (String c t ++ trail).
    rewrite trimEnd_blank by exact Ht.
    now apply trimEnd_clean.
Qed.

(** The token of an Authorization header.  For a token with no white space
    at its ends, the headers "Bearer token" and "bearer token" both give the
    token, also with white space around it; so does the token alone, the
    prefix being optional; any other spelling of the prefix (BEARER, or no
    space after it) stays part of what is verified. *)
Theorem token_of_header :
  forall (t : string),
    trimmed t ->
    (forall lead trail, blank lead -> blank trail ->
        Auth.token ("Bearer " ++ lead ++ t ++ trail) = t
        /\ Auth.token ("bearer " ++ lead ++ t ++ trail) = t)
    /\ (Auth.stripBearer t = t -> Auth.token t = t)
    /\ (t <> EmptyString ->
        Auth.token ("BEARER " ++ t) = "BEARER " ++ t
        /\ Auth.token ("Bearer" ++ t) = "Bearer" ++ t).
Proof.
  intros t Ht. split; [|split].
  - intros lead trail Hl Hr. unfold Auth.token.
    change (Auth.stripBearer ("Bearer " ++ lead ++ t ++ trail)) with (lead ++ t ++ trail).
    change (Auth.stripBearer ("bearer " ++ lead ++ t ++ trail)) with (lead ++ t ++ trail).
    split; now apply trim_padded.
  - intros Hs. unfold Auth.token. rewrite Hs. now apply trim_trimmed.
  - intros Hne. unfold Auth.token.
    destruct t as [|c t]; [contradiction|].
    destruct Ht as (Hfirst & Hlast). split.
    + change (Auth.stripBearer ("BEARER " ++ String c t)) with ("BEARER " ++ String c t).
      apply trim_trimmed. split; [reflexivity|]. exact Hlast.
    + assert (Hstrip : Auth.stripBearer ("Bearer" ++ String c t) = "Bearer" ++ String c t).
      { cbn [append Auth.stripBearer].
        destruct (Ascii.eqb_spec c " ") as [->|Hc]; [discriminate|].
        destruct c as [[] [] [] [] [] [] [] []]; try reflexivity.
        now contradiction Hc. }
      rewrite Hstrip. apply trim_trimmed. split; [reflexivity|]. exact Hlast.
Qed.

Lemma token_of_header_witness :
  Auth.token "Bearer abc.def.ghi" = "abc.def.ghi"
  /\ Auth.token "abc.def.ghi" = "abc.def.ghi".
Proof.
  assert (T : trimmed "abc.def.ghi") by (split; reflexivity).
  destruct (token_of_header "abc.def.ghi" T) as (P & B & _).
  split.
  - exact (proj1 (P EmptyString EmptyString I I)).
  - exact (B eq_refl).
Defined.

(** The identity comes from a verified token and from nowhere else.
    authenticateJWT always hands over without an error.  When the request
    carries a non-empty Authorization header whose token verifies, the user
    it leaves is that token's payload, whoever was there before; in every
    other case (no header, an empty one, a token that does not verify) the
    user is left as found.  So such a request stays anonymous and is refused
    by each of the three gates. *)
Theorem authenticateJWT_identity :
  forall (verify : string -> option Auth.User) (authorization : option string)
         (user : Auth.Locals),
    snd (Auth.authenticateJWT verify authorization user) = Auth.Continue
    /\ (forall authHeader payload,
          authorization = Some authHeader -> authHeader <> EmptyString ->
          verify (Auth.token authHeader) = Some payload ->
          fst (Auth.authenticateJWT verify authorization user) = Some payload)
    /\ ((forall authHeader, authorization = Some authHeader ->
            authHeader = EmptyString \/ verify (Auth.token authHeader) = None) ->
        fst (Auth.authenticateJWT verify authorization user) = user)
    /\ ((forall authHeader, authorization = Some authHeader ->
            authHeader = EmptyString \/ verify (Auth.token authHeader) = None) ->
        forall target,
          let anonymous := fst (Auth.authenticateJWT verify authorization None) in
          Auth.ensureLoggedIn anonymous = Auth.Unauthorized
          /\ Auth.ensureLoggedInAsAdmin anonymous = Auth.Unauthorized
          /\ Auth.ensureUserRights target anonymous = Auth.Unauthorized).
Proof.
  intros verify authorization user.
  assert (Kept : forall u,
    (forall authHeader, authorization = Some authHeader ->
        authHeader = EmptyString \/ verify (Auth.token authHeader) = None) ->
    fst (Auth.authenticateJWT verify authorization u) = u).
  { intros u H. unfold Auth.authenticateJWT.
    destruct authorization as [h|]; [|reflexivity].
    destruct (H h eq_refl) as [->|Hv]; [reflexivity|].
    rewrite Hv. now destruct (Js.truthy (Js.Str h)). }
  split; [|split; [|split]].
  - unfold Auth.authenticateJWT.
    destruct authorization as [h|]; [|reflexivity].
    destruct (Js.truthy (Js.Str h)); [|reflexivity].
    now destruct (verify (Auth.token h)).
  - intros h p -> Hne Hv. unfold Auth.authenticateJWT.
    assert (T : Js.truthy (Js.Str h) = true).
    { simpl. apply negb_true_iff. now apply String.eqb_neq. }
    now rewrite T, Hv.
  - apply Kept.
  - intros H target anonymous. unfold anonymous. rewrite (Kept None H).
    repeat split.
Qed.

Lemma authenticateJWT_identity_witness :
  Auth.ensureUserRights "u1"
    (fst (Auth.authenticateJWT (fun _ => None) (Some "Bearer forged") None))
  = Auth.Unauthorized
  /\ fst (Auth.authenticateJWT
            (fun t => if t =? "good"
                      then Some {| Auth.username := "u1"; Auth.isAdmin := Js.Bool false |}
                      else None)
            (Some "Bearer good") None)
     = Some {| Auth.username := "u1"; Auth.isAdmin := Js.Bool false |}.
Proof.
  split.
  - destruct (authenticateJWT_identity (fun _ => None) (Some "Bearer forged") None)
      as (_ & _ & _ & H).
    apply (H (fun h _ => or_intror eq_refl) "u1").
  - destruct (authenticateJWT_identity
                (fun t => if t =? "good"
                          then Some {| Auth.username := "u1"; Auth.isAdmin := Js.Bool false |}
                          else None)
                (Some "Bearer good") None) as (_ & H & _).
    apply (H "Bearer good"); [reflexivity | discriminate | reflexivity].
Defined.

(** The three gates are nested.  Whoever passes the admin gate passes the
    self-or-admin gate for every target user, and whoever passes that one is
    logged in; the self-or-admin gate lets through exactly the admins and the
    user the path names; a user who is not an admin is stopped by the admin
    gate even on their own account. *)
Theorem gates_are_nested :
  forall (user : Auth.Locals) (target : string),
    (Auth.ensureLoggedInAsAdmin user = Auth.Continue ->
     Auth.ensureUserRights target user = Auth.Continue)
    /\ (Auth.ensureUserRights target user = Auth.Continue ->
        Auth.ensureLoggedIn user = Auth.Continue)
    /\ (Auth.ensureUserRights target user = Auth.Continue
        <-> exists u, user = Some u
                      /\ (Js.truthy (Auth.isAdmin u) = true \/ Auth.username u = target))
    /\ (Auth.ensureLoggedInAsAdmin user = Auth.Continue
        <-> exists u, user = Some u /\ Js.truthy (Auth.isAdmin u) = true).
Proof.
  intros user target.
  unfold Auth.ensureLoggedInAsAdmin, Auth.ensureUserRights, Auth.ensureLoggedIn.
  destruct user as [u|].
  - destruct (Js.truthy (Auth.isAdmin u)) eqn:Ha; cbn [negb andb];
      [|destruct (String.eqb_spec (Auth.username u) target) as [Heq|Hne]; cbn [negb]];
      repeat split; try discriminate; try reflexivity; eauto;
      intros (u' & Hu & Ht); injection Hu as <-; intuition congruence.
  - repeat split; try discriminate; intros (u & Hu & _); discriminate.
Qed.

Lemma gates_are_nested_witness :
  Auth.ensureUserRights "u2"
    (Some {| Auth.username := "admin"; Auth.isAdmin := Js.Bool true |})
  = Auth.Continue
  /\ Auth.ensureLoggedIn
       (Some {| Auth.username := "u1"; Auth.isAdmin := Js.Bool false |})
     = Auth.Continue.
Proof.
  split.
  - exact (proj1 (gates_are_nested
                    (Some {| Auth.username := "admin"; Auth.isAdmin := Js.Bool true |})
                    "u2") eq_refl).
  - exact (proj1 (proj2 (gates_are_nested
                    (Some {| Auth.username := "u1"; Auth.isAdmin := Js.Bool false |})
                    "u1")) eq_refl).
Defined.

(** ** Company.create and Company.remove *)

Section CompanyCreateDuplicate.
Context {Eng : Pg.Engine}.


Lemma filter_all {A : Type} (p : A -> bool) (l : list A) :
  (forall x, In x l -> p x = true) -> filter p l = l.
Proof.
  induction l as [|y l IH]; simpl; intros H; [reflexivity|].
  rewrite (H y) by now left. f_equal. apply IH. intros x Hx. apply H. now right.
Qed.

Lemma filter_nothing {A : Type} (p : A -> bool) (l : list A) :
  (forall x, In x l -> p x = false) -> filter p l = [].
Proof.
  induction l as [|y l IH]; simpl; intros H; [reflexivity|].
  rewrite (H y) by now left. apply IH. intros x Hx. apply H. now right.
Qed.

Lemma existsb_handle_false (h : string) (l : list Pg.CompanyRow) :
  (forall c, In c l -> Pg.handle c <> h) -> existsb (Store.has_handle h) l = false.
Proof.
  intros H. apply not_true_is_false. intros E.
  apply existsb_exists in E as (c & Hin & Hc).
  apply String.eqb_eq in Hc. now apply (H c).
Qed.

Lemma world_eta (w : Pg.World) :
  {| Pg.store := {| Pg.companies := Pg.companies (Pg.store w);
                    Pg.jobs := Pg.jobs (Pg.store w) |};
     Pg.issued := Pg.issued w |} = w.
Proof. now destruct w as [[cs js] iss]. Qed.

Lemma text_key (v : Js.Value) :
  Js.not_nullish v = true -> Pg.param_in Pg.TText v = Ok (Pg.SText (Js.ToString v)).
Proof. destruct v; simpl; try discriminate; reflexivity. Qed.

Lemma select_company_by_text (v : Js.Value) (rows : list Pg.CompanyRow) :
  Js.not_nullish v = true ->
  Pg.select_eq Pg.companies_table rows "handle" [v]
  = Ok (filter (fun c => Pg.handle c =? Js.ToString v) rows).
Proof.
  intros H. unfold Pg.select_eq. cbn [Pg.companies_table String.eqb Ascii.eqb Bool.eqb].
  cbv beta iota. rewrite (text_key v H). reflexivity.
Qed.

(** Company.create refuses a handle that is taken.  When the handle given is
    the handle of a stored company, the call throws BadRequestError with the
    message "Duplicate company: " and the handle, and the store is left as it
    was: no statement that writes is reached. *)
Theorem create_refuses_duplicate :
  forall (data : Js.Obj) (w : Pg.World) (c : Pg.CompanyRow),
    Js.not_nullish (Companies.prop data "handle") = true ->
    In c (Pg.companies (Pg.store w)) ->
    Pg.handle c = Js.ToString (Companies.prop data "handle") ->
    Companies.create data w
    = (Throw (BadRequestError
                ("Duplicate company: " ++ Js.ToString (Companies.prop data "handle"))),
       w).
Proof.
  intros data w c Hv Hin Hc.
  unfold Companies.create, Pg.bind, Store.perform, Pg.reading.
  rewrite (select_company_by_text _ _ Hv).
  destruct (filter_key_some Pg.handle _ _ c Hin Hc) as (c' & rest & -> & _).
  now destruct w.
Qed.

End CompanyCreateDuplicate.

Lemma create_refuses_duplicate_witness :
  @Companies.create Fixture.engine
    [("handle", Js.Str "c1"); ("name", Js.Str "New"); ("description", Js.Str "New one")]
    Fixture.world
  = (Throw (BadRequestError "Duplicate company: c1"), Fixture.world).
Proof.
  apply (@create_refuses_duplicate Fixture.engine
           [("handle", Js.Str "c1"); ("name", Js.Str "New");
            ("description", Js.Str "New one")]
           Fixture.world Fixture.c1 eq_refl).
  - simpl. auto.
  - reflexivity.
Defined.

Section CompanyCreateAppends.
Context {Eng : Pg.Engine}.


(** What a successful INSERT into companies does. *)
Lemma exec_insert_company_shape (args : list Js.Value) (d d' : Pg.Db)
    (rows : list Pg.CompanyRow) :
  Store.exec_insert_company args d = Ok (rows, d') ->
  exists row,
    rows = [row] /\ d' = with_company row d
    /\ forall c, In c (Pg.companies d) -> Pg.handle c <> Pg.handle row.
Proof.
  unfold Store.exec_insert_company, Store.and_then. intros H.
  destruct args as [|a1 [|a2 [|a3 [|a4 [|a5 [|a6 args]]]]]]; try discriminate H.
  step_through H.
  injection H as <- <-.
  eexists. split; [reflexivity|]. split; [reflexivity|].
  intros c Hin Hc. cbn [Pg.handle] in Hc.
  match goal with
  | E : existsb ?p ?l = false |- _ =>
      assert (X : existsb p l = true); [|congruence]
  end.
  apply existsb_exists. exists c. split; [exact Hin|].
  now apply String.eqb_eq.
Qed.

Lemma NoDup_snoc {A : Type} (l : list A) (x : A) :
  NoDup l -> ~ In x l -> NoDup (l ++ [x])%list.
Proof.
  intros Hl Hx. apply NoDup_app; [exact Hl | repeat constructor; intros [] |].
  intros y Hy [<-|[]]. now apply Hx.
Qed.

(** Company.create only ever appends.  Whatever the payload, a call that
    throws leaves the store as it was, and a call that returns gives back a
    company (never undefined), which is the one row added to the table: it
    comes after the companies already there, which stay as they were with
    the jobs, and its handle is the handle of none of them.  So handles that
    were distinct stay distinct. *)
Theorem create_only_appends :
  forall (data : Js.Obj) (w : Pg.World),
    (forall e, fst (Companies.create data w) = Throw e ->
               snd (Companies.create data w) = w)
    /\ (forall r, fst (Companies.create data w) = Ok r ->
          exists row,
            r = Some row
            /\ snd (Companies.create data w) = on_store (with_company row) w
            /\ forall c, In c (Pg.companies (Pg.store w)) -> Pg.handle c <> Pg.handle row)
    /\ (NoDup (map Pg.handle (Pg.companies (Pg.store w))) ->
        NoDup (map Pg.handle (Pg.companies (Pg.store (snd (Companies.create data w)))))).
Proof.
  intros data w.
  assert (Cases :
    (exists e, Companies.create data w = (Throw e, w))
    \/ exists row,
         Companies.create data w = (Ok (Some row), on_store (with_company row) w)
         /\ forall c, In c (Pg.companies (Pg.store w)) -> Pg.handle c <> Pg.handle row).
  { unfold Companies.create, Pg.bind, Store.perform, Pg.reading.
    destruct (Pg.select_eq Pg.companies_table _ "handle" _) as [found|e];
      [|left; now exists e].
    assert (Hw : {| Pg.store := Pg.store w; Pg.issued := Pg.issued w |} = w)
      by now destruct w.
    rewrite Hw.
    destruct found as [|c0 found]; [|left; eexists; reflexivity].
    destruct (Store.exec_insert_company _ (Pg.store w)) as [[rows d']|e] eqn:Hins;
      [|left; now exists e].
    apply exec_insert_company_shape in Hins as (row & -> & -> & Hfresh).
    right. exists row. split; [reflexivity | exact Hfresh]. }
  destruct Cases as [(e & ->)|(row & -> & Hfresh)]; cbn [fst snd].
  - split; [reflexivity|]. split; [discriminate|]. auto.
  - split; [discriminate|]. split.
    + intros r Hr. injection Hr as <-. now exists row.
    + intros Hnd. cbn. rewrite map_app. apply NoDup_snoc; [exact Hnd|].
      intros Hin. apply in_map_iff in Hin as (c & Hc & Hin).
      now apply (Hfresh c).
Qed.

End CompanyCreateAppends.

Lemma create_only_appends_witness :
  NoDup (map Pg.handle (Pg.companies (Pg.store (snd
    (@Companies.create Fixture.engine
       [("handle", Js.Str "new"); ("name", Js.Str "New"); ("description", Js.Str "New one")]
       Fixture.world))))).
Proof.
  apply (proj2 (proj2 (@create_only_appends Fixture.engine
           [("handle", Js.Str "new"); ("name", Js.Str "New");
            ("description", Js.Str "New one")]
           Fixture.world))).
  repeat constructor; simpl; intuition discriminate.
Defined.

Section CompanyCreateGet.
Context {Eng : Pg.Engine}.

(** What the row of a successful INSERT into companies holds. *)
Lemma exec_insert_company_row (args : list Js.Value) (d d' : Pg.Db)
    (row : Pg.CompanyRow) (rows : list Pg.CompanyRow) :
  Store.exec_insert_company args d = Ok (row :: rows, d') ->
  exists handle name description numEmployees logoUrl,
    args = [handle; name; description; numEmployees; logoUrl]
    /\ Pg.param_in Pg.TText handle = Ok (Pg.SText (Pg.handle row))
    /\ Pg.param_in Pg.TText name = Ok (Pg.SText (Pg.name row))
    /\ Pg.param_in Pg.TText description = Ok (Pg.SText (Pg.description row))
    /\ Pg.param_in Pg.TInt numEmployees = Ok (Pg.nullable Pg.SInt (Pg.num_employees row))
    /\ Pg.param_in Pg.TText logoUrl = Ok (Pg.nullable Pg.SText (Pg.logo_url row)).
Proof.
  unfold Store.exec_insert_company, Store.and_then. intros H.
  destruct args as [|a1 [|a2 [|a3 [|a4 [|a5 [|a6 args]]]]]]; try discriminate H.
  exists a1, a2, a3, a4, a5. split; [reflexivity|].
  destruct (Pg.param_in Pg.TText a1) as [v1|] eqn:H1; [|discriminate H].
  destruct (Pg.param_in Pg.TText a2) as [v2|] eqn:H2; [|discriminate H].
  destruct (Pg.param_in Pg.TText a3) as [v3|] eqn:H3; [|discriminate H].
  destruct (Pg.param_in Pg.TInt a4) as [v4|] eqn:H4; [|discriminate H].
  destruct (Pg.param_in Pg.TText a5) as [v5|] eqn:H5; [|discriminate H].
  destruct v1 as [| |h|]; try discriminate H.
  destruct v2 as [| |n|]; try discriminate H.
  destruct v3 as [| |ds|]; try discriminate H.
  destruct v4 as [|ne| |]; try discriminate H;
    destruct v5 as [| |lu|]; try discriminate H;
    cbn in H;
    (destruct (existsb (Store.has_handle h) (Pg.companies d)); [discriminate H|]);
    injection H as <- _ _; repeat split.
Qed.

(** Create, then get.  Whatever the payload, when Company.create returns a
    company, its handle, name, description, number of employees and logo
    are the payload's, as the store reads them (a field left out is null, a
    number of employees lies within -2147483648 and 2147483647); no company
    stored before had the handle; the company is stored after the others,
    the jobs being as they were; and Company.get of its handle then returns
    it. *)
Theorem create_then_get :
  forall (data : Js.Obj) (w : Pg.World) (row : Pg.CompanyRow),
    fst (Companies.create data w) = Ok (Some row) ->
    let w' := snd (Companies.create data w) in
    Pg.param_in Pg.TText (Companies.prop data "handle") = Ok (Pg.SText (Pg.handle row))
    /\ Pg.param_in Pg.TText (Companies.prop data "name") = Ok (Pg.SText (Pg.name row))
    /\ Pg.param_in Pg.TText (Companies.prop data "description")
       = Ok (Pg.SText (Pg.description row))
    /\ Pg.param_in Pg.TInt (Companies.prop data "numEmployees")
       = Ok (Pg.nullable Pg.SInt (Pg.num_employees row))
    /\ Pg.param_in Pg.TText (Companies.prop data "logoUrl")
       = Ok (Pg.nullable Pg.SText (Pg.logo_url row))
    /\ (forall z, Pg.num_employees row = Some z -> fits_int4 z)
    /\ (forall c, In c (Pg.companies (Pg.store w)) -> Pg.handle c <> Pg.handle row)
    /\ Pg.companies (Pg.store w') = (Pg.companies (Pg.store w) ++ [row])%list
    /\ Pg.jobs (Pg.store w') = Pg.jobs (Pg.store w)
    /\ exists r,
         fst (Company.get (Js.Str (Pg.handle row)) w') = Ok r
         /\ Company.company r = row.
Proof.
  intros data w row Hret w'.
  assert (Run : exists rows d',
            Store.exec_insert_company
              [Companies.prop data "handle"; Companies.prop data "name";
               Companies.prop data "description"; Companies.prop data "numEmployees";
               Companies.prop data "logoUrl"] (Pg.store w) = Ok (row :: rows, d')
            /\ w' = {| Pg.store := d'; Pg.issued := Pg.issued w |}).
  { revert Hret. unfold w'. clear w'.
    unfold Companies.create, Pg.bind, Store.perform, Pg.reading. cbv zeta.
    destruct (Pg.select_eq Pg.companies_table _ "handle" _) as [found|e];
      [|unfold Pg.throw; cbn [fst]; intros H; inversion H].
    destruct found as [|c0 found]; [|unfold Pg.throw; cbn [fst]; intros H; inversion H].
    cbn [Pg.store Pg.issued].
    destruct (Store.exec_insert_company _ (Pg.store w)) as [[rows d']|e];
      [|cbn [fst]; intros H; inversion H].
    cbn [fst snd Pg.ret Companies.first Pg.store Pg.issued].
    intros Hrow. injection Hrow as Hrow.
    destruct rows as [|r rows]; [discriminate|]. cbn in Hrow. injection Hrow as ->.
    now exists rows, d'. }
  destruct Run as (rows & d' & Hins & ->).
  destruct (exec_insert_company_row _ _ _ _ _ Hins)
    as (a1 & a2 & a3 & a4 & a5 & Hargs & Hh & Hn & Hd & Hne & Hlu).
  injection Hargs as <- <- <- <- <-.
  destruct (exec_insert_company_shape _ _ _ _ Hins) as (row' & Hrows & -> & Hfresh).
  injection Hrows as <- ->.
  split; [exact Hh|].
  split; [exact Hn|]. split; [exact Hd|]. split; [exact Hne|]. split; [exact Hlu|].
  split.
  { intros z Hz. rewrite Hz in Hne. exact (param_in_fits _ z Hne). }
  split; [exact Hfresh|].
  cbn [Pg.store Pg.issued with_company Pg.companies Pg.jobs].
  split; [reflexivity|]. split; [reflexivity|].
  eexists. split.
  - apply (get_found (Pg.handle row)
             {| Pg.store := with_company row (Pg.store w); Pg.issued := Pg.issued w |}
             row []).
    cbn [Pg.store with_company Pg.companies].
    rewrite filter_app, (filter_key_none Pg.handle (Pg.handle row) _ Hfresh).
    cbn. now rewrite String.eqb_refl.
  - reflexivity.
Qed.

End CompanyCreateGet.

Lemma create_then_get_witness :
  let new := {| Pg.handle := "new"; Pg.name := "New"; Pg.description := "New one";
                Pg.num_employees := Some 1%Z; Pg.logo_url := None |} in
  fst (@Companies.create Fixture.engine
         [("handle", Js.Str "new"); ("name", Js.Str "New");
          ("description", Js.Str "New one"); ("numEmployees", whole 1)]
         Fixture.world)
  = Ok (Some new)
  /\ exists r,
       fst (@Company.get Fixture.engine (Js.Str "new")
              (snd (@Companies.create Fixture.engine
                      [("handle", Js.Str "new"); ("name", Js.Str "New");
                       ("description", Js.Str "New one"); ("numEmployees", whole 1)]
                      Fixture.world)))
       = Ok r
       /\ Company.company r = new.
Proof.
  intros new. split; [reflexivity|].
  destruct (@create_then_get Fixture.engine
              [("handle", Js.Str "new"); ("name", Js.Str "New");
               ("description", Js.Str "New one"); ("numEmployees", whole 1)]
              Fixture.world new eq_refl) as (_ & _ & _ & _ & _ & _ & _ & _ & _ & G).
  exact G.
Defined.

Section CompanyRemove.
Context {Eng : Pg.Engine}.


Lemma remove_missing (h : string) (w : Pg.World) :
  (forall c, In c (Pg.companies (Pg.store w)) -> Pg.handle c <> h) ->
  Companies.remove (Js.Str h) w = (Throw (NotFoundError ("No company: " ++ h)), w).
Proof.
  intros H.
  unfold Companies.remove, Pg.bind, Store.perform, Store.exec_delete_company.
  cbn [Pg.param_in Js.ToString Store.and_then].
  change (Store.handle_matches (Pg.SText h)) with (fun c : Pg.CompanyRow => Pg.handle c =? h).
  rewrite (filter_key_none Pg.handle h _ H). cbn [map].
  rewrite filter_all.
  - unfold Pg.throw. now rewrite world_eta.
  - intros c Hc. apply negb_true_iff. apply String.eqb_neq. now apply H.
Qed.

Lemma remove_present (h : string) (w : Pg.World) (c : Pg.CompanyRow) :
  In c (Pg.companies (Pg.store w)) -> Pg.handle c = h ->
  Companies.remove (Js.Str h) w = (Ok tt, on_store (without_company h) w).
Proof.
  intros Hin Hc.
  unfold Companies.remove, Pg.bind, Store.perform, Store.exec_delete_company.
  cbn [Pg.param_in Js.ToString Store.and_then].
  change (Store.handle_matches (Pg.SText h)) with (fun c : Pg.CompanyRow => Pg.handle c =? h).
  change (Store.of_company (Pg.SText h)) with (fun j : Pg.JobRow => Pg.company_handle j =? h).
  destruct (filter_key_some Pg.handle h _ c Hin Hc) as (c1 & rest & -> & _).
  reflexivity.
Qed.

Lemma without_company_companies (h : string) (d : Pg.Db) (c : Pg.CompanyRow) :
  In c (Pg.companies (without_company h d)) <-> In c (Pg.companies d) /\ Pg.handle c <> h.
Proof.
  cbn [without_company Pg.companies]. rewrite filter_In, negb_true_iff, String.eqb_neq.
  reflexivity.
Qed.

(** Company.remove.  When no company has the handle the call throws
    NotFoundError and the store is left as it was.  When one has it the call
    returns; the companies left are those of another handle and the jobs
    left those of another company, each as it was; Company.get of the handle
    then throws NotFoundError, and so does removing it a second time. *)
Theorem remove_company :
  forall (h : string) (w : Pg.World),
    ((forall c, In c (Pg.companies (Pg.store w)) -> Pg.handle c <> h) ->
     Companies.remove (Js.Str h) w = (Throw (NotFoundError ("No company: " ++ h)), w))
    /\ (forall c,
        In c (Pg.companies (Pg.store w)) -> Pg.handle c = h ->
        let w' := on_store (without_company h) w in
        Companies.remove (Js.Str h) w = (Ok tt, w')
        /\ (forall c', In c' (Pg.companies (Pg.store w'))
                       <-> In c' (Pg.companies (Pg.store w)) /\ Pg.handle c' <> h)
        /\ (forall j, In j (Pg.jobs (Pg.store w'))
                      <-> In j (Pg.jobs (Pg.store w)) /\ Pg.company_handle j <> h)
        /\ fst (Company.get (Js.Str h) w') = Throw (NotFoundError ("No company: " ++ h))
        /\ Companies.remove (Js.Str h) w'
           = (Throw (NotFoundError ("No company: " ++ h)), w')).
Proof.
  intros h w. split; [apply remove_missing|].
  intros c Hin Hc w'.
  assert (Gone : forall c', In c' (Pg.companies (Pg.store w')) -> Pg.handle c' <> h).
  { intros c' Hc'. now apply without_company_companies in Hc'. }
  split; [|split; [|split; [|split]]].
  - now apply remove_present with (c := c).
  - intros c'. apply without_company_companies.
  - intros j. cbn. rewrite filter_In, negb_true_iff, String.eqb_neq. reflexivity.
  - now apply get_not_found.
  - now apply remove_missing.
Qed.

End CompanyRemove.

Lemma remove_company_witness :
  @Companies.remove Fixture.engine (Js.Str "nope") Fixture.world
  = (Throw (NotFoundError "No company: nope"), Fixture.world)
  /\ @Companies.remove Fixture.engine (Js.Str "c1") Fixture.world
     = (Ok tt, {| Pg.store := {| Pg.companies := [Fixture.c2; Fixture.c3];
                                 Pg.jobs := [Fixture.j3] |};
                  Pg.issued := [] |}).
Proof.
  split.
  - apply (proj1 (@remove_company Fixture.engine "nope" Fixture.world)).
    intros c [<-|[<-|[<-|[]]]]; discriminate.
  - destruct (proj2 (@remove_company Fixture.engine "c1" Fixture.world) Fixture.c1)
      as (R & _).
    + simpl. auto.
    + reflexivity.
    + exact R.
Defined.

(** ** Job.get, Job.remove and Job.create *)

Lemma filter_id_none {A : Type} (key : A -> Z) (z : Z) (l : list A) :
  (forall x, In x l -> key x <> z) -> filter (fun x => (key x =? z)%Z) l = [].
Proof.
  intros H. apply filter_nothing. intros x Hx. apply Z.eqb_neq. now apply H.
Qed.

Lemma filter_id_some {A : Type} (key : A -> Z) (z : Z) (l : list A) (c : A) :
  In c l -> key c = z ->
  exists c' rest,
    filter (fun x => (key x =? z)%Z) l = c' :: rest /\ In c' l /\ key c' = z
    /\ (NoDup (map key l) -> c' = c /\ rest = []).
Proof.
  induction l as [|y l IH]; simpl; intros Hin Hk; [contradiction|].
  destruct (Z.eqb_spec (key y) z) as [Hy|Hy].
  - exists y, (filter (fun x => (key x =? z)%Z) l).
    split; [reflexivity|]. split; [now left|]. split; [exact Hy|].
    intros Hnd. cbn [map] in Hnd. apply NoDup_cons_iff in Hnd as (Hnotin & Hnd').
    assert (Hrest : filter (fun x => (key x =? z)%Z) l = []).
    { apply filter_id_none. intros x Hx Heq. apply Hnotin. rewrite Hy, <- Heq.
      now apply in_map. }
    split; [|exact Hrest].
    destruct Hin as [Heq|Hin]; [exact Heq|].
    exfalso. apply Hnotin. rewrite Hy, <- Hk. now apply in_map.
  - destruct Hin as [->|Hin]; [contradiction|].
    destruct (IH Hin Hk) as (c' & rest & Hf & Hin' & Hk' & Hu).
    exists c', rest. split; [exact Hf|]. split; [now right|]. split; [exact Hk'|].
    intros Hnd. cbn [map] in Hnd. apply NoDup_cons_iff in Hnd as (_ & Hnd'). now apply Hu.
Qed.

Section JobGet.
Context {Eng : Pg.Engine}.

Lemma select_job_by_id (v : Js.Value) (z : Z) (rows : list Pg.JobRow) :
  Pg.param_in Pg.TInt v = Ok (Pg.SInt z) ->
  Pg.select_eq Pg.jobs_table rows "id" [v]
  = Ok (filter (fun j => (Pg.id j =? z)%Z) rows).
Proof.
  intros H. unfold Pg.select_eq.
  cbn [Pg.jobs_table String.eqb Ascii.eqb Bool.eqb]. cbv beta iota.
  now rewrite H.
Qed.

Lemma select_job_refused (v : Js.Value) (e : Error) (rows : list Pg.JobRow) :
  Pg.param_in Pg.TInt v = Throw e ->
  Pg.select_eq Pg.jobs_table rows "id" [v] = Throw e.
Proof.
  intros H. unfold Pg.select_eq.
  cbn [Pg.jobs_table String.eqb Ascii.eqb Bool.eqb]. cbv beta iota.
  now rewrite H.
Qed.

Lemma get_job_missing (id : Js.Value) (z : Z) (w : Pg.World) :
  Pg.param_in Pg.TInt id = Ok (Pg.SInt z) ->
  (forall j, In j (Pg.jobs (Pg.store w)) -> Pg.id j <> z) ->
  Jobs.get id w = (Throw (NotFoundError ("No job: " ++ Js.ToString id)), w).
Proof.
  intros Hid H. unfold Jobs.get, Pg.bind, Store.perform, Pg.reading.
  rewrite (select_job_by_id id z _ Hid), (filter_id_none Pg.id z _ H).
  now destruct w.
Qed.

Lemma get_job_present (id : Js.Value) (z : Z) (w : Pg.World) (j : Pg.JobRow) :
  Pg.param_in Pg.TInt id = Ok (Pg.SInt z) ->
  In j (Pg.jobs (Pg.store w)) -> Pg.id j = z ->
  exists j',
    In j' (Pg.jobs (Pg.store w)) /\ Pg.id j' = z
    /\ (NoDup (map Pg.id (Pg.jobs (Pg.store w))) -> j' = j)
    /\ Jobs.get id w = (Ok j', w).
Proof.
  intros Hid Hin Hk.
  destruct (filter_id_some Pg.id z _ j Hin Hk) as (j' & rest & Hf & Hin' & Hk' & Hu).
  exists j'. split; [exact Hin'|]. split; [exact Hk'|]. split.
  - intros Hnd. now apply Hu.
  - unfold Jobs.get, Pg.bind, Store.perform, Pg.reading.
    rewrite (select_job_by_id id z _ Hid), Hf. now destruct w.
Qed.

(** Job.get.  The id goes to the store as its text, and the store reads it
    as an integer of the id column: a whole number within -2147483648 and
    2147483647, or such a number's text, blanks and a plus sign round it
    allowed.  When the store reads the id as z and no job has the id z, the
    call throws NotFoundError with the id as it was given; when a job has
    it, the call returns a stored job of that id, the job itself where ids
    are distinct.  When the store refuses the id (a text that is no
    integer, a number out of the column's range), the call throws the
    store's error, not NotFoundError.  The store is never changed. *)
Theorem get_job :
  forall (id : Js.Value) (w : Pg.World),
    (forall z,
        Pg.param_in Pg.TInt id = Ok (Pg.SInt z) ->
        fits_int4 z
        /\ ((forall j, In j (Pg.jobs (Pg.store w)) -> Pg.id j <> z) ->
            Jobs.get id w = (Throw (NotFoundError ("No job: " ++ Js.ToString id)), w))
        /\ (forall j,
            In j (Pg.jobs (Pg.store w)) -> Pg.id j = z ->
            exists j',
              In j' (Pg.jobs (Pg.store w)) /\ Pg.id j' = z
              /\ (NoDup (map Pg.id (Pg.jobs (Pg.store w))) -> j' = j)
              /\ Jobs.get id w = (Ok j', w)))
    /\ (forall e,
        Pg.param_in Pg.TInt id = Throw e -> Jobs.get id w = (Throw e, w))
    /\ (forall z, id = whole z -> fits_int4 z ->
        Pg.param_in Pg.TInt id = Ok (Pg.SInt z))
    /\ (forall s z, id = Js.Str s -> Pg.plain_integer s = Some z -> fits_int4 z ->
        Pg.param_in Pg.TInt id = Ok (Pg.SInt z))
    /\ snd (Jobs.get id w) = w.
Proof.
  intros id w. split; [|split; [|split; [|split]]].
  - intros z Hid. split; [exact (param_in_fits id z Hid)|].
    split; [now apply get_job_missing|].
    intros j Hin Hk. now apply get_job_present.
  - intros e He. unfold Jobs.get, Pg.bind, Store.perform, Pg.reading.
    rewrite (select_job_refused id e _ He). reflexivity.
  - intros z -> Hz. now apply param_in_whole.
  - intros s z -> Hs Hz. now apply param_in_text.
  - unfold Jobs.get, Pg.bind, Store.perform, Pg.reading.
    destruct (Pg.select_eq Pg.jobs_table _ "id" [id]) as [[|j rows]|e];
      now destruct w.
Qed.

End JobGet.

Lemma get_job_witness :
  @Jobs.get Fixture.engine (Js.Str "2") Fixture.world = (Ok Fixture.j2, Fixture.world)
  /\ @Jobs.get Fixture.engine (Js.Str " +2 ") Fixture.world = (Ok Fixture.j2, Fixture.world)
  /\ @Jobs.get Fixture.engine (whole 7) Fixture.world
     = (Throw (NotFoundError "No job: 7"), Fixture.world)
  /\ @Jobs.get Fixture.engine (Js.Str "two") Fixture.world
     = (Throw (Pg.invalid_input "integer" "two"), Fixture.world)
  /\ @Jobs.get Fixture.engine (whole 2147483648) Fixture.world
     = (Throw (Pg.out_of_range "integer" "2147483648"), Fixture.world).
Proof.
  assert (Distinct : NoDup (map Pg.id (Pg.jobs (Pg.store Fixture.world)))).
  { repeat constructor; simpl; intuition discriminate. }
  split; [|split; [|split; [|split]]].
  - destruct (proj2 (proj2 (proj1 (@get_job Fixture.engine (Js.Str "2") Fixture.world)
                                  2%Z eq_refl)) Fixture.j2)
      as (j' & _ & _ & Hu & G).
    + simpl. auto.
    + reflexivity.
    + rewrite <- (Hu Distinct). exact G.
  - destruct (proj2 (proj2 (proj1 (@get_job Fixture.engine (Js.Str " +2 ") Fixture.world)
                                  2%Z eq_refl)) Fixture.j2)
      as (j' & _ & _ & Hu & G).
    + simpl. auto.
    + reflexivity.
    + rewrite <- (Hu Distinct). exact G.
  - apply (proj1 (proj2 (proj1 (@get_job Fixture.engine (whole 7) Fixture.world)
                               7%Z eq_refl))).
    intros j [<-|[<-|[<-|[]]]]; discriminate.
  - exact (proj1 (proj2 (@get_job Fixture.engine (Js.Str "two") Fixture.world))
             (Pg.invalid_input "integer" "two") eq_refl).
  - exact (proj1 (proj2 (@get_job Fixture.engine (whole 2147483648) Fixture.world))
             (Pg.out_of_range "integer" "2147483648") eq_refl).
Defined.

Section JobRemove.
Context {Eng : Pg.Engine}.

Lemma without_job_jobs (z : Z) (d : Pg.Db) (j : Pg.JobRow) :
  In j (Pg.jobs (without_job z d)) <-> In j (Pg.jobs d) /\ Pg.id j <> z.
Proof.
  cbn [without_job Pg.jobs]. rewrite filter_In, negb_true_iff, Z.eqb_neq. reflexivity.
Qed.

Lemma remove_job_missing (id : Js.Value) (z : Z) (w : Pg.World) :
  Pg.param_in Pg.TInt id = Ok (Pg.SInt z) ->
  (forall j, In j (Pg.jobs (Pg.store w)) -> Pg.id j <> z) ->
  Jobs.remove id w = (Throw (NotFoundError ("No job: " ++ Js.ToString id)), w).
Proof.
  intros Hid H.
  unfold Jobs.remove, Pg.bind, Store.perform, Store.exec_delete_job.
  rewrite Hid. cbn [Store.and_then].
  change (Pg.id_matches (Pg.SInt z)) with (fun j : Pg.JobRow => (Pg.id j =? z)%Z).
  rewrite (filter_id_none Pg.id z _ H). cbn [map].
  rewrite filter_all.
  - unfold Pg.throw. now rewrite world_eta.
  - intros j Hj. apply negb_true_iff. apply Z.eqb_neq. now apply H.
Qed.

Lemma remove_job_present (id : Js.Value) (z : Z) (w : Pg.World) (j : Pg.JobRow) :
  Pg.param_in Pg.TInt id = Ok (Pg.SInt z) ->
  In j (Pg.jobs (Pg.store w)) -> Pg.id j = z ->
  Jobs.remove id w = (Ok {| Jobs.removed := z |}, on_store (without_job z) w).
Proof.
  intros Hid Hin Hk.
  unfold Jobs.remove, Pg.bind, Store.perform, Store.exec_delete_job.
  rewrite Hid. cbn [Store.and_then].
  change (Pg.id_matches (Pg.SInt z)) with (fun j : Pg.JobRow => (Pg.id j =? z)%Z).
  destruct (filter_id_some Pg.id z _ j Hin Hk) as (j' & rest & -> & _ & Hk' & _).
  cbn [map]. now rewrite Hk'.
Qed.

Lemma remove_job_refused (id : Js.Value) (e : Error) (w : Pg.World) :
  Pg.param_in Pg.TInt id = Throw e -> Jobs.remove id w = (Throw e, w).
Proof.
  intros He. unfold Jobs.remove, Pg.bind, Store.perform, Store.exec_delete_job.
  now rewrite He.
Qed.

(** Job.remove.  The store reads the id as an integer of the id column, z
    say, which lies within -2147483648 and 2147483647.  When no job has the
    id z the call throws NotFoundError and the store is left as it was.
    When one has it the call returns the id under [removed]; the jobs left
    are those of another id, each as it was, and the companies are
    untouched; Job.get of the id then throws NotFoundError.  When the store
    refuses the id, the call throws the store's error and nothing is
    removed. *)
Theorem remove_job :
  forall (id : Js.Value) (w : Pg.World),
    (forall z,
        Pg.param_in Pg.TInt id = Ok (Pg.SInt z) ->
        fits_int4 z
        /\ ((forall j, In j (Pg.jobs (Pg.store w)) -> Pg.id j <> z) ->
            Jobs.remove id w = (Throw (NotFoundError ("No job: " ++ Js.ToString id)), w))
        /\ (forall j,
            In j (Pg.jobs (Pg.store w)) -> Pg.id j = z ->
            let w' := on_store (without_job z) w in
            Jobs.remove id w = (Ok {| Jobs.removed := z |}, w')
            /\ (forall j', In j' (Pg.jobs (Pg.store w'))
                           <-> In j' (Pg.jobs (Pg.store w)) /\ Pg.id j' <> z)
            /\ Pg.companies (Pg.store w') = Pg.companies (Pg.store w)
            /\ Jobs.get id w' = (Throw (NotFoundError ("No job: " ++ Js.ToString id)), w')))
    /\ (forall e,
        Pg.param_in Pg.TInt id = Throw e -> Jobs.remove id w = (Throw e, w)).
Proof.
  intros id w. split; [|intros e He; now apply remove_job_refused].
  intros z Hid. split; [exact (param_in_fits id z Hid)|].
  split; [now apply remove_job_missing|].
  intros j Hin Hk w'. split; [|split; [|split]].
  - now apply remove_job_present with (j := j).
  - intros j'. apply without_job_jobs.
  - reflexivity.
  - apply (get_job_missing id z w' Hid).
    intros j' Hj'. now apply without_job_jobs in Hj'.
Qed.

End JobRemove.

Lemma remove_job_witness :
  @Jobs.remove Fixture.engine (Js.Str "2") Fixture.world
  = (Ok {| Jobs.removed := 2 |},
     {| Pg.store := {| Pg.companies := [Fixture.c1; Fixture.c2; Fixture.c3];
                       Pg.jobs := [Fixture.j1; Fixture.j3] |};
        Pg.issued := [] |})
  /\ @Jobs.remove Fixture.engine (whole 0) Fixture.world
     = (Throw (NotFoundError "No job: 0"), Fixture.world)
  /\ @Jobs.remove Fixture.engine (whole 2147483648) Fixture.world
     = (Throw (Pg.out_of_range "integer" "2147483648"), Fixture.world).
Proof.
  split; [|split].
  - destruct (proj2 (proj2 (proj1 (@remove_job Fixture.engine (Js.Str "2") Fixture.world)
                                  2%Z eq_refl)) Fixture.j2)
      as (R & _).
    + simpl. auto.
    + reflexivity.
    + exact R.
  - apply (proj1 (proj2 (proj1 (@remove_job Fixture.engine (whole 0) Fixture.world)
                               0%Z eq_refl))).
    intros j [<-|[<-|[<-|[]]]]; discriminate.
  - exact (proj2 (@remove_job Fixture.engine (whole 2147483648) Fixture.world)
             (Pg.out_of_range "integer" "2147483648") eq_refl).
Defined.

Section JobCreate.
Context {Eng : Pg.Engine}.
Context {Seq : Store.Sequence}.

Lemma existsb_company (ch : string) (l : list Pg.CompanyRow) :
  existsb (fun c => Pg.handle c =? ch) l = true ->
  exists c, In c l /\ Pg.handle c = ch.
Proof.
  intros H. apply existsb_exists in H as (c & Hin & Hc).
  exists c. split; [exact Hin|]. now apply String.eqb_eq.
Qed.

Lemma existsb_id (z : Z) (l : list Pg.JobRow) :
  existsb (fun j => (Pg.id j =? z)%Z) l = false ->
  forall j, In j l -> Pg.id j <> z.
Proof.
  intros H j Hin Hj.
  assert (T : existsb (fun j => (Pg.id j =? z)%Z) l = true).
  { apply existsb_exists. exists j. split; [exact Hin|]. now apply Z.eqb_eq. }
  congruence.
Qed.

(** What the INSERT has done when it returns rows: one row, of columns as
    the store has read the parameters, under an id of the column's range
    that no stored job has, naming a stored company, and stored after the
    other jobs. *)
Lemma exec_insert_job_row (title salary equity companyHandle : Js.Value) (d d' : Pg.Db)
    (rows : list Pg.JobRow) :
  Store.exec_insert_job [title; salary; equity; companyHandle] d = Ok (rows, d') ->
  exists row,
    rows = [row]
    /\ Pg.param_in Pg.TText title = Ok (Pg.SText (Pg.title row))
    /\ Pg.param_in Pg.TInt salary = Ok (Pg.nullable Pg.SInt (Pg.salary row))
    /\ Pg.param_in Pg.TNumeric equity = Ok (Pg.nullable Pg.SNumeric (Pg.equity row))
    /\ Pg.param_in Pg.TText companyHandle = Ok (Pg.SText (Pg.company_handle row))
    /\ fits_int4 (Pg.id row)
    /\ (exists c, In c (Pg.companies d) /\ Pg.handle c = Pg.company_handle row)
    /\ (forall j, In j (Pg.jobs d) -> Pg.id j <> Pg.id row)
    /\ d' = with_job row d.
Proof.
  unfold Store.exec_insert_job.
  destruct (Pg.param_in Pg.TText title) as [t|e]; [|discriminate].
  destruct (Pg.param_in Pg.TInt salary) as [s|e]; [|discriminate].
  destruct (Pg.param_in Pg.TNumeric equity) as [q|e]; [|discriminate].
  destruct (Pg.param_in Pg.TText companyHandle) as [ch|e]; [|discriminate].
  cbn [Store.and_then].
  destruct (Pg.in_int4 (Store.nextval d)) eqn:Hfit; [|discriminate].
  apply in_int4_fits in Hfit.
  cbn [negb Pg.assign_all].
  unfold Pg.assign. cbn [String.eqb Ascii.eqb Bool.eqb]. cbv beta iota.
  destruct t; try discriminate.
  cbn [Pg.id Pg.title Pg.salary Pg.equity Pg.company_handle].
  destruct s; try discriminate;
    cbn [Pg.id Pg.title Pg.salary Pg.equity Pg.company_handle];
    destruct q as [| | |q]; try discriminate;
    try (destruct (Pg.in_unit_range q); [|discriminate]);
    cbn [Pg.id Pg.title Pg.salary Pg.equity Pg.company_handle];
    destruct ch as [| |ch|]; try discriminate;
    (destruct (existsb (fun c => Pg.handle c =? ch) (Pg.companies d)) eqn:Hco;
      [|discriminate]);
    cbn [Store.and_then Pg.id];
    (destruct (existsb (fun j => (Pg.id j =? Store.nextval d)%Z) (Pg.jobs d)) eqn:Hid;
      [discriminate|]);
    intros H; injection H as <- <-;
    (eexists; split; [reflexivity|]);
    cbn [Pg.id Pg.title Pg.salary Pg.equity Pg.company_handle Pg.nullable];
    repeat (split; [reflexivity|]);
    (split; [exact Hfit|]);
    (split; [exact (existsb_company _ _ Hco)|]);
    (split; [exact (existsb_id _ _ Hid)|]);
    reflexivity.
Qed.

Lemma create_job_cases (data : Js.Obj) (w : Pg.World) :
  (exists rows d',
      Store.exec_insert_job
        [Companies.prop data "title"; Companies.prop data "salary";
         Companies.prop data "equity"; Companies.prop data "companyHandle"] (Pg.store w)
      = Ok (rows, d')
      /\ Jobs.create data w
         = (Ok (Companies.first rows), {| Pg.store := d'; Pg.issued := Pg.issued w |}))
  \/ (exists e, Jobs.create data w = (Throw e, w)).
Proof.
  unfold Jobs.create, Pg.bind, Store.perform. cbv zeta.
  destruct (Store.exec_insert_job _ (Pg.store w)) as [[rows d']|e].
  - left. exists rows, d'. split; reflexivity.
  - right. exists e. reflexivity.
Qed.

(** Job.create.  Whenever the call returns a job, its title, salary, equity
    and company handle are the payload's title, salary, equity and
    companyHandle as the store reads them in the types of the columns (so
    a salary lies within -2147483648 and 2147483647 or is left out), its id
    lies in that range and is the id of no job stored before, a stored
    company has its company handle, the job is stored after the others
    with the companies as they were, and Job.get of its id then returns
    it.  Whenever the call throws, the store is left as it was.  The call
    never returns without a job. *)
Theorem create_job :
  forall (data : Js.Obj) (w : Pg.World),
    let w' := snd (Jobs.create data w) in
    (forall row,
        fst (Jobs.create data w) = Ok (Some row) ->
        Pg.param_in Pg.TText (Companies.prop data "title") = Ok (Pg.SText (Pg.title row))
        /\ Pg.param_in Pg.TInt (Companies.prop data "salary")
           = Ok (Pg.nullable Pg.SInt (Pg.salary row))
        /\ Pg.param_in Pg.TNumeric (Companies.prop data "equity")
           = Ok (Pg.nullable Pg.SNumeric (Pg.equity row))
        /\ Pg.param_in Pg.TText (Companies.prop data "companyHandle")
           = Ok (Pg.SText (Pg.company_handle row))
        /\ fits_int4 (Pg.id row)
        /\ (forall z, Pg.salary row = Some z -> fits_int4 z)
        /\ (forall j, In j (Pg.jobs (Pg.store w)) -> Pg.id j <> Pg.id row)
        /\ (exists c, In c (Pg.companies (Pg.store w))
                      /\ Pg.handle c = Pg.company_handle row)
        /\ Pg.jobs (Pg.store w') = (Pg.jobs (Pg.store w) ++ [row])%list
        /\ Pg.companies (Pg.store w') = Pg.companies (Pg.store w)
        /\ Jobs.get (whole (Pg.id row)) w' = (Ok row, w'))
    /\ (forall e, fst (Jobs.create data w) = Throw e -> w' = w)
    /\ fst (Jobs.create data w) <> Ok None.
Proof.
  intros data w w'. unfold w'. clear w'.
  destruct (create_job_cases data w) as [(rows & d' & Hrun & ->)|(e' & ->)].
  - destruct (exec_insert_job_row _ _ _ _ _ _ _ Hrun)
      as (row & -> & Ht & Hs & Hq & Hch & Hfit & Hco & Hfresh & ->).
    cbn [fst snd Companies.first hd_error Pg.store Pg.issued].
    split; [|split; [intros e H; discriminate H | intros H; discriminate H]].
    intros row' H. injection H as <-.
    split; [exact Ht|]. split; [exact Hs|]. split; [exact Hq|]. split; [exact Hch|].
    split; [exact Hfit|].
    split.
    { intros z Hz. rewrite Hz in Hs. exact (param_in_fits _ z Hs). }
    split; [exact Hfresh|]. split; [exact Hco|].
    split; [reflexivity|]. split; [reflexivity|].
    unfold Jobs.get, Pg.bind, Store.perform, Pg.reading.
    rewrite (select_job_by_id (whole (Pg.id row)) (Pg.id row) _ (param_in_whole _ Hfit)).
    cbn [with_job Pg.store Pg.jobs Pg.issued].
    rewrite filter_app, (filter_id_none Pg.id _ _ Hfresh).
    cbn. now rewrite Z.eqb_refl.
  - cbn [fst snd].
    split; [intros row H; discriminate H|].
    split; [reflexivity | intros H; discriminate H].
Qed.

End JobCreate.

Lemma create_job_witness :
  let data := [("title", Js.Str "new"); ("salary", whole 100); ("equity", Js.Str "0.1");
               ("companyHandle", Js.Str "c1")] in
  let new := {| Pg.id := 4; Pg.title := "new"; Pg.salary := Some 100%Z;
                Pg.equity := Some {| Pg.unscaled := 1; Pg.scale := 1 |};
                Pg.company_handle := "c1" |} in
  let w' := snd (@Jobs.create Fixture.engine serial data Fixture.world) in
  fst (@Jobs.create Fixture.engine serial data Fixture.world) = Ok (Some new)
  /\ Pg.jobs (Pg.store w') = [Fixture.j1; Fixture.j2; Fixture.j3; new]
  /\ @Jobs.get Fixture.engine (whole 4) w' = (Ok new, w')
  /\ snd (@Jobs.create Fixture.engine serial
            [("title", Js.Str "new"); ("salary", whole 2147483648);
             ("companyHandle", Js.Str "c1")]
            Fixture.world)
     = Fixture.world.
Proof.
  intros data new w'.
  assert (Returned : fst (@Jobs.create Fixture.engine serial data Fixture.world)
                     = Ok (Some new)) by reflexivity.
  split; [exact Returned|].
  destruct (proj1 (@create_job Fixture.engine serial data Fixture.world) new Returned)
    as (_ & _ & _ & _ & _ & _ & _ & _ & Hjobs & _ & Hget).
  split; [exact Hjobs|]. split; [exact Hget|].
  exact (proj1 (proj2 (@create_job Fixture.engine serial
                         [("title", Js.Str "new"); ("salary", whole 2147483648);
                          ("companyHandle", Js.Str "c1")]
                         Fixture.world))
           (Pg.out_of_range "integer" "2147483648") eq_refl).
Defined.

(** ** Company.update *)

Section CompanyUpdate.
Context {Eng : Pg.Engine}.


Lemma company_assign_reads (c : string) (v : Pg.SqlValue) (r r' : Pg.CompanyRow)
    (ty : Pg.ColType) (read : Pg.CompanyRow -> Pg.SqlValue) :
  Store.assign c v r = Ok r' ->
  Pg.companies_table c = Some (ty, read) ->
  read r' = v.
Proof.
  unfold Store.assign, Pg.companies_table. intros Ha Ht.
  company_column_cases c; simpl in Ha, Ht; try discriminate;
    injection Ht as <- <-;
    destruct v; try discriminate;
    injection Ha as <-; reflexivity.
Qed.

Lemma company_assign_frame (c c' : string) (v : Pg.SqlValue) (r r' : Pg.CompanyRow)
    (ty : Pg.ColType) (read : Pg.CompanyRow -> Pg.SqlValue) :
  Store.assign c v r = Ok r' ->
  c' <> c ->
  Pg.companies_table c' = Some (ty, read) ->
  read r' = read r.
Proof.
  unfold Store.assign, Pg.companies_table. intros Ha Hne Ht.
  company_column_cases c; simpl in Ha; try discriminate;
    (company_column_cases c'; simpl in Ht; try discriminate; try congruence;
     injection Ht as <- <-;
     destruct v; try discriminate;
     injection Ha as <-; reflexivity).
Qed.

Lemma company_assign_all_frame (vals : list (string * Pg.SqlValue)) :
  forall (r r' : Pg.CompanyRow) (c : string) (ty : Pg.ColType)
         (read : Pg.CompanyRow -> Pg.SqlValue),
    Store.assign_all vals r = Ok r' ->
    ~ In c (map fst vals) ->
    Pg.companies_table c = Some (ty, read) ->
    read r' = read r.
Proof.
  induction vals as [|[c0 v0] vals IH]; simpl; intros r r' c ty read Ha Hnot Ht.
  - now injection Ha as <-.
  - unfold Store.and_then in Ha.
    destruct (Store.assign c0 v0 r) as [r1|e] eqn:H1; [|discriminate].
    rewrite (IH r1 r' c ty read Ha) by tauto || assumption.
    eapply company_assign_frame; eauto.
Qed.

Lemma company_assign_all_reads (vals : list (string * Pg.SqlValue)) :
  forall (r r' : Pg.CompanyRow) (c : string) (v : Pg.SqlValue)
         (ty : Pg.ColType) (read : Pg.CompanyRow -> Pg.SqlValue),
    NoDup (map fst vals) ->
    Store.assign_all vals r = Ok r' ->
    In (c, v) vals ->
    Pg.companies_table c = Some (ty, read) ->
    read r' = v.
Proof.
  induction vals as [|[c0 v0] vals IH]; simpl; intros r r' c v ty read Hnd Ha Hin Ht;
    [contradiction|].
  apply NoDup_cons_iff in Hnd as (Hnotin & Hnd').
  unfold Store.and_then in Ha.
  destruct (Store.assign c0 v0 r) as [r1|e] eqn:H1; [|discriminate].
  destruct Hin as [Heq|Hin].
  - injection Heq as -> ->.
    rewrite (company_assign_all_frame vals r1 r' c ty read Ha Hnotin Ht).
    eapply company_assign_reads; eauto.
  - eapply IH; eauto.
Qed.

(** The table after an UPDATE of companies: the rows of the key with the
    assignments made, the others as they were, all in place. *)
Lemma company_update_rows (vals : list (string * Pg.SqlValue)) (key : Pg.SqlValue)
    (rows : list Pg.CompanyRow) :
  forall tr,
    Store.update_rows vals key rows = Ok tr ->
    length (fst tr) = length rows
    /\ (forall c, In c rows -> Store.handle_matches key c = false -> In c (fst tr))
    /\ (forall r', In r' (snd tr) ->
          In r' (fst tr)
          /\ exists old, In old rows /\ Store.handle_matches key old = true
                         /\ Store.assign_all vals old = Ok r')
    /\ (snd tr = [] -> fst tr = rows).
Proof.
  induction rows as [|r rows IH]; simpl; intros tr H.
  - injection H as <-. cbn. repeat split; try reflexivity; intros; contradiction.
  - unfold Store.and_then in H.
    destruct (Store.update_rows vals key rows) as [tr0|e] eqn:Hrec; [|discriminate].
    destruct (IH tr0 eq_refl) as (Hlen & Hkeep & Hret & Hnone).
    destruct (Store.handle_matches key r) eqn:Hm.
    + destruct (Store.assign_all vals r) as [r1|e] eqn:Ha; [|discriminate].
      injection H as <-. cbn [fst snd length]. split; [now rewrite Hlen|].
      split; [|split].
      * intros c [<-|Hc] Hcm; [congruence|]. right. now apply Hkeep.
      * intros r' [<-|Hin].
        -- split; [now left|]. exists r. auto.
        -- destruct (Hret r' Hin) as (Ht & old & Ho & Hk & Hv).
           split; [now right|]. exists old. auto.
      * discriminate.
    + injection H as <-. cbn [fst snd length]. split; [now rewrite Hlen|].
      split; [|split].
      * intros c [<-|Hc] Hcm; [now left|]. right. now apply Hkeep.
      * intros r' Hin.
        destruct (Hret r' Hin) as (Ht & old & Ho & Hk & Hv).
        split; [now right|]. exists old. auto.
      * intros Hs. now rewrite (Hnone Hs).
Qed.

Lemma company_bind_assignments (data : Js.Obj) :
  forall (pre post : list Js.Value) (vals : list (string * Pg.SqlValue)),
    Store.bind_assignments (pre ++ map snd data ++ post)
      (combine (map fst data) (seq (S (length pre)) (length data)))
    = Ok vals ->
    map fst vals = map fst data
    /\ forall k v, In (k, v) data ->
         exists ty read sv,
           Pg.companies_table k = Some (ty, read)
           /\ Pg.param_in ty v = Ok sv
           /\ In (k, sv) vals.
Proof.
  induction data as [|[k v] data IH]; intros pre post vals H.
  - simpl in H. injection H as <-. split; [reflexivity|]. intros k v [].
  - cbn [map fst snd length seq combine Store.bind_assignments] in H.
    destruct (Pg.companies_table k) as [[ty read]|] eqn:Ht; [|discriminate].
    cbn [Pg.operand_value] in H.
    assert (Hnth : nth_error (pre ++ (v :: map snd data) ++ post) (length pre) = Some v).
    { rewrite nth_error_app2 by lia. now rewrite Nat.sub_diag. }
    rewrite Hnth in H. unfold Store.and_then in H.
    destruct (Pg.param_in ty v) as [sv|e] eqn:Hp; [|discriminate].
    replace (pre ++ (v :: map snd data) ++ post)%list
      with ((pre ++ [v]) ++ map snd data ++ post)%list in H
      by (rewrite <- app_assoc; reflexivity).
    replace (S (S (length pre))) with (S (length (pre ++ [v])%list)) in H
      by (rewrite length_app; simpl; lia).
    destruct (Store.bind_assignments ((pre ++ [v]) ++ map snd data ++ post)
                (combine (map fst data) (seq (S (length (pre ++ [v])%list)) (length data))))
      as [vals'|e] eqn:Hrec; [|discriminate].
    injection H as <-.
    destruct (IH _ _ _ Hrec) as (Hk & Hv).
    split; [simpl; now rewrite Hk|].
    intros k0 v0 [Heq|Hin].
    + injection Heq as <- <-. exists ty, read, sv. simpl. auto.
    + destruct (Hv k0 v0 Hin) as (ty0 & read0 & sv0 & A & B & C).
      exists ty0, read0, sv0. simpl. auto.
Qed.

Lemma by_column_keys (jsToSql : list (string * string)) (data : Js.Obj) :
  map fst (by_column jsToSql data) = map (Sql.column jsToSql) (Js.keys data).
Proof. unfold by_column, Js.keys. now rewrite !map_map. Qed.

Lemma by_column_values (jsToSql : list (string * string)) (data : Js.Obj) :
  map snd (by_column jsToSql data) = Js.values data.
Proof. unfold by_column, Js.values. now rewrite map_map. Qed.

(** The store reads the compiled SET list as the columns of the fields. *)
Lemma cols_parse (data : Js.Obj) (jsToSql : list (string * string)) :
  data <> [] ->
  Forall (fun k => Stated.quote_free (Sql.column jsToSql k) = true) (Js.keys data) ->
  Pg.parse_set_list (String.concat ", " (Sql.cols data jsToSql))
  = Some (combine (map fst (by_column jsToSql data)) (seq 1 (length data))).
Proof.
  intros Hne Hq. unfold Sql.cols, Js.mapi.
  rewrite (mapi_from_map (Sql.column jsToSql) Sql.fragment).
  rewrite by_column_keys.
  replace (length data) with (length (map (Sql.column jsToSql) (Js.keys data)))
    by (unfold Js.keys; now rewrite !length_map).
  apply parse_set_list_fragments.
  - intros Heq. apply map_eq_nil in Heq. unfold Js.keys in Heq.
    apply map_eq_nil in Heq. contradiction.
  - apply Forall_map. exact Hq.
Qed.

Lemma handle_matches_key (key : Pg.SqlValue) (r : Pg.CompanyRow) :
  Store.handle_matches key r = true -> key = Pg.SText (Pg.handle r).
Proof.
  destruct key; simpl; try discriminate.
  intros H. apply String.eqb_eq in H. now subst.
Qed.

(** What a successful UPDATE of companies compiled from a payload does. *)
Lemma exec_update_companies_payload (data : Js.Obj) (jsToSql : list (string * string))
    (handle : Js.Value) (d d' : Pg.Db) (returned : list Pg.CompanyRow) :
  data <> [] ->
  Forall (fun k => Stated.quote_free (Sql.column jsToSql k) = true) (Js.keys data) ->
  Store.exec_update_companies (String.concat ", " (Sql.cols data jsToSql))
    ("$" ++ Js.decimal_nat (length (Js.values data) + 1)) (Js.values data ++ [handle]) d
  = Ok (returned, d') ->
  (forall c, In c (Pg.companies d) ->
     Pg.param_in Pg.TText handle <> Ok (Pg.SText (Pg.handle c)) ->
     In c (Pg.companies d'))
  /\ forall company, In company returned ->
    In company (Pg.companies d')
    /\ exists old,
         In old (Pg.companies d)
         /\ Pg.param_in Pg.TText handle = Ok (Pg.SText (Pg.handle old))
         /\ (forall c ty read,
                Pg.companies_table c = Some (ty, read) ->
                ~ In c (map (Sql.column jsToSql) (Js.keys data)) ->
                read company = read old)
         /\ (forall k v, In (k, v) data ->
                exists ty read,
                  Pg.companies_table (Sql.column jsToSql k) = Some (ty, read)
                  /\ Pg.param_in ty v = Ok (read company)).
Proof.
  intros Hne Hq H. unfold Store.exec_update_companies in H.
  rewrite (cols_parse data jsToSql Hne Hq) in H.
  rewrite parse_placeholder_decimal in H.
  destruct (negb (Pg.placeholders_ok _ _)); [discriminate|].
  assert (Hlen : length data = length (map fst (by_column jsToSql data))).
  { unfold by_column. now rewrite !length_map. }
  rewrite Hlen in H at 1. rewrite map_fst_combine_seq in H.
  destruct (negb (Pg.nodupb (map fst (by_column jsToSql data)))) eqn:Hnd; [discriminate|].
  apply negb_false_iff, nodupb_NoDup in Hnd.
  assert (Hb := company_bind_assignments (by_column jsToSql data) [] [handle]).
  cbn [app length] in Hb. rewrite by_column_values in Hb.
  replace (length (by_column jsToSql data)) with (length data) in Hb
    by (unfold by_column; now rewrite length_map).
  unfold Store.and_then in H.
  destruct (Store.bind_assignments (Js.values data ++ [handle])
              (combine (map fst (by_column jsToSql data)) (seq 1 (length data))))
    as [vals|e] eqn:Hvals; [|discriminate].
  destruct (Hb vals eq_refl) as (Hkeys & Hpayload).
  replace (length (Js.values data) + 1)%nat with (S (length (Js.values data))) in H by lia.
  cbn [Pg.operand_value] in H.
  rewrite nth_error_app2 in H by lia.
  rewrite Nat.sub_diag in H. cbn [nth_error] in H.
  destruct (Pg.param_in Pg.TText handle) as [key|e] eqn:Hkey; [|discriminate].
  destruct (Store.update_rows vals key (Pg.companies d)) as [tr|e] eqn:Hup;
    [|discriminate].
  destruct (existsb _ _ && negb _); [discriminate|].
  injection H as <- <-.
  destruct (company_update_rows vals key _ tr Hup) as (_ & Hkeep & Hret & _).
  split.
  { intros c Hc Hother. cbn [Pg.companies]. apply Hkeep; [exact Hc|].
    destruct (Store.handle_matches key c) eqn:Hm; [|reflexivity].
    exfalso. apply Hother. f_equal. now apply handle_matches_key. }
  intros company Hc.
  destruct (Hret company Hc) as (Hin & old & Hold & Hm & Ha).
  split; [exact Hin|].
  exists old. split; [exact Hold|]. split.
  { f_equal. now apply handle_matches_key. }
  split.
  - intros c ty read Ht Hnot.
    eapply company_assign_all_frame; eauto.
    now rewrite Hkeys, by_column_keys.
  - intros k v Hkv.
    destruct (Hpayload (Sql.column jsToSql k) v) as (ty & read & sv & Ht & Hp & Hsv).
    { unfold by_column. apply in_map_iff. now exists (k, v). }
    exists ty, read. split; [exact Ht|].
    rewrite Hp. f_equal. symmetry.
    eapply company_assign_all_reads; eauto. now rewrite Hkeys.
Qed.

(** Whatever the statement, a successful UPDATE of companies leaves the jobs
    alone and the table as long as it was; one that matches no row changes
    nothing. *)
Lemma exec_update_companies_frame (setCols idx : string) (args : list Js.Value)
    (d d' : Pg.Db) (returned : list Pg.CompanyRow) :
  Store.exec_update_companies setCols idx args d = Ok (returned, d') ->
  Pg.jobs d' = Pg.jobs d
  /\ length (Pg.companies d') = length (Pg.companies d)
  /\ (returned = [] -> d' = d).
Proof.
  unfold Store.exec_update_companies, Store.and_then. intros H.
  destruct (Pg.parse_set_list setCols) as [assigns|]; [|discriminate].
  destruct (Pg.parse_placeholder idx) as [k|]; [|discriminate].
  destruct (negb (Pg.placeholders_ok _ _)); [discriminate|].
  destruct (negb (Pg.nodupb _)); [discriminate|].
  destruct (Store.bind_assignments args assigns) as [vals|e]; [|discriminate].
  destruct (Pg.operand_value Pg.TText args (Pg.Param k)) as [key|e]; [|discriminate].
  destruct (Store.update_rows vals key (Pg.companies d)) as [tr|e] eqn:Hup;
    [|discriminate].
  destruct (existsb _ _ && negb _); [discriminate|].
  injection H as <- <-.
  destruct (company_update_rows vals key _ tr Hup) as (Hlen & _ & _ & Hnone).
  split; [reflexivity|]. split; [exact Hlen|].
  intros Hr. rewrite (Hnone Hr). now destruct d.
Qed.

Lemma update_company_cases (handle : Js.Value) (data : Js.Obj) (w : Pg.World) :
  (exists e, Companies.update handle data w = (Throw e, w))
  \/ exists company rest d',
       data <> []
       /\ Store.exec_update_companies
            (String.concat ", " (Sql.cols data Companies.jsToSql))
            ("$" ++ Js.decimal_nat (length (Js.values data) + 1))
            (Js.values data ++ [handle]) (Pg.store w)
          = Ok (company :: rest, d')
       /\ Companies.update handle data w
          = (Ok company, {| Pg.store := d'; Pg.issued := Pg.issued w |}).
Proof.
  unfold Companies.update, Pg.bind, Pg.lift, Sql.sqlForPartialUpdate.
  destruct data as [|kv data]; [left; eexists; reflexivity|].
  cbn [Js.keys map length Nat.eqb Sql.setCols Sql.values].
  unfold Store.perform.
  destruct (Store.exec_update_companies _ _ _ (Pg.store w)) as [[ret d']|e] eqn:Hx;
    [|left; now exists e].
  destruct ret as [|company rest].
  - left. eexists. unfold Pg.throw. f_equal.
    destruct (exec_update_companies_frame _ _ _ _ _ _ Hx) as (_ & _ & Hd).
    rewrite (Hd eq_refl). now destruct w.
  - right. exists company, rest, d'. split; [discriminate|]. split; reflexivity.
Qed.

(** Company.update.  An empty payload is refused with BadRequestError
    "No data".  A call that throws, for that or because no company has the
    handle or because the store refuses the statement, leaves the store as
    it was.  A call that returns leaves the jobs alone and the table of
    companies as long as it was.  For a payload whose fields resolve, through
    the mapping numEmployees to num_employees and logoUrl to logo_url, to
    columns written without a double quote, the company returned is stored;
    it comes from a stored company of the given handle, with each field of
    the payload set in its column to the supplied value and every other
    column as it was; and the companies of another handle stay as they
    were. *)
Theorem update_company :
  forall (handle : Js.Value) (data : Js.Obj) (w : Pg.World),
    (data = [] ->
     Companies.update handle data w = (Throw (BadRequestError "No data"), w))
    /\ (forall e, fst (Companies.update handle data w) = Throw e ->
                  snd (Companies.update handle data w) = w)
    /\ (forall company,
        fst (Companies.update handle data w) = Ok company ->
        let w' := snd (Companies.update handle data w) in
        Pg.jobs (Pg.store w') = Pg.jobs (Pg.store w)
        /\ length (Pg.companies (Pg.store w')) = length (Pg.companies (Pg.store w)))
    /\ (Forall (fun k => Stated.quote_free (Sql.column Companies.jsToSql k) = true)
               (Js.keys data) ->
        forall company,
          fst (Companies.update handle data w) = Ok company ->
          let w' := snd (Companies.update handle data w) in
          In company (Pg.companies (Pg.store w'))
          /\ (forall c, In c (Pg.companies (Pg.store w)) ->
                Pg.param_in Pg.TText handle <> Ok (Pg.SText (Pg.handle c)) ->
                In c (Pg.companies (Pg.store w')))
          /\ exists old,
               In old (Pg.companies (Pg.store w))
               /\ Pg.param_in Pg.TText handle = Ok (Pg.SText (Pg.handle old))
               /\ (forall c ty read,
                      Pg.companies_table c = Some (ty, read) ->
                      ~ In c (map (Sql.column Companies.jsToSql) (Js.keys data)) ->
                      read company = read old)
               /\ (forall k v, In (k, v) data ->
                      exists ty read,
                        Pg.companies_table (Sql.column Companies.jsToSql k) = Some (ty, read)
                        /\ Pg.param_in ty v = Ok (read company))).
Proof.
  intros handle data w. split; [intros ->; reflexivity|].
  destruct (update_company_cases handle data w)
    as [(e & ->)|(company & rest & d' & Hne & Hx & ->)]; cbn [fst snd].
  - split; [reflexivity|]. split; [discriminate|]. intros _ company Hc. discriminate.
  - split; [discriminate|]. split.
    + intros c _. cbn [Pg.store].
      destruct (exec_update_companies_frame _ _ _ _ _ _ Hx) as (Hj & Hl & _).
      now split.
    + intros Hq c Hc. injection Hc as <-. cbn [Pg.store].
      destruct (exec_update_companies_payload data Companies.jsToSql handle _ _ _
                  Hne Hq Hx) as (Hkeep & Hret).
      destruct (Hret company (or_introl eq_refl)) as (Hin & old & Hold).
      split; [exact Hin|]. split; [exact Hkeep|]. now exists old.
Qed.

End CompanyUpdate.

Lemma update_company_witness :
  let c1' := {| Pg.handle := "c1"; Pg.name := "New"; Pg.description := "Desc1";
                Pg.num_employees := Some 10%Z; Pg.logo_url := Some "http://c1.img" |} in
  @Companies.update Fixture.engine (Js.Str "c1") [] Fixture.world
  = (Throw (BadRequestError "No data"), Fixture.world)
  /\ fst (@Companies.update Fixture.engine (Js.Str "c1")
            [("name", Js.Str "New"); ("numEmployees", whole 10)] Fixture.world)
     = Ok c1'
  /\ In c1' (Pg.companies (Pg.store
        (snd (@Companies.update Fixture.engine (Js.Str "c1")
                [("name", Js.Str "New"); ("numEmployees", whole 10)] Fixture.world)))).
Proof.
  intros c1'.
  pose proof (@update_company Fixture.engine (Js.Str "c1") [] Fixture.world) as (E & _).
  pose proof (@update_company Fixture.engine (Js.Str "c1")
                [("name", Js.Str "New"); ("numEmployees", whole 10)] Fixture.world)
    as (_ & _ & _ & U).
  split; [exact (E eq_refl)|]. split; [reflexivity|].
  destruct (U ltac:(repeat constructor) c1' eq_refl) as (Hin & _).
  exact Hin.
Defined.

(** ** The DELETE routes *)

Section DeleteRoutes.
Context {Eng : Pg.Engine}.

(** What the store refuses as an integer it refuses with an error of its
    own. *)
Lemma param_in_refusal (v : Js.Value) (e : Error) :
  Pg.param_in Pg.TInt v = Throw e -> exists m, e = DatabaseError m.
Proof.
  unfold Pg.param_in, Pg.integer_in, Pg.invalid_input, Pg.out_of_range.
  destruct v; try discriminate;
    (match goal with
     | |- context [match ?o with Some _ => _ | None => Pg.integer_beyond ?s end] =>
         destruct (match o with Some y => Some y | None => Pg.integer_beyond s end) as [y|];
         [destruct (Pg.in_int4 y); [discriminate|]|];
         intros H; injection H as <-; eexists; reflexivity
     end).
Qed.

(** The DELETE routes.  Without admin rights both answer 401 and the store
    is left as it was, whatever the key.  With them, DELETE /companies/:handle
    answers 404 when no company has the handle and otherwise 200 with the
    handle, the company and its jobs being gone.  DELETE /jobs/:id sends the
    id to the store as the text it is.  When the store reads it as the
    integer z, which a plain integer text within -2147483648 and 2147483647
    is, blanks and a plus sign allowed, the route answers 404 when no job
    has the id z, and otherwise 200 with the id as it was given, the job
    being gone.  When the store refuses the text, the route answers 500
    with the store's message, and nothing is removed. *)
Theorem delete_routes :
  forall (user : Auth.Locals) (w : Pg.World),
    (Auth.ensureLoggedInAsAdmin user = Auth.Unauthorized ->
     forall key,
       Api.deleteCompany user key w = (Routes.Failure 401 "Unauthorized", w)
       /\ Api.deleteJob user key w = (Routes.Failure 401 "Unauthorized", w))
    /\ (Auth.ensureLoggedInAsAdmin user = Auth.Continue ->
        (forall handle,
            ((forall c, In c (Pg.companies (Pg.store w)) -> Pg.handle c <> handle) ->
             Api.deleteCompany user handle w
             = (Routes.Failure 404 ("No company: " ++ handle), w))
            /\ (forall c,
                In c (Pg.companies (Pg.store w)) -> Pg.handle c = handle ->
                Api.deleteCompany user handle w
                = (Routes.Json 200 handle, on_store (without_company handle) w)))
        /\ (forall id,
            (forall z,
                Pg.param_in Pg.TInt (Js.Str id) = Ok (Pg.SInt z) ->
                fits_int4 z
                /\ ((forall j, In j (Pg.jobs (Pg.store w)) -> Pg.id j <> z) ->
                    Api.deleteJob user id w = (Routes.Failure 404 ("No job: " ++ id), w))
                /\ (forall j,
                    In j (Pg.jobs (Pg.store w)) -> Pg.id j = z ->
                    Api.deleteJob user id w
                    = (Routes.Json 200 id, on_store (without_job z) w)))
            /\ (forall e,
                Pg.param_in Pg.TInt (Js.Str id) = Throw e ->
                exists m,
                  e = DatabaseError m
                  /\ Api.deleteJob user id w = (Routes.Failure 500 m, w))
            /\ (forall z,
                Pg.plain_integer id = Some z ->
                (fits_int4 z -> Pg.param_in Pg.TInt (Js.Str id) = Ok (Pg.SInt z))
                /\ (~ fits_int4 z ->
                    exists e, Pg.param_in Pg.TInt (Js.Str id) = Throw e)))).
Proof.
  intros user w. unfold Api.deleteCompany, Api.deleteJob. split.
  - intros ->. intros key. split; reflexivity.
  - intros ->. cbn [Api.guarded]. unfold Routes.handle, Pg.bind. split.
    + intros handle. split.
      * intros H. now rewrite (remove_missing handle w H).
      * intros c Hin Hc. now rewrite (remove_present handle w c Hin Hc).
    + intros id. split; [|split].
      * intros z Hz. split; [exact (param_in_fits _ z Hz)|]. split.
        -- intros H. now rewrite (remove_job_missing (Js.Str id) z w Hz H).
        -- intros j Hin Hj. now rewrite (remove_job_present (Js.Str id) z w j Hz Hin Hj).
      * intros e He. destruct (param_in_refusal _ e He) as (m & ->).
        exists m. split; [reflexivity|].
        now rewrite (remove_job_refused (Js.Str id) _ w He).
      * intros z Hz. split; [now apply param_in_text|].
        intros Hout. cbn [Pg.param_in Js.ToString]. unfold Pg.integer_in. rewrite Hz.
        destruct (Pg.in_int4 z) eqn:Hin.
        -- apply in_int4_fits in Hin. contradiction.
        -- eexists. reflexivity.
Qed.

End DeleteRoutes.

Lemma delete_routes_witness :
  let admin := Some {| Auth.username := "admin"; Auth.isAdmin := Js.Bool true |} in
  @Api.deleteJob Fixture.engine
    (Some {| Auth.username := "u1"; Auth.isAdmin := Js.Bool false |}) "2" Fixture.world
  = (Routes.Failure 401 "Unauthorized", Fixture.world)
  /\ @Api.deleteJob Fixture.engine admin "+2" Fixture.world
     = (Routes.Json 200 "+2",
        {| Pg.store := {| Pg.companies := [Fixture.c1; Fixture.c2; Fixture.c3];
                          Pg.jobs := [Fixture.j1; Fixture.j3] |};
           Pg.issued := [] |})
  /\ @Api.deleteJob Fixture.engine admin "7" Fixture.world
     = (Routes.Failure 404 "No job: 7", Fixture.world)
  /\ (exists m, @Api.deleteJob Fixture.engine admin "two" Fixture.world
                = (Routes.Failure 500 m, Fixture.world))
  /\ (exists m, @Api.deleteJob Fixture.engine admin "2147483648" Fixture.world
                = (Routes.Failure 500 m, Fixture.world)).
Proof.
  intros admin.
  pose proof (proj2 (@delete_routes Fixture.engine admin Fixture.world) eq_refl) as (_ & J).
  split; [|split; [|split; [|split]]].
  - exact (proj2 (proj1 (@delete_routes Fixture.engine
                    (Some {| Auth.username := "u1"; Auth.isAdmin := Js.Bool false |})
                    Fixture.world) eq_refl "2")).
  - destruct (J "+2") as (P & _).
    destruct (P 2%Z eq_refl) as (_ & _ & D).
    apply (D Fixture.j2); [simpl; auto | reflexivity].
  - destruct (J "7") as (P & _).
    destruct (P 7%Z eq_refl) as (_ & N & _).
    apply N. intros j [<-|[<-|[<-|[]]]]; discriminate.
  - destruct (J "two") as (_ & B & _).
    destruct (B (Pg.invalid_input "integer" "two") eq_refl) as (m & _ & H).
    exists m. exact H.
  - destruct (J "2147483648") as (_ & B & _).
    destruct (B (Pg.out_of_range "integer" "2147483648") eq_refl) as (m & _ & H).
    exists m. exact H.
Defined.
